(** * speech-to-phrase: transcription orchestration layer

    A shallow embedding of the post-processing and orchestration code of
    [speech_to_phrase] (the Vietnamese transcript normaliser, the
    finaliser, the greedy transducer search, the token-table loader, the
    per-backend resource caches and the four [transcribe_*] entry points),
    together with the properties stated about them.

    Python [str] values are sequences of Unicode code points; they are
    modelled as [list N].  Python [int] values are modelled as [Z]. *)

From Stdlib Require Import ZArith NArith Lia String Ascii DecimalPos.
From Stdlib Require Strings.Byte.
From stdpp Require Import base option list gmap.

Local Open Scope Z_scope.

(** ** Python strings *)

Abbreviation str := (list N).

Module Py.

(** UTF-8 decoding of a source literal into its code points, so that the
    literals below can be written as they appear in the Python files. *)
Fixpoint utf8_decode (bs : list N) : str :=
  match bs with
  | [] => []
  | b :: r =>
      if (b <? 128)%N then b :: utf8_decode r
      else if (b <? 224)%N then
        match r with
        | c1 :: r1 => ((b mod 32) * 64 + c1 mod 64)%N :: utf8_decode r1
        | _ => []
        end
      else if (b <? 240)%N then
        match r with
        | c1 :: c2 :: r2 =>
            ((b mod 16) * 4096 + (c1 mod 64) * 64 + c2 mod 64)%N :: utf8_decode r2
        | _ => []
        end
      else
        match r with
        | c1 :: c2 :: c3 :: r3 =>
            ((b mod 8) * 262144 + (c1 mod 64) * 4096 + (c2 mod 64) * 64 + c3 mod 64)%N
              :: utf8_decode r3
        | _ => []
        end
  end.

Definition lit (s : string) : str :=
  utf8_decode (List.map Strings.Byte.to_N (list_byte_of_string s)).

(** [str.isspace] on one code point (the characters CPython treats as
    whitespace in [str.split()] and [str.strip()]). *)
Definition isspace (c : N) : bool :=
  ((9 <=? c) && (c <=? 13) || (28 <=? c) && (c <=? 32)
   || (c =? 133) || (c =? 160) || (c =? 5760)
   || (8192 <=? c) && (c <=? 8202)
   || (c =? 8232) || (c =? 8233) || (c =? 8239) || (c =? 8287) || (c =? 12288))%N.

(** [s.lstrip(chars)] and [s.rstrip(chars)]: the leading (trailing)
    characters that belong to [chars] are removed. *)
Fixpoint lstrip_by (chars : N -> bool) (s : str) : str :=
  match s with
  | c :: r => if chars c then lstrip_by chars r else s
  | [] => []
  end.

Definition rstrip_by (chars : N -> bool) (s : str) : str :=
  reverse (lstrip_by chars (reverse s)).

(** [s.lstrip()], [s.rstrip()], [s.strip()]: without an argument the
    characters removed are the whitespace ones. *)
Definition lstrip (s : str) : str := lstrip_by isspace s.

Definition rstrip (s : str) : str := rstrip_by isspace s.

Definition strip (s : str) : str := rstrip (lstrip s).

(** [s.rstrip(ch)] for a one-character string [ch] *)
Definition rstrip_char (ch : N) (s : str) : str :=
  rstrip_by (fun c => (c =? ch)%N) s.

(** [s.split()]: maximal runs of non-whitespace characters.  [cur] is the
    token being read, in reverse. *)
Fixpoint split_go (cur : str) (s : str) : list str :=
  match s with
  | [] => match cur with [] => [] | _ => [reverse cur] end
  | c :: r =>
      if isspace c then
        match cur with
        | [] => split_go [] r
        | _ => reverse cur :: split_go [] r
        end
      else split_go (c :: cur) r
  end.

Definition split (s : str) : list str := split_go [] s.

(** [sep.join(parts)] *)
Fixpoint join (sep : str) (parts : list str) : str :=
  match parts with
  | [] => []
  | [p] => p
  | p :: rest => p ++ sep ++ join sep rest
  end.

(** [s.startswith(p)] *)
Fixpoint startswith (p s : str) : bool :=
  match p, s with
  | [], _ => true
  | a :: p', b :: s' => (a =? b)%N && startswith p' s'
  | _ :: _, [] => false
  end.

(** [s.replace(old, new)]: the non-overlapping occurrences of [old], found
    left to right, are replaced.  [skip] counts the characters of a matched
    occurrence that are still to be dropped. *)
Fixpoint replace_go (old new : str) (skip : nat) (s : str) : str :=
  match s with
  | [] => []
  | c :: r =>
      match skip with
      | S k => replace_go old new k r
      | O =>
          if startswith old s
          then new ++ replace_go old new (length old - 1) r
          else c :: replace_go old new 0 r
      end
  end.

Definition replace (old new : str) (s : str) : str :=
  match old with
  | [] => new ++ concat (List.map (fun c => c :: new) s)
  | _ => replace_go old new 0 s
  end.

(** [sub in s] *)
Fixpoint contains (sub s : str) : bool :=
  match s with
  | [] => startswith sub []
  | _ :: r => startswith sub s || contains sub r
  end.

(** [s.split(sep)] for a one-character [sep] *)
Fixpoint split_on_go (sep : N) (cur : str) (s : str) : list str :=
  match s with
  | [] => [reverse cur]
  | c :: r =>
      if (c =? sep)%N then reverse cur :: split_on_go sep [] r
      else split_on_go sep (c :: cur) r
  end.

Definition split_on (sep : N) (s : str) : list str := split_on_go sep [] s.

(** [str(n)] for an [int] *)
Fixpoint digits_of_uint (d : Decimal.uint) : str :=
  match d with
  | Decimal.Nil => []
  | Decimal.D0 r => 48%N :: digits_of_uint r
  | Decimal.D1 r => 49%N :: digits_of_uint r
  | Decimal.D2 r => 50%N :: digits_of_uint r
  | Decimal.D3 r => 51%N :: digits_of_uint r
  | Decimal.D4 r => 52%N :: digits_of_uint r
  | Decimal.D5 r => 53%N :: digits_of_uint r
  | Decimal.D6 r => 54%N :: digits_of_uint r
  | Decimal.D7 r => 55%N :: digits_of_uint r
  | Decimal.D8 r => 56%N :: digits_of_uint r
  | Decimal.D9 r => 57%N :: digits_of_uint r
  end.

Definition str_of_int (z : Z) : str :=
  match z with
  | Z0 => [48%N]
  | Zpos p => digits_of_uint (Pos.to_uint p)
  | Zneg p => 45%N :: digits_of_uint (Pos.to_uint p)
  end.

End Py.

Notation "'u' s" := (Py.lit s%string) (at level 1, s at level 0, only parsing).

(** ** [vi_normalize.py] *)

Module ViNormalize.

(** [_NUMBER_UNITS] *)
Definition _NUMBER_UNITS : list (str * Z) :=
  [ (u"không", 0); (u"một", 1); (u"mốt", 1); (u"hai", 2); (u"ba", 3);
    (u"bốn", 4); (u"tư", 4); (u"năm", 5); (u"lăm", 5); (u"sáu", 6);
    (u"bảy", 7); (u"tám", 8); (u"chín", 9) ].

(** [_NUMBER_UNITS.get(word)] *)
Fixpoint dict_get (d : list (str * Z)) (word : str) : option Z :=
  match d with
  | [] => None
  | (k, v) :: d' => if bool_decide (k = word) then Some v else dict_get d' word
  end.

(** [_NUMBER_TOKENS = set(_NUMBER_UNITS) | {...}] *)
Definition _NUMBER_TOKENS : list str :=
  List.map fst _NUMBER_UNITS ++ [u"mười"; u"mươi"; u"linh"; u"lẻ"; u"trăm"].

Definition _NUMBER_FOLLOWERS : list str :=
  [u"giờ"; u"phút"; u"giây"; u"ngày"; u"tháng"; u"năm"; u"độ"; u"phần"; u"rưỡi"].

Definition mem (x : str) (l : list str) : bool := bool_decide (x ∈ l).

(** State of the loop of [_words_to_number]: [total] and [value_set]. *)
Fixpoint words_loop (words : list str) (total : Z) (value_set : bool) : option Z :=
  match words with
  | [] => if value_set then Some total else None
  | word :: rest =>
      if bool_decide (word = u"mười") then
        words_loop rest (if total =? 0 then 10 else total + 10) true
      else if bool_decide (word = u"mươi") then
        words_loop rest ((if total =? 0 then 1 else total) * 10) true
      else if mem word [u"linh"; u"lẻ"] then
        words_loop rest (if total =? 0 then 0 else total) true
      else if bool_decide (word = u"trăm") then
        words_loop rest ((if total =? 0 then 1 else total) * 100) true
      else
        match dict_get _NUMBER_UNITS word with
        | None => None
        | Some unit =>
            if (total >=? 10) || value_set
            then words_loop rest (total + unit) true
            else words_loop rest unit true
        end
  end.

Definition _words_to_number (words : list str) : option Z :=
  match words with
  | [] => None
  | _ => words_loop words 0 false
  end.

(** [tokens[i:j]] for the run starting at the head of [rest]: the longest
    prefix of number tokens. *)
Fixpoint number_run (rest : list str) : list str :=
  match rest with
  | tok :: rest' => if mem tok _NUMBER_TOKENS then tok :: number_run rest' else []
  | [] => []
  end.

(** The [should_convert] decision, from [next_token = tokens[j]] (or [""]),
    [tokens[j+1]] when it exists, whether [j == len(tokens)], and
    [number_value]. *)
Definition should_convert (after : list str) (number_value : option Z) : bool :=
  let next_token := default [] (head after) in
  if mem next_token _NUMBER_FOLLOWERS then true
  else if bool_decide (next_token = u"phần")
          && bool_decide (after !! 1%nat = Some (u"trăm")) then true
  else if bool_decide (next_token = u"rưỡi") then true
  else if bool_decide (after = [])
          && match number_value with
             | Some v => negb (v =? 0) && (v >=? 10)
             | None => false
             end then true
  else false.

(** The guard of the [if] that replaces a run by its digits. *)
Definition accept (prev_token : str) (run : list str) (number_value : option Z)
    (convert : bool) : bool :=
  match number_value with
  | None => false
  | Some v =>
      convert
      && negb ((v =? 0) && bool_decide (run = [u"không"]))
      && negb (bool_decide (run = [u"trăm"]) && bool_decide (prev_token = u"phần"))
  end.

(** The [while i < len(tokens)] loop.  [rest] is [tokens[i:]] and
    [prev_token] is [tokens[i-1]] (or [""] when [i = 0]); every iteration
    consumes at least one token, so [length tokens] iterations suffice. *)
Fixpoint normalize_loop (fuel : nat) (prev_token : str) (rest : list str) : list str :=
  match fuel, rest with
  | S fuel', tok :: rest' =>
      if mem tok _NUMBER_TOKENS then
        let run := number_run rest in
        let after := drop (length run) rest in
        let number_value := _words_to_number run in
        if accept prev_token run number_value (should_convert after number_value)
        then Py.str_of_int (default 0 number_value)
               :: normalize_loop fuel' (default [] (last run)) after
        else tok :: normalize_loop fuel' tok rest'
      else tok :: normalize_loop fuel' tok rest'
  | _, _ => []
  end.

Definition normalize_tokens (tokens : list str) : list str :=
  normalize_loop (length tokens) [] tokens.

Definition normalize_vietnamese_numbers (text : str) : str :=
  let tokens := Py.split text in
  match tokens with
  | [] => text
  | _ => Py.join (u" ") (normalize_tokens tokens)
  end.

Definition normalize_cancellation_terms (text : str) : str :=
  let normalized := Py.replace (u"hủy") (u"huỷ") text in
  Py.replace (u"Hủy") (u"Huỷ") normalized.

Definition normalize_vietnamese_transcript (text : str) : str :=
  let normalized := Py.replace (u"tivi") (u"tv") text in
  let normalized := Py.replace (u"ti vi") (u"tv") normalized in
  let normalized := Py.replace (u"ti-vi") (u"tv") normalized in
  let normalized := Py.replace (u"ti. vi") (u"tv") normalized in
  let normalized := Py.replace (u"ga ra") (u"gara") normalized in
  let normalized := normalize_vietnamese_numbers normalized in
  normalize_cancellation_terms normalized.

End ViNormalize.

(** ** Exceptions *)

(** The exceptions the modelled code raises or lets through.
    [TranscribingError] is [const.TranscribingError]; [LibraryError] stands
    for any [Exception] raised inside a backend library, [Interrupt] for a
    [BaseException] that is not an [Exception] (such as a cancellation),
    which [except Exception] does not catch. *)
Inductive reason :=
  | MissingDependency
  | MissingDirectory (p : str)
  | MissingAssets (files : list str)
  | NoTokensLoaded (p : str)
  | NoRepoId
  | DownloadFailed (code : N)
  | LoadFailed (code : N)
  | DecodeFailed (code : N)
  | UnexpectedShape.

Inductive exception :=
  | TranscribingError (why : reason)
  | ValueError
  | AssertionError
  | IndexError
  | KeyError
  | OverflowError
  | MemoryError
  | LibraryError (code : N)
  | Interrupt (code : N).

Inductive result (A : Type) :=
  | Ok (a : A)
  | Raise (e : exception).
Arguments Ok {A} a.
Arguments Raise {A} e.

(** [except Exception as exc]: which exceptions the clause catches, and the
    code carried into the message of the wrapping error. *)
Definition is_Exception (e : exception) : bool :=
  match e with
  | Interrupt _ => false
  | _ => true
  end.

Definition code_of (e : exception) : N :=
  match e with
  | LibraryError c => c
  | Interrupt c => c
  | TranscribingError _ => 1
  | ValueError => 2
  | AssertionError => 3
  | IndexError => 4
  | KeyError => 5
  | OverflowError => 6
  | MemoryError => 7
  end.

(** ** [transcribe_vietasr.py]: greedy search, token table *)

Module VietASR.

(** Python slices on lists, for indices that are not negative. *)
Definition slice {A} (l : list A) (start stop : nat) : list A :=
  drop start (take stop l).

(** [h[-n:]]: the last [n] elements; [h[-0:]] is the whole list. *)
Definition last_n {A} (n : nat) (h : list A) : list A :=
  match n with
  | O => h
  | _ => drop (length h - n) h
  end.

Section GreedySearch.

(** One row of the packed encoder output and one row of the decoder
    output; the decoder and joiner networks are opaque.  [joiner_argmax]
    is [model.joiner(...).argmax(dim=1).tolist()]. *)
Context {Enc Dec : Type}.
Variable blank_id : Z.
Variable context_size : nat.
Variable decoder : list (list Z) -> list Dec.
Variable joiner_argmax : list Enc -> list Dec -> list Z.

(** What [pack_padded_sequence] returns. *)
Record PackedSequence := {
  data : list Enc;
  batch_sizes : list nat;
  unsorted_indices : list nat
}.

(** The encoder output with what the code reads from it: [dim()],
    [size(0)] and its packed form. *)
Record EncoderOut := {
  enc_dim : nat;
  enc_size0 : nat;
  packed : PackedSequence
}.

(** [for idx, token_id in enumerate(top_ids)]: appends the non-blank ids;
    returns the hypotheses and [emitted], or [None] when [hyps[idx]] is out
    of range. *)
Fixpoint append_emitted (hyps : list (list Z)) (emitted : bool) (idx : nat)
    (top_ids : list Z) : option (list (list Z) * bool) :=
  match top_ids with
  | [] => Some (hyps, emitted)
  | token_id :: rest =>
      if bool_decide (token_id <> blank_id) then
        match hyps !! idx with
        | Some h => append_emitted (<[idx := h ++ [token_id]]> hyps) true (S idx) rest
        | None => None
        end
      else append_emitted hyps emitted (S idx) rest
  end.

(** The variables of the loop over [batch_size_list]. *)
Record search_state := {
  offset : nat;
  hyps : list (list Z);
  decoder_out : list Dec
}.

(** [top_ids] of the step that starts in state [st]. *)
Definition top_ids_at (pk : PackedSequence) (st : search_state) (current_batch : nat)
    : list Z :=
  let start := offset st in
  let stop := (offset st + current_batch)%nat in
  let encoder_slice := slice (data pk) start stop in
  let decoder_slice := take current_batch (decoder_out st) in
  joiner_argmax encoder_slice decoder_slice.

(** [torch.tensor(rows)] accepts a list of rows of one length only, and
    raises [ValueError] on any other. *)
Definition rectangular (rows : list (list Z)) : bool :=
  match rows with
  | [] => true
  | row :: rest => forallb (fun r => (length r =? length row)%nat) rest
  end.

(** One iteration of the loop. *)
Definition search_step (pk : PackedSequence) (st : search_state) (current_batch : nat)
    : result search_state :=
  let top_ids := top_ids_at pk st current_batch in
  match append_emitted (hyps st) false 0 top_ids with
  | None => Raise IndexError
  | Some (hyps', emitted) =>
      if emitted then
        let decoder_input := List.map (last_n context_size) (take current_batch hyps') in
        if rectangular decoder_input
        then Ok {| offset := (offset st + current_batch)%nat;
                   hyps := hyps';
                   decoder_out := decoder decoder_input |}
        else Raise ValueError
      else
        Ok {| offset := (offset st + current_batch)%nat;
              hyps := hyps';
              decoder_out := decoder_out st |}
  end.

Fixpoint search_loop (pk : PackedSequence) (st : search_state)
    (batch_size_list : list nat) : result search_state :=
  match batch_size_list with
  | [] => Ok st
  | current_batch :: rest =>
      match search_step pk st current_batch with
      | Ok st' => search_loop pk st' rest
      | Raise e => Raise e
      end
  end.

(** [results.append(sorted_ans[unsorted_indices[i]]) for i in range(batch)] *)
Fixpoint unsort (sorted_ans : list (list Z)) (unsorted : list nat) (i : nat)
    (count : nat) : option (list (list Z)) :=
  match count with
  | O => Some []
  | S count' =>
      match unsorted !! i with
      | None => None
      | Some k =>
          match sorted_ans !! k with
          | None => None
          | Some h =>
              match unsort sorted_ans unsorted (S i) count' with
              | None => None
              | Some rest => Some (h :: rest)
              end
          end
      end
  end.

Definition initial_state (batch : nat) : search_state :=
  let hyps0 := replicate batch (replicate context_size blank_id) in
  {| offset := 0; hyps := hyps0; decoder_out := decoder hyps0 |}.

Definition _greedy_search (encoder_out : EncoderOut) : result (list (list Z)) :=
  if negb (enc_dim encoder_out =? 3)%nat then Raise (TranscribingError UnexpectedShape)
  else
    let pk := packed encoder_out in
    match batch_sizes pk with
    | [] => Ok []
    | first :: _ =>
        let batch := enc_size0 encoder_out in
        if negb (batch =? first)%nat then Raise AssertionError
        else
          match search_loop pk (initial_state batch) (batch_sizes pk) with
          | Raise e => Raise e
          | Ok st =>
              let sorted_ans := List.map (drop context_size) (hyps st) in
              match unsort sorted_ans (unsorted_indices pk) 0 batch with
              | None => Raise IndexError
              | Some results => Ok results
              end
          end
    end.

(** The arg-max ids of every step of the loop, in step order: entry [t] is
    [top_ids] of step [t]. *)
Fixpoint top_ids_log (pk : PackedSequence) (st : search_state)
    (batch_size_list : list nat) : list (list Z) :=
  match batch_size_list with
  | [] => []
  | current_batch :: rest =>
      top_ids_at pk st current_batch ::
        match search_step pk st current_batch with
        | Ok st' => top_ids_log pk st' rest
        | Raise _ => []
        end
  end.

(** The non-blank arg-max ids of the batch element at sorted position [k],
    in step order (a step at which [k] is no longer active has none). *)
Definition emitted_for (log : list (list Z)) (k : nat) : list Z :=
  filter (fun token_id => token_id <> blank_id) (omap (fun top_ids => top_ids !! k) log).

End GreedySearch.

(** [_tokens_to_text] *)
Fixpoint pieces_of (token_ids : list Z) (tokens : list str) : list str :=
  match token_ids with
  | [] => []
  | idx :: rest =>
      if (0 <=? idx) && (idx <? Z.of_nat (length tokens)) then
        match tokens !! Z.to_nat idx with
        | Some token =>
            if bool_decide (token = u"<blk>") then pieces_of rest tokens
            else token :: pieces_of rest tokens
        | None => pieces_of rest tokens
        end
      else pieces_of rest tokens
  end.

Definition _tokens_to_text (token_ids : list Z) (tokens : list str) : str :=
  let text := concat (pieces_of token_ids tokens) in
  let text := Py.replace (u"▁") (u" ") text in
  Py.strip text.

(** [sys.maxsize] of a 64-bit CPython: the largest count [[""] * n]
    takes. *)
Definition sys_maxsize : Z := 2 ^ 63 - 1.

Section ReadTokens.

(** [int(s)] on a string: [None] stands for [ValueError]. *)
Variable py_int : str -> option Z.

(** The largest number of entries the machine can allocate for one list
    (at least one). *)
Variable capacity : positive.

(** [[""] * n]: a count above [sys.maxsize] raises [OverflowError], a list
    that cannot be allocated raises [MemoryError]. *)
Definition repeat_empty (n : Z) : result (list str) :=
  if n >? sys_maxsize then Raise OverflowError
  else if n >? Z.pos capacity then Raise MemoryError
  else Ok (replicate (Z.to_nat n) []).

(** The body of the [for line in token_file] loop; [tokens] is the list
    built so far.  Only [ValueError] is caught, and only around [int]. *)
Definition read_line (tokens : list str) (line : str) : result (list str) :=
  let stripped := Py.strip line in
  if bool_decide (stripped = []) || Py.startswith (u"#") stripped then Ok tokens
  else
    let parts := Py.split stripped in
    if (length parts <? 2)%nat then Ok tokens
    else
      let token := default [] (head parts) in
      match py_int (default [] (last parts)) with
      | None => Ok tokens
      | Some index =>
          if index <? 0 then Ok tokens
          else if index >=? Z.of_nat (length tokens) then
            match repeat_empty (index + 1 - Z.of_nat (length tokens)) with
            | Raise e => Raise e
            | Ok padding => Ok (<[Z.to_nat index := token]> (tokens ++ padding))
            end
          else Ok (<[Z.to_nat index := token]> tokens)
      end.

Fixpoint read_lines (tokens : list str) (lines : list str) : result (list str) :=
  match lines with
  | [] => Ok tokens
  | line :: rest =>
      match read_line tokens line with
      | Ok tokens' => read_lines tokens' rest
      | Raise e => Raise e
      end
  end.

Definition _read_tokens (lines : list str) : result (list str) :=
  read_lines [] lines.

End ReadTokens.

End VietASR.

(** ** The transcription entry points *)

Module Backends.

Import VietASR.

Abbreviation handle := N (only parsing).
Abbreviation bytes := (list Init.Byte.byte) (only parsing).

(** [models.Model]; [casing_func] is the function
    [WordCasing.get_function(model.casing)] returns for the model. *)
Record Model := {
  id : str;
  language_family : str;
  casing_func : str -> str;
  url : option str
}.

(** [const.Settings] as far as it is used here. *)
Record Settings := {
  models_dir : str;
  model_data_dir : str -> str
}.

(** [a / b] on paths *)
Definition path_join (a b : str) : str := a ++ u"/" ++ b.

(** Calls into the file system and the backend libraries, as they are
    recorded in the trace of a run. *)
Inductive event :=
  | Mkdir (p : str)
  | IsDir (p : str)
  | Exists (p : str)
  | Mkstemp (p : str)
  | WriteWav (p : str)
  | Unlink (p : str)
  | ReadTokenFile (p : str)
  | SnapshotDownload (repo : str) (p : str)
  | LoadVosk (p : str)
  | LoadWhisper (name : str)
  | LoadTorchScript (p : str)
  | LoadChunkFormer (p : str)
  | NewRecognizer (m : handle)
  | AcceptWaveform (chunk : bytes)
  | RecognizerResult
  | RecognizerFinalResult
  | WhisperPipeline (audio : bytes)
  | Encoder (audio : bytes)
  | EndlessDecode (p : str).

(** What ChunkFormer's [endless_decode] may return, as [_decode_to_text]
    tells the cases apart.  For a [dict] item of a sequence,
    [IDict s] carries [str(item.get("decode", ""))]; for any other
    object, [IOther s] carries [str(item)]. *)
Inductive item :=
  | IStr (s : str)
  | IDict (decode : str)
  | IOther (repr : str).

Inductive decoded :=
  | DNone
  | DStr (s : str)
  | DDict (values : list (option str))
  | DIter (items : list item)
  | DOther (repr : str).

Section Entry.

Context {Enc Dec : Type}.

(** What [_load_resources] of the VietASR module keeps per directory. *)
Record VietResources := {
  v_model : handle;
  v_fbank : handle;
  v_device : handle;
  v_tokens : list str
}.

(** What [_load_resources] of the ChunkFormer module keeps. *)
Record ChunkResources := {
  c_model : handle;
  c_device : handle
}.

(** Everything outside this package: installed libraries, the file system
    and the neural models.  The answer of a call may depend on all calls
    made before it, so each takes the trace so far. *)
Record externals := {
  decode_meta : str -> str;
  absolute : str -> str;
  url_path : str -> result str;
  py_int : str -> option Z;
  list_capacity : positive;
  vosk_installed : bool;
  transformers_installed : bool;
  torch_installed : bool;
  torch_rnn_installed : bool;
  kaldifeat_installed : bool;
  chunkformer_installed : bool;
  huggingface_hub_installed : bool;
  is_dir : list event -> str -> bool;
  make_dir : list event -> str -> result unit;
  path_exists : list event -> str -> bool;
  mkstemp : list event -> str;
  write_wav : list event -> str -> bytes -> result unit;
  token_file_lines : list event -> str -> result (list str);
  snapshot_download : list event -> str -> str -> result unit;
  vosk_load : list event -> str -> result handle;
  whisper_load : list event -> str -> result handle;
  torchscript_load : list event -> str -> result handle;
  chunkformer_load : list event -> str -> result handle;
  select_device : list event -> handle;
  new_fbank : list event -> handle;
  accept_waveform : list event -> bytes -> result bool;
  recognizer_result : list event -> result (option str);
  recognizer_final_result : list event -> result (option str);
  whisper_pipeline : list event -> handle -> bytes -> result (option str);
  encoder : list event -> VietResources -> bytes -> result (@EncoderOut Enc);
  model_blank_id : handle -> Z;
  model_context_size : handle -> nat;
  model_decoder : handle -> list (list Z) -> list Dec;
  model_joiner_argmax : handle -> list Enc -> list Dec -> list Z;
  endless_decode : list event -> handle -> str -> result decoded
}.

(** The module-level dictionaries, the scratch files on disk and the trace
    of external calls. *)
Record world := {
  _VOSK_MODELS : gmap str handle;
  _WHISPER_MODELS : gmap str handle;
  vietasr_RESOURCES : gmap str VietResources;
  chunkformer_RESOURCES : gmap str ChunkResources;
  scratch_files : gset str;
  trace : list event
}.

Definition M (A : Type) : Type := world -> result A * world.

Definition ret {A} (a : A) : M A := fun w => (Ok a, w).

Definition bind {A B} (m : M A) (k : A -> M B) : M B :=
  fun w =>
    match m w with
    | (Ok a, w') => k a w'
    | (Raise e, w') => (Raise e, w')
    end.

Definition raise {A} (e : exception) : M A := fun w => (Raise e, w).

(** A computation that does not touch the state. *)
Definition lift {A} (r : result A) : M A := fun w => (r, w).

Local Notation "x <- m ;; k" := (bind m (fun x => k))
  (at level 100, m at next level, right associativity).
Local Notation "m ;;; k" := (bind m (fun _ => k))
  (at level 100, right associativity).

(** [try: body except Exception as exc: handler(exc)] *)
Definition try_except {A} (body : M A) (handler : exception -> M A) : M A :=
  fun w =>
    match body w with
    | (Ok a, w') => (Ok a, w')
    | (Raise e, w') => if is_Exception e then handler e w' else (Raise e, w')
    end.

(** [try: body finally: cleanup] *)
Definition try_finally {A} (body : M A) (cleanup : M unit) : M A :=
  fun w =>
    match body w with
    | (r, w') =>
        match cleanup w' with
        | (Ok _, w'') => (r, w'')
        | (Raise e, w'') => (Raise e, w'')
        end
    end.

Definition with_trace (w : world) (t : list event) : world :=
  {| _VOSK_MODELS := _VOSK_MODELS w;
     _WHISPER_MODELS := _WHISPER_MODELS w;
     vietasr_RESOURCES := vietasr_RESOURCES w;
     chunkformer_RESOURCES := chunkformer_RESOURCES w;
     scratch_files := scratch_files w;
     trace := t |}.

(** An external call: the event is recorded and the answer is the one the
    outside world gives after the calls made so far. *)
Definition call {A} (ev : event) (answer : list event -> result A) : M A :=
  fun w => (answer (trace w), with_trace w (trace w ++ [ev])).

Definition call_total {A} (ev : event) (answer : list event -> A) : M A :=
  call ev (fun t => Ok (answer t)).

Definition read {A} (f : world -> A) : M A := fun w => (Ok (f w), w).

Definition update (f : world -> world) : M unit := fun w => (Ok tt, f w).

Variable ext : externals.

(** *** [post_process.py] *)

Definition finalize_transcript (model : Model) (text : str) : str :=
  let normalized := Py.strip text in
  if bool_decide (normalized = []) then []
  else
    let normalized :=
      if bool_decide (language_family model = u"vi")
      then ViNormalize.normalize_vietnamese_transcript normalized
      else normalized in
    decode_meta ext normalized.

(** *** Collecting the audio stream *)

(** [async for chunk in audio_stream: if chunk: audio_bytes.extend(chunk)] *)
Fixpoint collect (audio_stream : list bytes) (audio_bytes : bytes) : bytes :=
  match audio_stream with
  | [] => audio_bytes
  | chunk :: rest =>
      match chunk with
      | [] => collect rest audio_bytes
      | _ => collect rest (audio_bytes ++ chunk)
      end
  end.

(** *** [transcribe_vosk.py] *)

Definition set_vosk (k : str) (v : handle) (w : world) : world :=
  {| _VOSK_MODELS := <[k := v]> (_VOSK_MODELS w);
     _WHISPER_MODELS := _WHISPER_MODELS w;
     vietasr_RESOURCES := vietasr_RESOURCES w;
     chunkformer_RESOURCES := chunkformer_RESOURCES w;
     scratch_files := scratch_files w;
     trace := trace w |}.

(** The [async for] loop that feeds the recognizer. *)
Fixpoint vosk_feed (audio_stream : list bytes) (recognized_fragments : list str)
    : M (list str) :=
  match audio_stream with
  | [] => ret recognized_fragments
  | chunk :: rest =>
      match chunk with
      | [] => vosk_feed rest recognized_fragments
      | _ =>
          accepted <- call (AcceptWaveform chunk) (fun t => accept_waveform ext t chunk) ;;
          if accepted : bool then
            result <- call RecognizerResult (recognizer_result ext) ;;
            let text := Py.strip (default [] result) in
            match text with
            | [] => vosk_feed rest recognized_fragments
            | _ => vosk_feed rest (recognized_fragments ++ [text])
            end
          else vosk_feed rest recognized_fragments
      end
  end.

(** The tail of [transcribe_vosk], from the collected fragments on. *)
Definition vosk_finish (model : Model) (recognized_fragments : list str) : str :=
  match recognized_fragments with
  | [] => []
  | _ =>
      let text := Py.join (u" ") recognized_fragments in
      let text := casing_func model text in
      decode_meta ext text
  end.

(** The first part of [transcribe_vosk]: the import guard, the directory
    check and the lookup in (or the load into) [_VOSK_MODELS]. *)
Definition vosk_model_for (model : Model) (settings : Settings) : M handle :=
  if negb (vosk_installed ext) then raise (TranscribingError MissingDependency)
  else
    let model_dir := absolute ext (path_join (models_dir settings) (id model)) in
    exists_ <- call_total (IsDir model_dir) (fun t => is_dir ext t model_dir) ;;
    if negb exists_ then raise (TranscribingError (MissingDirectory model_dir))
    else
      cached <- read (fun w => _VOSK_MODELS w !! model_dir) ;;
      match cached with
      | Some m => ret m
      | None =>
          m <- call (LoadVosk model_dir) (fun t => vosk_load ext t model_dir) ;;
          update (set_vosk model_dir m) ;;;
          ret m
      end.

Definition transcribe_vosk (model : Model) (settings : Settings)
    (audio_stream : list bytes) : M str :=
  vosk_model <- vosk_model_for model settings ;;
  call_total (NewRecognizer vosk_model) (fun _ => tt) ;;;
  recognized_fragments <- vosk_feed audio_stream [] ;;
  final_result <- call RecognizerFinalResult (recognizer_final_result ext) ;;
  let final_text := Py.strip (default [] final_result) in
  let recognized_fragments :=
    match final_text with
    | [] => recognized_fragments
    | _ => recognized_fragments ++ [final_text]
    end in
  ret (vosk_finish model recognized_fragments).

(** *** [transcribe_whisper.py] *)

Definition set_whisper (k : str) (v : handle) (w : world) : world :=
  {| _VOSK_MODELS := _VOSK_MODELS w;
     _WHISPER_MODELS := <[k := v]> (_WHISPER_MODELS w);
     vietasr_RESOURCES := vietasr_RESOURCES w;
     chunkformer_RESOURCES := chunkformer_RESOURCES w;
     scratch_files := scratch_files w;
     trace := trace w |}.

Definition whisper_model_id (model : Model) : str :=
  if match url model with
     | Some url_ => negb (bool_decide (url_ = [])) && Py.contains (u"huggingface.co") url_
     | None => false
     end
  then
    let parts := Py.split_on 47 (Py.rstrip_char 47 (default [] (url model))) in
    if (2 <=? length parts)%nat
    then default [] (last (take (length parts - 1) parts)) ++ u"/" ++ default [] (last parts)
    else id model
  else if bool_decide (id model = u"phowhisper-tiny") then u"vinai/PhoWhisper-tiny"
  else if bool_decide (id model = u"phowhisper-base") then u"vinai/PhoWhisper-base"
  else if bool_decide (id model = u"phowhisper-small") then u"vinai/PhoWhisper-small"
  else if bool_decide (id model = u"phowhisper-medium") then u"vinai/PhoWhisper-medium"
  else if bool_decide (id model = u"phowhisper-large-v2") then u"vinai/PhoWhisper-large-v2"
  else id model.

(** The tail of [transcribe_whisper], from the recognized text on. *)
Definition whisper_finish (model : Model) (text : str) : str :=
  match text with
  | [] => []
  | _ =>
      let text := casing_func model text in
      let normalized := Py.rstrip_char 46 text in
      finalize_transcript model normalized
  end.

(** The first part of [transcribe_whisper]: the import guard and the
    lookup in (or the load into) [_WHISPER_MODELS]. *)
Definition whisper_transcriber_for (model : Model) : M handle :=
  if negb (transformers_installed ext) then raise (TranscribingError MissingDependency)
  else
    let whisper_model_id := whisper_model_id model in
    cached <- read (fun w => _WHISPER_MODELS w !! whisper_model_id) ;;
    match cached with
    | Some _ => ret tt
    | None =>
        try_except
          (transcriber <- call (LoadWhisper whisper_model_id)
                            (fun t => whisper_load ext t whisper_model_id) ;;
           update (set_whisper whisper_model_id transcriber))
          (fun exc => raise (TranscribingError (LoadFailed (code_of exc))))
    end ;;;
    looked_up <- read (fun w => _WHISPER_MODELS w !! whisper_model_id) ;;
    match looked_up with
    | None => raise KeyError
    | Some transcriber => ret transcriber
    end.

Definition transcribe_whisper (model : Model) (settings : Settings)
    (audio_stream : list bytes) : M str :=
  transcriber <- whisper_transcriber_for model ;;
  let audio_bytes := collect audio_stream [] in
  match audio_bytes with
  | [] => ret []
  | _ =>
      (* array.array("h", audio_bytes) needs whole 16-bit samples *)
      if Nat.odd (length audio_bytes) then raise ValueError
      else
        text <-
          try_except
            (result <- call (WhisperPipeline audio_bytes)
                         (fun t => whisper_pipeline ext t transcriber audio_bytes) ;;
             ret (Py.strip (default [] result)))
            (fun exc => raise (TranscribingError (DecodeFailed (code_of exc)))) ;;
        ret (whisper_finish model text)
  end.

(** *** [transcribe_vietasr.py] *)

Definition _CHECKPOINT_NAME : str := u"cpu_jit.pt".
Definition _TOKENS_NAME : str := u"tokens.txt".

Definition set_vietasr (k : str) (v : VietResources) (w : world) : world :=
  {| _VOSK_MODELS := _VOSK_MODELS w;
     _WHISPER_MODELS := _WHISPER_MODELS w;
     vietasr_RESOURCES := <[k := v]> (vietasr_RESOURCES w);
     chunkformer_RESOURCES := chunkformer_RESOURCES w;
     scratch_files := scratch_files w;
     trace := trace w |}.

Definition vietasr_require_dependencies : M unit :=
  if negb (torch_installed ext) then raise (TranscribingError MissingDependency)
  else if negb (torch_rnn_installed ext) then raise (TranscribingError MissingDependency)
  else if negb (kaldifeat_installed ext) then raise (TranscribingError MissingDependency)
  else ret tt.

Definition vietasr_load_resources (model : Model) (settings : Settings)
    : M VietResources :=
  let model_dir := model_data_dir settings (id model) in
  call (Mkdir model_dir) (fun t => make_dir ext t model_dir) ;;;
  cached <- read (fun w => vietasr_RESOURCES w !! model_dir) ;;
  match cached with
  | Some cached => ret cached
  | None =>
      let checkpoint_path := path_join model_dir _CHECKPOINT_NAME in
      let tokens_path := path_join model_dir _TOKENS_NAME in
      checkpoint_exists <- call_total (Exists checkpoint_path)
                             (fun t => path_exists ext t checkpoint_path) ;;
      let missing_files := if checkpoint_exists : bool then [] else [checkpoint_path] in
      tokens_exists <- call_total (Exists tokens_path)
                         (fun t => path_exists ext t tokens_path) ;;
      let missing_files :=
        if tokens_exists : bool then missing_files else missing_files ++ [tokens_path] in
      match missing_files with
      | _ :: _ => raise (TranscribingError (MissingAssets missing_files))
      | [] =>
          device <- read (fun w => select_device ext (trace w)) ;;
          scripted_model <- call (LoadTorchScript checkpoint_path)
                              (fun t => torchscript_load ext t checkpoint_path) ;;
          fbank <- read (fun w => new_fbank ext (trace w)) ;;
          lines <- call (ReadTokenFile tokens_path)
                     (fun t => token_file_lines ext t tokens_path) ;;
          tokens <- lift (_read_tokens (py_int ext) (list_capacity ext) lines) ;;
          match tokens with
          | [] => raise (TranscribingError (NoTokensLoaded tokens_path))
          | _ =>
              let resources :=
                {| v_model := scripted_model; v_fbank := fbank;
                   v_device := device; v_tokens := tokens |} in
              update (set_vietasr model_dir resources) ;;;
              ret resources
          end
      end
  end.

(** The tail of [transcribe_vietasr], from the hypotheses on. *)
Definition vietasr_finish (model : Model) (tokens : list str)
    (hypotheses : list (list Z)) : str :=
  match hypotheses with
  | [] => []
  | token_ids :: _ =>
      let text := _tokens_to_text token_ids tokens in
      match text with
      | [] => []
      | _ =>
          let text := casing_func model text in
          let text := Py.strip text in
          match text with
          | [] => []
          | _ => finalize_transcript model text
          end
      end
  end.

Definition transcribe_vietasr (model : Model) (settings : Settings)
    (audio_stream : list bytes) : M str :=
  vietasr_require_dependencies ;;;
  resources <- vietasr_load_resources model settings ;;
  let audio_bytes := collect audio_stream [] in
  match audio_bytes with
  | [] => ret []
  | _ =>
      (* _bytes_to_tensor: np.frombuffer needs whole 16-bit samples *)
      if Nat.odd (length audio_bytes) then raise ValueError
      else if (length audio_bytes / 2 =? 0)%nat then ret []
      else
        (* fbank, pad_sequence and model.encoder *)
        encoder_out <- call (Encoder audio_bytes)
                         (fun t => encoder ext t resources audio_bytes) ;;
        let m := v_model resources in
        hypotheses <- lift (_greedy_search (model_blank_id ext m) (model_context_size ext m)
                              (model_decoder ext m) (model_joiner_argmax ext m)
                              encoder_out) ;;
        ret (vietasr_finish model (v_tokens resources) hypotheses)
  end.

(** *** [transcribe_chunkformer.py] *)

Definition set_chunkformer (k : str) (v : ChunkResources) (w : world) : world :=
  {| _VOSK_MODELS := _VOSK_MODELS w;
     _WHISPER_MODELS := _WHISPER_MODELS w;
     vietasr_RESOURCES := vietasr_RESOURCES w;
     chunkformer_RESOURCES := <[k := v]> (chunkformer_RESOURCES w);
     scratch_files := scratch_files w;
     trace := trace w |}.

Definition set_scratch (f : gset str -> gset str) (w : world) : world :=
  {| _VOSK_MODELS := _VOSK_MODELS w;
     _WHISPER_MODELS := _WHISPER_MODELS w;
     vietasr_RESOURCES := vietasr_RESOURCES w;
     chunkformer_RESOURCES := chunkformer_RESOURCES w;
     scratch_files := f (scratch_files w);
     trace := trace w |}.

Definition chunkformer_require_dependencies : M unit :=
  if negb (chunkformer_installed ext) then raise (TranscribingError MissingDependency)
  else if negb (huggingface_hub_installed ext) then raise (TranscribingError MissingDependency)
  else if negb (torch_installed ext) then raise (TranscribingError MissingDependency)
  else ret tt.

(** [urlparse] raises [ValueError] on a URL it cannot parse. *)
Definition _extract_repo_id (model : Model) : result (option str) :=
  match url model with
  | Some url_ =>
      if negb (bool_decide (url_ = [])) && Py.contains (u"huggingface.co") url_ then
        match url_path ext url_ with
        | Raise e => Raise e
        | Ok path =>
            let parts := filter (fun part => part <> []) (Py.split_on 47 path) in
            match parts with
            | p0 :: p1 :: _ => Ok (Some (p0 ++ u"/" ++ p1))
            | _ => Ok None
            end
        end
      else Ok None
  | None => Ok None
  end.

(** [all((model_dir / name).exists() for name in expected_files)] *)
Fixpoint all_exist (model_dir : str) (names : list str) : M bool :=
  match names with
  | [] => ret true
  | name :: rest =>
      let p := path_join model_dir name in
      there <- call_total (Exists p) (fun t => path_exists ext t p) ;;
      if there : bool then all_exist model_dir rest else ret false
  end.

Definition _ensure_model_files (model : Model) (model_dir : str) : M unit :=
  let expected_files := [u"config.yaml"; u"pytorch_model.pt"; u"vocab.txt"] in
  present <- all_exist model_dir expected_files ;;
  if present : bool then ret tt
  else
    repo_id <- lift (_extract_repo_id model) ;;
    match repo_id with
    | None => raise (TranscribingError NoRepoId)
    | Some repo_id =>
        try_except
          (call (SnapshotDownload repo_id model_dir)
             (fun t => snapshot_download ext t repo_id model_dir))
          (fun exc => raise (TranscribingError (DownloadFailed (code_of exc))))
    end.

Definition chunkformer_load_resources (model : Model) (settings : Settings)
    : M ChunkResources :=
  let model_dir := model_data_dir settings (id model) in
  call (Mkdir model_dir) (fun t => make_dir ext t model_dir) ;;;
  cached <- read (fun w => chunkformer_RESOURCES w !! model_dir) ;;
  match cached with
  | Some cached => ret cached
  | None =>
      _ensure_model_files model model_dir ;;;
      chunkformer_model <-
        try_except
          (call (LoadChunkFormer model_dir) (fun t => chunkformer_load ext t model_dir))
          (fun exc => raise (TranscribingError (LoadFailed (code_of exc)))) ;;
      device <- read (fun w => select_device ext (trace w)) ;;
      let resources := {| c_model := chunkformer_model; c_device := device |} in
      update (set_chunkformer model_dir resources) ;;;
      ret resources
  end.

Definition _write_temp_wav (audio_bytes : bytes) : M str :=
  path <- read (fun w => mkstemp ext (trace w)) ;;
  call_total (Mkstemp path) (fun _ => tt) ;;;
  update (set_scratch (fun files => {[ path ]} ∪ files)) ;;;
  call (WriteWav path) (fun t => write_wav ext t path audio_bytes) ;;;
  ret path.

(** [temp_path.unlink(missing_ok=True)] *)
Definition unlink (path : str) : M unit :=
  call_total (Unlink path) (fun _ => tt) ;;;
  update (set_scratch (fun files => files ∖ {[ path ]})).

Definition piece_of (it : item) : str :=
  match it with
  | IStr s => Py.strip s
  | IDict s => Py.strip s
  | IOther s => Py.strip s
  end.

Definition _decode_to_text (d : decoded) : str :=
  match d with
  | DNone => []
  | DStr s => Py.strip s
  | DDict values =>
      let pieces :=
        omap (fun v =>
                match v with
                | Some s => if bool_decide (Py.strip s = []) then None else Some (Py.strip s)
                | None => None
                end) values in
      Py.strip (Py.join (u" ") pieces)
  | DIter items =>
      let segments := filter (fun piece => piece <> []) (List.map piece_of items) in
      Py.strip (Py.join (u" ") segments)
  | DOther s => Py.strip s
  end.

(** The tail of [transcribe_chunkformer], from the decoded object on. *)
Definition chunkformer_finish (model : Model) (d : decoded) : str :=
  let text := _decode_to_text d in
  match text with
  | [] => []
  | _ =>
      let text := Py.strip (casing_func model text) in
      match text with
      | [] => []
      | _ => finalize_transcript model text
      end
  end.

Definition transcribe_chunkformer (model : Model) (settings : Settings)
    (audio_stream : list bytes) : M str :=
  chunkformer_require_dependencies ;;;
  resources <- chunkformer_load_resources model settings ;;
  let audio_bytes := collect audio_stream [] in
  match audio_bytes with
  | [] => ret []
  | _ =>
      temp_path <- _write_temp_wav audio_bytes ;;
      d <- try_finally
             (try_except
                (call (EndlessDecode temp_path)
                   (fun t => endless_decode ext t (c_model resources) temp_path))
                (fun exc => raise (TranscribingError (DecodeFailed (code_of exc)))))
             (unlink temp_path) ;;
      ret (chunkformer_finish model d)
  end.

End Entry.

Arguments externals : clear implicits.
Arguments world : clear implicits.

End Backends.

(** * Vocabulary of the properties

    The predicates, specification-side functions and concrete scenarios
    that the statements below are written with. *)

(** ** Tokens, patterns and rewritings *)

Module Words.

Import Py ViNormalize.

(** A token of [str.split()]: not empty and free of whitespace. *)
Definition is_token (t : str) : Prop :=
  t <> [] /\ Forall (fun c => isspace c = false) t.

(** The first character of a number word is a letter, that of a decimal
    numeral is a digit or a sign. *)
Definition starts_with_letter (t : str) : bool :=
  match t with
  | c :: _ => (97 <=? c)%N
  | [] => false
  end.

(** The loop on the remaining tokens, with exactly the fuel it needs. *)
Definition norm (prev : str) (rest : list str) : list str :=
  normalize_loop (length rest) prev rest.

(** The words the number normaliser looks for. *)
Definition special (t : str) : bool :=
  mem t _NUMBER_TOKENS || mem t _NUMBER_FOLLOWERS.

(** The [should_convert] decision as a function of the token after the
    run, if there is one. *)
Definition convert_before (next : option str) (number_value : option Z) : bool :=
  let next_token := default [] next in
  if mem next_token _NUMBER_FOLLOWERS then true
  else if bool_decide (next_token = u"rưỡi") then true
  else if bool_decide (next = None)
          && match number_value with
             | Some v => negb (v =? 0) && (v >=? 10)
             | None => false
             end then true
  else false.

Definition is_digit (c : N) : Prop := (48 <= c <= 57)%N.

(** Two strings agree when one is a prefix of the other. *)
Fixpoint agree (a b : str) : bool :=
  match a, b with
  | x :: a', y :: b' => (x =? y)%N && agree a' b'
  | _, _ => true
  end.

(** [new] cannot take part in an occurrence of [p]: no end of [p] agrees
    with [new], and [p] agrees with no end of [new]. *)
Definition clash_free (p new : str) : bool :=
  negb (bool_decide (new = []))
  && forallb (fun i => negb (agree (drop i p) new)) (seq 0 (length p))
  && forallb (fun j => negb (agree p (drop j new))) (seq 0 (length new)).

Definition no_clash (p new : str) : Prop :=
  new <> []
  /\ (forall i, (i < length p)%nat -> agree (drop i p) new = false)
  /\ (forall j, (j < length new)%nat -> agree p (drop j new) = false).

(** [o] is [s] with some substrings replaced; where a character is kept,
    [p] does not start there. *)
Inductive rewrites (p : str) (ok : str -> str -> Prop) : str -> str -> Prop :=
  | rw_nil : rewrites p ok [] []
  | rw_keep c s o :
      startswith p (c :: s) = false -> rewrites p ok s o ->
      rewrites p ok (c :: s) (c :: o)
  | rw_subst old new s o :
      ok old new -> rewrites p ok s o -> rewrites p ok (old ++ s) (new ++ o).

Definition normalized (s : str) : Prop := join (u" ") (split s) = s.

(** The characters after a token character ([in_tok]) or after a space:
    every whitespace character is a single space between two tokens. *)
Fixpoint spaced (in_tok : bool) (s : str) : bool :=
  match s with
  | [] => in_tok
  | c :: r =>
      if isspace c then in_tok && (c =? 32)%N && spaced false r
      else spaced true r
  end.

(** What follows the first token in a joined text. *)
Definition tail_join (rest : list str) : str :=
  match rest with
  | [] => []
  | _ => 32%N :: join [32%N] rest
  end.

(** Replaced by a numeral. *)
Definition by_numeral (old new : str) : Prop := new <> [] /\ Forall is_digit new.

Definition apply_all (subs : list (str * str)) (text : str) : str :=
  fold_left (fun acc on => replace on.1 on.2 acc) subs text.

(** The literal substitutions of [normalize_vietnamese_transcript] and of
    [normalize_cancellation_terms], in the order they are made. *)
Definition substitutions : list (str * str) :=
  [ (u"tivi", u"tv"); (u"ti vi", u"tv"); (u"ti-vi", u"tv"); (u"ti. vi", u"tv");
    (u"ga ra", u"gara") ].

Definition cancellations : list (str * str) :=
  [ (u"hủy", u"huỷ"); (u"Hủy", u"Huỷ") ].

End Words.

(** ** The token table *)

Module TableSpec.

Import Py.

Section Assignment.

Variable py_int : str -> option Z.

(** What a line of the token file assigns, in the words of the
    specification: nothing when the line is blank, a comment, has fewer than
    two fields, or ends in a field that is not an integer or is negative;
    otherwise its first field to the index given by its last field. *)
Definition assignment (line : str) : option (nat * str) :=
  let fields := split line in
  match fields with
  | [] => None
  | first :: _ =>
      if startswith (u"#") first then None
      else if (length fields <? 2)%nat then None
      else
        match py_int (default [] (last fields)) with
        | None => None
        | Some index => if index <? 0 then None else Some (Z.to_nat index, first)
        end
  end.

End Assignment.



(** The assignment a line makes, on the table built so far. *)
Definition assign (tokens : list str) (a : nat * str) : list str :=
  <[a.1 := a.2]> (tokens ++ replicate (S a.1 - length tokens) []).

(** The first assignment that asks for more padding than can be made at
    once, read on a table of [size] entries: more than [sys.maxsize]
    entries is an [OverflowError], more than the machine allocates a
    [MemoryError]. *)
Fixpoint too_large (capacity : positive) (size : nat) (assigned : list (nat * str))
    : option exception :=
  match assigned with
  | [] => None
  | a :: rest =>
      let padding := Z.of_nat (S a.1) - Z.of_nat size in
      if padding >? VietASR.sys_maxsize then Some OverflowError
      else if padding >? Z.pos capacity then Some MemoryError
      else too_large capacity (Nat.max size (S a.1)) rest
  end.

(** [int] on a run of decimal digits, and on nothing else. *)
Definition decimal (s : str) : option Z :=
  match s with
  | [] => None
  | _ =>
      fold_left
        (fun acc c =>
           match acc with
           | Some n =>
               if ((48 <=? c) && (c <=? 57))%N then Some (10 * n + Z.of_N (c - 48)) else None
           | None => None
           end)
        s (Some 0)
  end.

End TableSpec.

(** ** The greedy search *)

Module SearchSpec.

Import VietASR.

Section Emission.

Variable blank_id : Z.

(** What one arg-max id adds to a hypothesis. *)
Definition emission (top : option Z) : list Z :=
  match top with
  | Some token_id => if bool_decide (token_id <> blank_id) then [token_id] else []
  | None => []
  end.

End Emission.

(** A one-frame-per-step utterance of three frames, with a decoder that
    hands the context through and a joiner that answers 7 on the context of
    two blanks and blank otherwise. *)
Definition three_frames : @EncoderOut unit :=
  {| enc_dim := 3; enc_size0 := 1;
     packed := {| data := [tt; tt; tt]; batch_sizes := [1; 1; 1]%nat;
                  unsorted_indices := [0%nat] |} |}.

Definition context_decoder (contexts : list (list Z)) : list (list Z) := contexts.

Definition once_joiner (es : list unit) (ds : list (list Z)) : list Z :=
  match ds with
  | [] => []
  | d :: _ => if bool_decide (d = [0; 0]) then [7] else [0]
  end.

(** Two utterances of one frame each, and a joiner that answers 7 for the
    first and blank for the second. *)
Definition two_utterances : @EncoderOut unit :=
  {| enc_dim := 3; enc_size0 := 2;
     packed := {| data := [tt; tt]; batch_sizes := [2]%nat;
                  unsorted_indices := [0; 1]%nat |} |}.

Definition first_only_joiner (es : list unit) (ds : list (list Z)) : list Z :=
  match ds with
  | [_; _] => [7; 0]
  | _ => []
  end.

(** What the search asks of an encoder output: rank 3, batch sizes that
    start with the batch size and never exceed it, and a permutation of the
    batch. *)
Definition well_formed {Enc} (encoder_out : @EncoderOut Enc) : Prop :=
  enc_dim encoder_out = 3%nat
  /\ head (batch_sizes (packed encoder_out)) = Some (enc_size0 encoder_out)
  /\ Forall (fun current_batch => (current_batch <= enc_size0 encoder_out)%nat)
            (batch_sizes (packed encoder_out))
  /\ (enc_size0 encoder_out <= length (unsorted_indices (packed encoder_out)))%nat
  /\ Forall (fun k => (k < enc_size0 encoder_out)%nat)
            (unsorted_indices (packed encoder_out)).

End SearchSpec.

(** ** Outside worlds *)

Module Worlds.

Import Py VietASR Backends.

(** An outside world in which every library is installed, every file is
    present and every call succeeds; the recognisers hear [heard]. *)
Definition plain_world (heard : option str) : externals unit unit :=
  {| decode_meta := fun text => text;
     absolute := fun p => p;
     url_path := fun url_ => Ok url_;
     py_int := fun _ => None;
     list_capacity := 1000000%positive;
     vosk_installed := true;
     transformers_installed := true;
     torch_installed := true;
     torch_rnn_installed := true;
     kaldifeat_installed := true;
     chunkformer_installed := true;
     huggingface_hub_installed := true;
     is_dir := fun _ _ => true;
     make_dir := fun _ _ => Ok tt;
     path_exists := fun _ _ => true;
     mkstemp := fun _ => u"/tmp/tmp0.wav";
     write_wav := fun _ _ _ => Ok tt;
     token_file_lines := fun _ _ => Ok [];
     snapshot_download := fun _ _ _ => Ok tt;
     vosk_load := fun _ _ => Ok 1%N;
     whisper_load := fun _ _ => Ok 2%N;
     torchscript_load := fun _ _ => Ok 3%N;
     chunkformer_load := fun _ _ => Ok 4%N;
     select_device := fun _ => 0%N;
     new_fbank := fun _ => 5%N;
     accept_waveform := fun _ _ => Ok false;
     recognizer_result := fun _ => Ok None;
     recognizer_final_result := fun _ => Ok heard;
     whisper_pipeline := fun _ _ _ => Ok heard;
     encoder := fun _ _ _ =>
       Ok {| enc_dim := 3; enc_size0 := 1;
             packed := {| data := []; batch_sizes := []; unsorted_indices := [0%nat] |} |};
     model_blank_id := fun _ => 0;
     model_context_size := fun _ => 2%nat;
     model_decoder := fun _ _ => [];
     model_joiner_argmax := fun _ _ _ => [];
     endless_decode := fun _ _ _ => Ok (match heard with Some s => DStr s | None => DNone end)
  |}.

(** The same world on a machine where the model files were never
    installed. *)
Definition bare_world : externals unit unit :=
  {| decode_meta := fun text => text;
     absolute := fun p => p;
     url_path := fun url_ => Ok url_;
     py_int := fun _ => None;
     list_capacity := 1000000%positive;
     vosk_installed := true;
     transformers_installed := true;
     torch_installed := true;
     torch_rnn_installed := true;
     kaldifeat_installed := true;
     chunkformer_installed := true;
     huggingface_hub_installed := true;
     is_dir := fun _ _ => false;
     make_dir := fun _ _ => Ok tt;
     path_exists := fun _ _ => false;
     mkstemp := fun _ => u"/tmp/tmp0.wav";
     write_wav := fun _ _ _ => Ok tt;
     token_file_lines := fun _ _ => Ok [];
     snapshot_download := fun _ _ _ => Raise (LibraryError 404);
     vosk_load := fun _ _ => Raise (LibraryError 1);
     whisper_load := fun _ _ => Raise (LibraryError 2);
     torchscript_load := fun _ _ => Raise (LibraryError 3);
     chunkformer_load := fun _ _ => Raise (LibraryError 4);
     select_device := fun _ => 0%N;
     new_fbank := fun _ => 5%N;
     accept_waveform := fun _ _ => Ok false;
     recognizer_result := fun _ => Ok None;
     recognizer_final_result := fun _ => Ok None;
     whisper_pipeline := fun _ _ _ => Ok None;
     encoder := fun _ _ _ => Raise (LibraryError 6);
     model_blank_id := fun _ => 0;
     model_context_size := fun _ => 2%nat;
     model_decoder := fun _ _ => [];
     model_joiner_argmax := fun _ _ _ => [];
     endless_decode := fun _ _ _ => Raise (LibraryError 7)
  |}.

(** An outside world like [plain_world] in which [endless_decode] fails. *)
Definition failing_decode : externals unit unit :=
  {| decode_meta := decode_meta (plain_world None);
     absolute := absolute (plain_world None);
     url_path := url_path (plain_world None);
     py_int := py_int (plain_world None);
     list_capacity := list_capacity (plain_world None);
     vosk_installed := true;
     transformers_installed := true;
     torch_installed := true;
     torch_rnn_installed := true;
     kaldifeat_installed := true;
     chunkformer_installed := true;
     huggingface_hub_installed := true;
     is_dir := is_dir (plain_world None);
     make_dir := make_dir (plain_world None);
     path_exists := path_exists (plain_world None);
     mkstemp := mkstemp (plain_world None);
     write_wav := write_wav (plain_world None);
     token_file_lines := token_file_lines (plain_world None);
     snapshot_download := snapshot_download (plain_world None);
     vosk_load := vosk_load (plain_world None);
     whisper_load := whisper_load (plain_world None);
     torchscript_load := torchscript_load (plain_world None);
     chunkformer_load := chunkformer_load (plain_world None);
     select_device := select_device (plain_world None);
     new_fbank := new_fbank (plain_world None);
     accept_waveform := accept_waveform (plain_world None);
     recognizer_result := recognizer_result (plain_world None);
     recognizer_final_result := recognizer_final_result (plain_world None);
     whisper_pipeline := whisper_pipeline (plain_world None);
     encoder := encoder (plain_world None);
     model_blank_id := model_blank_id (plain_world None);
     model_context_size := model_context_size (plain_world None);
     model_decoder := model_decoder (plain_world None);
     model_joiner_argmax := model_joiner_argmax (plain_world None);
     endless_decode := fun _ _ _ => Raise (LibraryError 7)
  |}.

(** An outside world in which every backend hears "bật tivi": the Vosk
    recogniser in two utterances, the Whisper pipeline with periods at the
    end, the transducer as the tokens 1 and 2 of its table, one per
    frame. *)
Definition speaking_joiner (es : list unit) (ds : list (list Z)) : list Z :=
  match ds with
  | [] => []
  | d :: _ =>
      if bool_decide (d = [0; 0]) then [1]
      else if bool_decide (d = [0; 1]) then [2] else [0]
  end.

Definition speaking_world : externals unit (list Z) :=
  {| decode_meta := fun text => text;
     absolute := fun p => p;
     url_path := fun url_ => Ok url_;
     py_int := TableSpec.decimal;
     list_capacity := 1000000%positive;
     vosk_installed := true;
     transformers_installed := true;
     torch_installed := true;
     torch_rnn_installed := true;
     kaldifeat_installed := true;
     chunkformer_installed := true;
     huggingface_hub_installed := true;
     is_dir := fun _ _ => true;
     make_dir := fun _ _ => Ok tt;
     path_exists := fun _ _ => true;
     mkstemp := fun _ => u"/tmp/tmp0.wav";
     write_wav := fun _ _ _ => Ok tt;
     token_file_lines := fun _ _ => Ok [u"<blk> 0"; u"▁bật 1"; u"▁tivi 2"];
     snapshot_download := fun _ _ _ => Ok tt;
     vosk_load := fun _ _ => Ok 1%N;
     whisper_load := fun _ _ => Ok 2%N;
     torchscript_load := fun _ _ => Ok 3%N;
     chunkformer_load := fun _ _ => Ok 4%N;
     select_device := fun _ => 0%N;
     new_fbank := fun _ => 5%N;
     accept_waveform := fun _ _ => Ok true;
     recognizer_result := fun _ => Ok (Some (u" bật "));
     recognizer_final_result := fun _ => Ok (Some (u"tivi"));
     whisper_pipeline := fun _ _ _ => Ok (Some (u" bật tivi... "));
     encoder := fun _ _ _ => Ok SearchSpec.three_frames;
     model_blank_id := fun _ => 0;
     model_context_size := fun _ => 2%nat;
     model_decoder := fun _ => SearchSpec.context_decoder;
     model_joiner_argmax := fun _ => speaking_joiner;
     endless_decode := fun _ _ _ => Ok (DStr (u" bật tivi "))
  |}.

(** The three files of the ChunkFormer model. *)
Definition chunkformer_files (model_dir : str) : list str :=
  [path_join model_dir (u"config.yaml");
   path_join model_dir (u"pytorch_model.pt");
   path_join model_dir (u"vocab.txt")].

(** A disk that holds the three ChunkFormer files of "/data/vi-model" and
    no other file. *)
Definition three_files_world : externals unit unit :=
  {| decode_meta := decode_meta (plain_world None);
     absolute := absolute (plain_world None);
     url_path := url_path (plain_world None);
     py_int := py_int (plain_world None);
     list_capacity := list_capacity (plain_world None);
     vosk_installed := true;
     transformers_installed := true;
     torch_installed := true;
     torch_rnn_installed := true;
     kaldifeat_installed := true;
     chunkformer_installed := true;
     huggingface_hub_installed := true;
     is_dir := is_dir (plain_world None);
     make_dir := make_dir (plain_world None);
     path_exists := fun _ p => bool_decide (p ∈ chunkformer_files (u"/data/vi-model"));
     mkstemp := mkstemp (plain_world None);
     write_wav := write_wav (plain_world None);
     token_file_lines := token_file_lines (plain_world None);
     snapshot_download := fun _ _ _ => Raise (LibraryError 404);
     vosk_load := vosk_load (plain_world None);
     whisper_load := whisper_load (plain_world None);
     torchscript_load := torchscript_load (plain_world None);
     chunkformer_load := chunkformer_load (plain_world None);
     select_device := select_device (plain_world None);
     new_fbank := new_fbank (plain_world None);
     accept_waveform := accept_waveform (plain_world None);
     recognizer_result := recognizer_result (plain_world None);
     recognizer_final_result := recognizer_final_result (plain_world None);
     whisper_pipeline := whisper_pipeline (plain_world None);
     encoder := encoder (plain_world None);
     model_blank_id := model_blank_id (plain_world None);
     model_context_size := model_context_size (plain_world None);
     model_decoder := model_decoder (plain_world None);
     model_joiner_argmax := model_joiner_argmax (plain_world None);
     endless_decode := endless_decode (plain_world None)
  |}.

(** A Vietnamese model that keeps the casing, its settings, and the state
    of a process that has served no request yet. *)
Definition vi_model : Model :=
  {| id := u"vi-model"; language_family := u"vi";
     casing_func := fun text => text; url := None |}.

Definition some_settings : Settings :=
  {| models_dir := u"/models"; model_data_dir := fun name => u"/data/" ++ name |}.

Definition fresh : world :=
  {| _VOSK_MODELS := ∅; _WHISPER_MODELS := ∅; vietasr_RESOURCES := ∅;
     chunkformer_RESOURCES := ∅; scratch_files := ∅; trace := [] |}.

(** A process that has already loaded the VietASR resources of
    [vi_model]. *)
Definition loaded_resources : VietResources :=
  {| v_model := 3%N; v_fbank := 5%N; v_device := 0%N; v_tokens := [u"<blk>"; u"▁bật"] |}.

Definition warm : world := set_vietasr (u"/data/vi-model") loaded_resources fresh.

End Worlds.

(** ** The order of the finaliser *)

Module Pipelines.

Import Py ViNormalize Backends.

Section Pipeline.

Context {Enc Dec : Type}.
Variable ext : externals Enc Dec.
Variable model : Model.

(** The Vietnamese normaliser, applied if and only if the model's
    [language_family] is "vi". *)
Definition normalize_if_vi (text : str) : str :=
  if bool_decide (language_family model = u"vi")
  then normalize_vietnamese_transcript text
  else text.


(** What the code does with the cased text: surrounding whitespace is
    removed; if nothing remains the result is empty, otherwise the
    normaliser (conditionally) and [decode_meta] follow. *)
Definition trimmed_pipeline (cased : str) : str :=
  let trimmed := strip cased in
  match trimmed with
  | [] => []
  | _ => decode_meta ext (normalize_if_vi trimmed)
  end.

End Pipeline.

End Pipelines.

(** ** Runs and their traces *)

Module Traces.

Import Py Backends.

(** [m] relates the state it starts in to the state it ends in by [R],
    whatever it returns or raises. *)
Definition respects (R : world -> world -> Prop) {A} (m : M A) : Prop :=
  forall w, R w (m w).2.

(** The calls that run a model on audio. *)
Definition is_inference (ev : event) : bool :=
  match ev with
  | AcceptWaveform _ | WhisperPipeline _ | Encoder _ | EndlessDecode _ => true
  | _ => false
  end.

(** From [w] to [w'] the trace only grew, by events that satisfy [P]. *)
Definition grew_by (P : event -> Prop) (w w' : world) : Prop :=
  exists new, trace w' = trace w ++ new /\ Forall P new.

Definition no_inference : world -> world -> Prop :=
  grew_by (fun ev => is_inference ev = false).


Section Resources.

Context {Enc Dec : Type}.
Variable ext : externals Enc Dec.


(** The resource stage of the VietASR and ChunkFormer entry points. *)
Definition vietasr_resources_for (model : Model) (settings : Settings) : M VietResources :=
  bind (vietasr_require_dependencies ext)
       (fun _ => vietasr_load_resources ext model settings).

Definition chunkformer_resources_for (model : Model) (settings : Settings)
    : M ChunkResources :=
  bind (chunkformer_require_dependencies ext)
       (fun _ => chunkformer_load_resources ext model settings).

End Resources.

(** The stated behaviour of an entry point on a stream without audio. *)
Definition silent_on_empty_stream
    (entry : Model -> Settings -> list (list Init.Byte.byte) -> M str) : Prop :=
  forall model settings stream w,
    Forall (eq []) stream ->
    (entry model settings stream w).1 = Ok []
    /\ no_inference w (entry model settings stream w).2.

(** Calls that read or write the file system. *)
Definition is_disk_access (ev : event) : bool :=
  match ev with
  | Mkdir _ | IsDir _ | Exists _ | Mkstemp _ | WriteWav _ | Unlink _
  | ReadTokenFile _ | SnapshotDownload _ _
  | LoadVosk _ | LoadTorchScript _ | LoadChunkFormer _ => true
  | _ => false
  end.

(** Calls that load a model or its assets. *)
Definition is_loader (ev : event) : bool :=
  match ev with
  | LoadVosk _ | LoadWhisper _ | LoadTorchScript _ | LoadChunkFormer _
  | ReadTokenFile _ | SnapshotDownload _ _ => true
  | _ => false
  end.

(** The stated behaviour of a resource-loading call on a cache hit: the
    cached entry comes back, and the call neither loads nor touches the
    disk. *)
Definition hit_touches_nothing {A} (load : M A) (w : world) (cached : A) : Prop :=
  exists w', load w = (Ok cached, w')
             /\ grew_by (fun ev => is_loader ev = false /\ is_disk_access ev = false) w w'.

(** Requests served one after the other by the same process. *)
Fixpoint serve (entry : Model -> Settings -> list (list Init.Byte.byte) -> M str)
    (requests : list (Model * Settings * list (list Init.Byte.byte))) (w : world) : world :=
  match requests with
  | [] => w
  | (model, settings, audio_stream) :: rest =>
      serve entry rest (entry model settings audio_stream w).2
  end.

(** The entry [v] under [key] stays in [cache] and [loader] is not called. *)
Definition kept {V} (cache : world -> gmap str V) (key : str) (v : V) (loader : event)
    (w w' : world) : Prop :=
  cache w !! key = Some v ->
  cache w' !! key = Some v /\ grew_by (fun ev => ev <> loader) w w'.

End Traces.

(** ** More vocabulary: conversions, token files, caches and traces *)

Module Conversions.

Import Py ViNormalize.

(** [converted toks out]: [out] is [toks], in order, except that some runs
    of number words are each replaced by the decimal numeral of the value
    of the run; a replaced run is followed by a unit word, or ends the text
    with a value of at least ten. *)
Inductive converted : list str -> list str -> Prop :=
  | conv_nil : converted [] []
  | conv_keep t rest out :
      converted rest out -> converted (t :: rest) (t :: out)
  | conv_run run v rest out :
      run <> [] ->
      Forall (fun w => mem w _NUMBER_TOKENS = true) run ->
      _words_to_number run = Some v ->
      0 <= v ->
      (exists t, head rest = Some t /\ mem t _NUMBER_FOLLOWERS = true)
      \/ (rest = [] /\ 10 <= v) ->
      converted rest out ->
      converted (run ++ rest) (str_of_int v :: out).

End Conversions.

Module TableFile.

Import Py.

(** A token file as [f"{token} {index}\n"] writes it, one line per token,
    the indices counting up from [first]. *)
Fixpoint table_lines (first : nat) (tokens : list str) : list str :=
  match tokens with
  | [] => []
  | token :: rest =>
      (token ++ u" " ++ str_of_int (Z.of_nat first) ++ [10%N])
        :: table_lines (S first) rest
  end.

(** The SentencePiece piece that starts the word [w]. *)
Definition word_piece (w : str) : str := 9601%N :: w.

End TableFile.

Module SearchInvariant.

(** Past its seed of [context_size] blanks, a hypothesis holds no
    blank. *)
Definition seeded (blank_id : Z) (context_size : nat) (hyps : list (list Z)) : Prop :=
  Forall (fun h => blank_id ∉ drop context_size h) hyps.

End SearchInvariant.

Module Hub.

Import Py VietASR Backends Worlds.

(** The outside world [plain_world], with [urlparse(url).path] answering
    [path] for every URL. *)
Definition hub_world (path : str) : externals unit unit :=
  {| decode_meta := decode_meta (plain_world None);
     absolute := absolute (plain_world None);
     url_path := fun _ => Ok path;
     py_int := py_int (plain_world None);
     list_capacity := list_capacity (plain_world None);
     vosk_installed := true;
     transformers_installed := true;
     torch_installed := true;
     torch_rnn_installed := true;
     kaldifeat_installed := true;
     chunkformer_installed := true;
     huggingface_hub_installed := true;
     is_dir := is_dir (plain_world None);
     make_dir := make_dir (plain_world None);
     path_exists := path_exists (plain_world None);
     mkstemp := mkstemp (plain_world None);
     write_wav := write_wav (plain_world None);
     token_file_lines := token_file_lines (plain_world None);
     snapshot_download := snapshot_download (plain_world None);
     vosk_load := vosk_load (plain_world None);
     whisper_load := whisper_load (plain_world None);
     torchscript_load := torchscript_load (plain_world None);
     chunkformer_load := chunkformer_load (plain_world None);
     select_device := select_device (plain_world None);
     new_fbank := new_fbank (plain_world None);
     accept_waveform := accept_waveform (plain_world None);
     recognizer_result := recognizer_result (plain_world None);
     recognizer_final_result := recognizer_final_result (plain_world None);
     whisper_pipeline := whisper_pipeline (plain_world None);
     encoder := encoder (plain_world None);
     model_blank_id := model_blank_id (plain_world None);
     model_context_size := model_context_size (plain_world None);
     model_decoder := model_decoder (plain_world None);
     model_joiner_argmax := model_joiner_argmax (plain_world None);
     endless_decode := endless_decode (plain_world None)
  |}.

(** A model published on the HuggingFace hub. *)
Definition hub_model (url_ : str) : Model :=
  {| id := u"hub-model"; language_family := u"vi";
     casing_func := fun text => text; url := Some url_ |}.

End Hub.

Module RunSpec.

Import Py VietASR Backends.

(** The part of the state an entry point has no business with: the caches
    of the other backends and, except for ChunkFormer, the scratch
    files. *)
Definition beside_vosk (w : world) :=
  (_WHISPER_MODELS w, vietasr_RESOURCES w, chunkformer_RESOURCES w, scratch_files w).

Definition beside_whisper (w : world) :=
  (_VOSK_MODELS w, vietasr_RESOURCES w, chunkformer_RESOURCES w, scratch_files w).

Definition beside_vietasr (w : world) :=
  (_VOSK_MODELS w, _WHISPER_MODELS w, chunkformer_RESOURCES w, scratch_files w).

Definition beside_chunkformer (w : world) :=
  (_VOSK_MODELS w, _WHISPER_MODELS w, vietasr_RESOURCES w).

(** A run leaves [part] of the state as it found it. *)
Definition same {A} (part : world -> A) (w w' : world) : Prop := part w' = part w.

(** Every cached VietASR resource has a token table that is not empty. *)
Definition tokens_loaded (w : world) : Prop :=
  forall key r, vietasr_RESOURCES w !! key = Some r -> v_tokens r <> [].

Definition keeps_tokens_loaded (w w' : world) : Prop :=
  tokens_loaded w -> tokens_loaded w'.

(** The outside world [plain_world], on a disk where the WAV file cannot
    be written. *)
Definition full_disk : externals unit unit :=
  {| decode_meta := decode_meta (Worlds.plain_world None);
     absolute := absolute (Worlds.plain_world None);
     url_path := url_path (Worlds.plain_world None);
     py_int := py_int (Worlds.plain_world None);
     list_capacity := list_capacity (Worlds.plain_world None);
     vosk_installed := true;
     transformers_installed := true;
     torch_installed := true;
     torch_rnn_installed := true;
     kaldifeat_installed := true;
     chunkformer_installed := true;
     huggingface_hub_installed := true;
     is_dir := is_dir (Worlds.plain_world None);
     make_dir := make_dir (Worlds.plain_world None);
     path_exists := path_exists (Worlds.plain_world None);
     mkstemp := mkstemp (Worlds.plain_world None);
     write_wav := fun _ _ _ => Raise (LibraryError 28);
     token_file_lines := token_file_lines (Worlds.plain_world None);
     snapshot_download := snapshot_download (Worlds.plain_world None);
     vosk_load := vosk_load (Worlds.plain_world None);
     whisper_load := whisper_load (Worlds.plain_world None);
     torchscript_load := torchscript_load (Worlds.plain_world None);
     chunkformer_load := chunkformer_load (Worlds.plain_world None);
     select_device := select_device (Worlds.plain_world None);
     new_fbank := new_fbank (Worlds.plain_world None);
     accept_waveform := accept_waveform (Worlds.plain_world None);
     recognizer_result := recognizer_result (Worlds.plain_world None);
     recognizer_final_result := recognizer_final_result (Worlds.plain_world None);
     whisper_pipeline := whisper_pipeline (Worlds.plain_world None);
     encoder := encoder (Worlds.plain_world None);
     model_blank_id := model_blank_id (Worlds.plain_world None);
     model_context_size := model_context_size (Worlds.plain_world None);
     model_decoder := model_decoder (Worlds.plain_world None);
     model_joiner_argmax := model_joiner_argmax (Worlds.plain_world None);
     endless_decode := endless_decode (Worlds.plain_world None)
  |}.

(** A process that has already loaded the Whisper pipeline of
    [vi_model]. *)
Definition whisper_warm : world := set_whisper (u"vi-model") 2%N Worlds.fresh.

End RunSpec.

Module Heard.

Import Backends.

(** The chunks handed to [AcceptWaveform] in a trace, in order. *)
Definition accepted_chunks (t : list event) : list (list Init.Byte.byte) :=
  omap (fun ev => match ev with AcceptWaveform chunk => Some chunk | _ => None end) t.

End Heard.

(** * Properties *)

(** ** Python strings *)

Module PyFacts.

Import Py Words.

(** What [lstrip] and [rstrip] remove and what they leave. *)
Lemma lstrip_by_spec chars s :
  exists removed, s = removed ++ lstrip_by chars s
                  /\ Forall (fun c => chars c = true) removed
                  /\ (forall c, head (lstrip_by chars s) = Some c -> chars c = false).
Proof.
  induction s as [|c r IH]; simpl.
  - exists []. repeat split; [constructor | discriminate].
  - destruct (chars c) eqn:E.
    + destruct IH as (rm & Hrm & Hall & Hh). exists (c :: rm).
      repeat split; [simpl; congruence | constructor; assumption | exact Hh].
    + exists []. repeat split; [constructor|]. simpl. congruence.
Qed.

Lemma rstrip_by_spec chars s :
  exists removed, s = rstrip_by chars s ++ removed
                  /\ Forall (fun c => chars c = true) removed
                  /\ (forall c, last (rstrip_by chars s) = Some c -> chars c = false).
Proof.
  unfold rstrip_by.
  destruct (lstrip_by_spec chars (reverse s)) as (rm & Hrm & Hall & Hh).
  exists (reverse rm). repeat split.
  - rewrite <- (reverse_involutive s), Hrm at 1.
    rewrite reverse_app. reflexivity.
  - apply Forall_reverse. exact Hall.
  - intros c. rewrite last_reverse. apply Hh.
Qed.

Lemma lstrip_by_fixed chars s :
  (forall c, head s = Some c -> chars c = false) -> lstrip_by chars s = s.
Proof.
  destruct s as [|c r]; simpl; [reflexivity|].
  intros H. rewrite (H c eq_refl). reflexivity.
Qed.

Lemma rstrip_by_fixed chars s :
  (forall c, last s = Some c -> chars c = false) -> rstrip_by chars s = s.
Proof.
  intros H. unfold rstrip_by. rewrite lstrip_by_fixed.
  - apply reverse_involutive.
  - intros c. rewrite head_reverse. apply H.
Qed.

Lemma lstrip_fixed s :
  (forall c, head s = Some c -> isspace c = false) -> lstrip s = s.
Proof. apply lstrip_by_fixed. Qed.

Lemma rstrip_fixed s :
  (forall c, last s = Some c -> isspace c = false) -> rstrip s = s.
Proof. apply rstrip_by_fixed. Qed.

(** [strip] leaves no whitespace at either end, so stripping twice is
    stripping once. *)
Lemma strip_ends s :
  (forall c, head (strip s) = Some c -> isspace c = false)
  /\ (forall c, last (strip s) = Some c -> isspace c = false).
Proof.
  unfold strip, rstrip, lstrip.
  destruct (lstrip_by_spec isspace s) as (rm1 & _ & _ & Hhead).
  destruct (rstrip_by_spec isspace (lstrip_by isspace s)) as (rm2 & Hrm2 & _ & Hlast).
  split; [|exact Hlast].
  intros c Hc. apply Hhead. rewrite Hrm2.
  destruct (rstrip_by isspace (lstrip_by isspace s)); [discriminate | exact Hc].
Qed.

Lemma strip_idempotent s : strip (strip s) = strip s.
Proof.
  destruct (strip_ends s) as [Hh Hl].
  unfold strip at 1. rewrite (lstrip_fixed _ Hh). apply rstrip_fixed, Hl.
Qed.

Lemma split_go_app_token t cur s :
  Forall (fun c => isspace c = false) t ->
  split_go cur (t ++ s) = split_go (reverse t ++ cur) s.
Proof.
  revert cur. induction t as [|c t IH]; intros cur Ht; simpl; [reflexivity|].
  inversion Ht as [|? ? Hc Ht']; subst. rewrite Hc, IH by assumption.
  rewrite reverse_cons, <- app_assoc. reflexivity.
Qed.

Lemma split_go_space cur s :
  cur <> [] -> split_go cur (32%N :: s) = reverse cur :: split_go [] s.
Proof. intros H. simpl. destruct cur; [contradiction | reflexivity]. Qed.

Lemma split_go_tokens cur s :
  Forall (fun c => isspace c = false) cur ->
  Forall is_token (split_go cur s).
Proof.
  revert cur. induction s as [|c r IH]; intros cur Hcur; simpl.
  - destruct cur as [|c0 cur0]; constructor; [|constructor].
    split.
    + intros E. apply (f_equal length) in E.
      rewrite length_reverse in E. discriminate.
    + apply Forall_reverse. exact Hcur.
  - destruct (isspace c) eqn:Hc.
    + destruct cur as [|c0 cur0]; [apply IH; constructor|].
      constructor; [|apply IH; constructor].
      split.
      * intros E. apply (f_equal length) in E.
        rewrite length_reverse in E. discriminate.
      * apply Forall_reverse. exact Hcur.
    + apply IH. constructor; assumption.
Qed.

Lemma split_tokens s : Forall is_token (split s).
Proof. apply split_go_tokens. constructor. Qed.

Lemma split_join toks :
  Forall is_token toks -> split (join [32%N] toks) = toks.
Proof.
  unfold split. induction 1 as [|t toks [Hne Hns] Hrest IH]; [reflexivity|].
  destruct toks as [|t' toks'].
  - simpl. rewrite <- (app_nil_r t) at 1.
    rewrite split_go_app_token by assumption. simpl.
    rewrite app_nil_r, reverse_involutive.
    destruct (reverse t) eqn:E; [|reflexivity].
    apply (f_equal length) in E. rewrite length_reverse in E.
    destruct t; [contradiction | discriminate].
  - change (join [32%N] (t :: t' :: toks')) with (t ++ 32%N :: join [32%N] (t' :: toks')).
    rewrite split_go_app_token by assumption.
    rewrite app_nil_r, split_go_space, reverse_involutive, IH; [reflexivity|].
    intros E. apply (f_equal length) in E. rewrite length_reverse in E.
    destruct t; [contradiction | discriminate].
Qed.

Lemma join_head sep t toks c :
  t <> [] -> head (join sep (t :: toks)) = Some c -> head t = Some c.
Proof.
  intros Hne. destruct t as [|c0 t0]; [contradiction|].
  destruct toks; simpl; auto.
Qed.

Lemma join_last sep toks c :
  Forall is_token toks -> last (join sep toks) = Some c ->
  exists t, last toks = Some t /\ last t = Some c.
Proof.
  induction 1 as [|t toks [Hne Hns] Hrest IH]; [discriminate|].
  destruct toks as [|t' toks'].
  - simpl. intros H. exists t. split; [reflexivity | exact H].
  - change (join sep (t :: t' :: toks')) with (t ++ sep ++ join sep (t' :: toks')).
    inversion Hrest as [|? ? [Hne' _] _]; subst.
    assert (Hj : join sep (t' :: toks') <> []).
    { destruct t'; [contradiction|]. destruct toks'; discriminate. }
    rewrite !app_assoc. rewrite last_app.
    destruct (last (join sep (t' :: toks'))) eqn:E.
    + intros [= ->]. destruct (IH eq_refl) as (t0 & Ht0 & Hc).
      exists t0. split; [|exact Hc].
      rewrite last_cons. simpl in Ht0 |- *. rewrite Ht0. reflexivity.
    + apply last_None in E. contradiction.
Qed.

(** A joined list of tokens has no whitespace at either end. *)
Lemma strip_join toks :
  Forall is_token toks -> strip (join [32%N] toks) = join [32%N] toks.
Proof.
  intros Htoks. unfold strip.
  assert (Hl : lstrip (join [32%N] toks) = join [32%N] toks).
  { apply lstrip_fixed. intros c Hc.
    destruct Htoks as [|t toks [Hne Hns] _]; [discriminate|].
    apply join_head in Hc; [|assumption].
    destruct t; [discriminate|]. inversion Hns; subst. simpl in Hc. congruence. }
  rewrite Hl. apply rstrip_fixed. intros c Hc.
  destruct (join_last _ _ _ Htoks Hc) as (t & Ht & Hct).
  apply last_Some_elem_of in Ht, Hct.
  rewrite Forall_forall in Htoks. destruct (Htoks t Ht) as [_ Hns].
  rewrite Forall_forall in Hns. auto.
Qed.

End PyFacts.

(** ** The number normaliser *)

Module ViFacts.

Import Py Words PyFacts ViNormalize.

Lemma number_tokens_letters : forallb starts_with_letter _NUMBER_TOKENS = true.
Proof. vm_compute. reflexivity. Qed.

Lemma mem_true t l : mem t l = true <-> t ∈ l.
Proof. unfold mem. apply bool_decide_eq_true. Qed.

Lemma mem_false t l : mem t l = false <-> t ∉ l.
Proof. unfold mem. apply bool_decide_eq_false. Qed.

Lemma number_token_letter t :
  mem t _NUMBER_TOKENS = true -> starts_with_letter t = true.
Proof.
  rewrite mem_true, list_elem_of_In. intros Hin.
  pose proof number_tokens_letters as H.
  rewrite forallb_forall in H. auto.
Qed.

Lemma digits_of_uint_digits d :
  Forall (fun c => (48 <= c <= 57)%N) (digits_of_uint d).
Proof. induction d; simpl; constructor; auto; lia. Qed.

Lemma digits_of_uint_nonnil d : d <> Decimal.Nil -> digits_of_uint d <> [].
Proof. destruct d; simpl; congruence. Qed.

Lemma str_of_int_chars z :
  str_of_int z <> [] /\ Forall (fun c => (45 <= c <= 57)%N) (str_of_int z).
Proof.
  destruct z as [|p|p]; simpl.
  - split; [discriminate|]. repeat constructor; lia.
  - split.
    + apply digits_of_uint_nonnil, DecimalPos.Unsigned.to_uint_nonnil.
    + eapply Forall_impl; [apply digits_of_uint_digits|]. simpl. lia.
  - split; [discriminate|]. constructor; [lia|].
    eapply Forall_impl; [apply digits_of_uint_digits|]. simpl. lia.
Qed.

Lemma numeral_not_space c : (45 <= c <= 57)%N -> isspace c = false.
Proof.
  intros H. unfold isspace.
  repeat match goal with
         | |- context [(?a <=? ?b)%N] => destruct (N.leb_spec a b); try lia
         | |- context [(?a =? ?b)%N] => destruct (N.eqb_spec a b); try lia
         end; reflexivity.
Qed.

Lemma str_of_int_token z : is_token (str_of_int z).
Proof.
  destruct (str_of_int_chars z) as [Hne Hch]. split; [exact Hne|].
  eapply Forall_impl; [exact Hch|]. apply numeral_not_space.
Qed.

Lemma str_of_int_not_number z : mem (str_of_int z) _NUMBER_TOKENS = false.
Proof.
  destruct (mem (str_of_int z) _NUMBER_TOKENS) eqn:E; [|reflexivity].
  apply number_token_letter in E.
  destruct (str_of_int_chars z) as [Hne Hch].
  destruct (str_of_int z) as [|c r]; [contradiction|].
  inversion Hch; subst. simpl in E. apply N.leb_le in E. lia.
Qed.

(** *** The run of number words *)

Lemma number_run_cons tok rest :
  mem tok _NUMBER_TOKENS = true ->
  number_run (tok :: rest) = tok :: number_run rest.
Proof. intros H. simpl. rewrite H. reflexivity. Qed.

Lemma number_run_length rest : (length (number_run rest) <= length rest)%nat.
Proof.
  induction rest as [|t r IH]; simpl; [lia|].
  destruct (mem t _NUMBER_TOKENS); simpl; lia.
Qed.

Lemma number_run_prefix rest :
  rest = number_run rest ++ drop (length (number_run rest)) rest.
Proof.
  induction rest as [|t r IH]; simpl; [reflexivity|].
  destruct (mem t _NUMBER_TOKENS); simpl; [f_equal; exact IH | reflexivity].
Qed.

Lemma number_run_all rest : Forall (fun t => mem t _NUMBER_TOKENS = true) (number_run rest).
Proof.
  induction rest as [|t r IH]; simpl; [constructor|].
  destruct (mem t _NUMBER_TOKENS) eqn:E; constructor; assumption.
Qed.

(** The token after a run is not a number word. *)
Lemma number_run_stops rest t :
  head (drop (length (number_run rest)) rest) = Some t ->
  mem t _NUMBER_TOKENS = false.
Proof.
  induction rest as [|t0 r IH]; simpl; [discriminate|].
  destruct (mem t0 _NUMBER_TOKENS) eqn:E; simpl.
  - exact IH.
  - intros [= <-]. exact E.
Qed.

(** *** The loop does not depend on fuel beyond the number of tokens *)

Lemma normalize_loop_fuel fuel1 fuel2 prev rest :
  (length rest <= fuel1)%nat -> (length rest <= fuel2)%nat ->
  normalize_loop fuel1 prev rest = normalize_loop fuel2 prev rest.
Proof.
  revert fuel2 prev rest.
  induction fuel1 as [|f1 IH]; intros fuel2 prev rest H1 H2.
  - destruct rest; [|simpl in H1; lia]. destruct fuel2; reflexivity.
  - destruct rest as [|tok rest']; [destruct fuel2; reflexivity|].
    destruct fuel2 as [|f2]; [simpl in H2; lia|].
    simpl in H1, H2. cbn [normalize_loop].
    destruct (mem tok _NUMBER_TOKENS) eqn:E.
    + rewrite (number_run_cons _ _ E). cbn [length drop].
      pose proof (length_drop rest' (length (number_run rest'))) as Hd.
      destruct (accept _ _ _ _).
      * f_equal. apply IH; lia.
      * f_equal. apply IH; lia.
    + f_equal. apply IH; lia.
Qed.

Lemma norm_nil prev : norm prev [] = [].
Proof. reflexivity. Qed.

Lemma norm_other prev tok rest :
  mem tok _NUMBER_TOKENS = false ->
  norm prev (tok :: rest) = tok :: norm tok rest.
Proof. intros E. unfold norm. simpl. rewrite E. reflexivity. Qed.

Lemma norm_number prev tok rest :
  mem tok _NUMBER_TOKENS = true ->
  norm prev (tok :: rest) =
    let run := number_run (tok :: rest) in
    let after := drop (length run) (tok :: rest) in
    let number_value := _words_to_number run in
    if accept prev run number_value (should_convert after number_value)
    then str_of_int (default 0 number_value) :: norm (default [] (last run)) after
    else tok :: norm tok rest.
Proof.
  intros E. unfold norm. cbn [normalize_loop length]. rewrite E.
  cbv zeta. destruct (accept _ _ _ _); [|reflexivity].
  f_equal. apply normalize_loop_fuel; [|lia].
  rewrite (number_run_cons _ _ E). cbn [length drop].
  rewrite length_drop. lia.
Qed.

Lemma normalize_tokens_norm tokens : normalize_tokens tokens = norm [] tokens.
Proof. reflexivity. Qed.

(** The loop keeps tokens tokens, and yields at least one of them. *)
Lemma normalize_loop_tokens fuel prev rest :
  Forall is_token rest -> Forall is_token (normalize_loop fuel prev rest).
Proof.
  revert prev rest. induction fuel as [|f IH]; intros prev rest Hrest; [constructor|].
  destruct rest as [|tok rest']; [constructor|].
  cbn [normalize_loop]. inversion Hrest; subst.
  destruct (mem tok _NUMBER_TOKENS).
  - destruct (accept _ _ _ _).
    + constructor; [apply str_of_int_token|]. apply IH, Forall_drop, Hrest.
    + constructor; auto.
  - constructor; auto.
Qed.

Lemma normalize_tokens_nonempty tokens :
  tokens <> [] -> normalize_tokens tokens <> [].
Proof.
  destruct tokens as [|tok rest]; [contradiction|]. intros _.
  unfold normalize_tokens. cbn [length normalize_loop].
  destruct (mem tok _NUMBER_TOKENS); [destruct (accept _ _ _ _)|]; discriminate.
Qed.

(** Without number words the loop copies the tokens. *)
Lemma norm_no_numbers prev rest :
  Forall (fun t => mem t _NUMBER_TOKENS = false) rest -> norm prev rest = rest.
Proof.
  intros H. revert prev. induction H as [|t r Ht Hr IH]; intros prev; [reflexivity|].
  rewrite norm_other by assumption. f_equal. apply IH.
Qed.

End ViFacts.

Module ViClaims.

Import Py Words PyFacts ViNormalize ViFacts.

(** C4: [normalize_vietnamese_numbers] maps "một giờ" to "1 giờ",
    "mười lăm phút" to "15 phút" and a final "hai mươi" to "20", and returns
    "không" alone, "phần trăm" and a final "ba" unchanged. *)
Theorem normalize_numbers_examples :
  normalize_vietnamese_numbers (u"một giờ") = u"1 giờ"
  /\ normalize_vietnamese_numbers (u"mười lăm phút") = u"15 phút"
  /\ normalize_vietnamese_numbers (u"hai mươi") = u"20"
  /\ normalize_vietnamese_numbers (u"không") = u"không"
  /\ normalize_vietnamese_numbers (u"phần trăm") = u"phần trăm"
  /\ normalize_vietnamese_numbers (u"ba") = u"ba".
Proof. repeat split; vm_compute; reflexivity. Qed.

(** C9: a text with no token is returned as it is, whitespace included; a
    text with at least one token is returned as its (normalised) tokens
    joined by single spaces, so that the result splits back into exactly
    those tokens and has no whitespace at either end, and, when the text
    has no number word, is the original tokens joined by single spaces. *)
Theorem normalize_numbers_whitespace (text : str) :
  (split text = [] -> normalize_vietnamese_numbers text = text)
  /\ (split text <> [] ->
      normalize_vietnamese_numbers text
        = join (u" ") (normalize_tokens (split text))
      /\ split (normalize_vietnamese_numbers text) = normalize_tokens (split text)
      /\ strip (normalize_vietnamese_numbers text) = normalize_vietnamese_numbers text
      /\ (Forall (fun t => mem t _NUMBER_TOKENS = false) (split text) ->
          normalize_vietnamese_numbers text = join (u" ") (split text))).
Proof.
  unfold normalize_vietnamese_numbers. split.
  - intros ->. reflexivity.
  - intros Hne. destruct (split text) as [|t toks] eqn:E; [contradiction|].
    assert (Htok : Forall is_token (normalize_tokens (t :: toks))).
    { apply normalize_loop_tokens. rewrite <- E. apply split_tokens. }
    change (u" ") with [32%N].
    repeat split.
    + apply split_join, Htok.
    + apply strip_join, Htok.
    + intros Hnum. rewrite normalize_tokens_norm, norm_no_numbers by assumption.
      reflexivity.
Qed.

(** The two cases of C9 on concrete texts: whitespace only, and a command
    with irregular spacing and no number word. *)
Lemma normalize_numbers_whitespace_witness :
  normalize_vietnamese_numbers (u"  ") = u"  "
  /\ normalize_vietnamese_numbers (u"  bật   đèn ") = u"bật đèn".
Proof.
  split.
  - apply (proj1 (normalize_numbers_whitespace (u"  "))). vm_compute. reflexivity.
  - destruct (proj2 (normalize_numbers_whitespace (u"  bật   đèn "))) as (_ & _ & _ & H).
    + vm_compute. discriminate.
    + rewrite H; [vm_compute; reflexivity|].
      vm_compute. repeat constructor.
Defined.

End ViClaims.

(** ** The finaliser and the entry points *)

Module BackendClaims.

Import Py Words PyFacts ViNormalize VietASR Backends Worlds Pipelines Traces.

Section Finalizer.

Context {Enc Dec : Type}.
Variable ext : externals Enc Dec.
Variable model : Model.

Local Abbreviation normalize_if_vi := (Pipelines.normalize_if_vi model).
Local Abbreviation trimmed_pipeline := (Pipelines.trimmed_pipeline ext model).


Lemma trimmed_pipeline_strip text :
  trimmed_pipeline (strip text) = trimmed_pipeline text.
Proof. unfold Pipelines.trimmed_pipeline. rewrite strip_idempotent. reflexivity. Qed.





End Finalizer.

(** *** Runs that hear something *)

Section Spoken.

Context {Enc Dec : Type}.
Variable ext : externals Enc Dec.
Variable model : Model.
Variable settings : Settings.




Lemma transcribe_whisper_heard stream w t w1 heard :
  whisper_transcriber_for ext model w = (Ok t, w1) ->
  collect stream [] <> [] ->
  Nat.odd (length (collect stream [])) = false ->
  whisper_pipeline ext (trace w1) t (collect stream []) = Ok heard ->
  (transcribe_whisper ext model settings stream w).1
    = Ok (whisper_finish ext model (strip (default [] heard))).
Proof.
  intros Hload Haudio Heven Hheard. unfold transcribe_whisper.
  unfold bind at 1. rewrite Hload.
  destruct (collect stream []) as [|b bs] eqn:E; [contradiction|].
  rewrite Heven. unfold bind, try_except, call, ret. simpl. rewrite Hheard. reflexivity.
Qed.




End Spoken.




(** C10: on a run in which the Whisper pipeline recognises a text that is
    not empty, [transcribe_whisper] returns what [finalize_transcript]
    makes of the cased text without its trailing periods: what is removed
    is a run of '.', and what is handed over does not end with '.'. *)
Theorem whisper_drops_trailing_periods {Enc Dec} (ext : externals Enc Dec)
    (model : Model) (settings : Settings) (stream : list (list Init.Byte.byte))
    (w : world) (t : N) (w1 : world) (heard : option str) :
  whisper_transcriber_for ext model w = (Ok t, w1) ->
  collect stream [] <> [] ->
  Nat.odd (length (collect stream [])) = false ->
  whisper_pipeline ext (trace w1) t (collect stream []) = Ok heard ->
  strip (default [] heard) <> [] ->
  exists entering periods,
    (transcribe_whisper ext model settings stream w).1
      = Ok (finalize_transcript ext model entering)
    /\ casing_func model (strip (default [] heard)) = entering ++ periods
    /\ Forall (fun c => c = 46%N) periods
    /\ last entering <> Some 46%N.
Proof.
  intros Hload Haudio Heven Hheard Hne.
  destruct (rstrip_by_spec (fun c => (c =? 46)%N)
              (casing_func model (strip (default [] heard))))
    as (rm & Hrm & Hall & Hlast).
  exists (rstrip_char 46 (casing_func model (strip (default [] heard)))), rm.
  repeat split.
  - rewrite (transcribe_whisper_heard ext model settings stream w t w1 heard)
      by assumption.
    unfold whisper_finish. destruct (strip (default [] heard)); [contradiction | reflexivity].
  - exact Hrm.
  - eapply Forall_impl; [exact Hall|]. intros c Hc. apply N.eqb_eq, Hc.
  - intros Hl. apply Hlast in Hl. discriminate.
Qed.

Lemma whisper_drops_trailing_periods_witness :
  exists entering periods,
    (transcribe_whisper speaking_world vi_model some_settings
       [[Init.Byte.x01; Init.Byte.x00]] fresh).1
      = Ok (finalize_transcript speaking_world vi_model entering)
    /\ casing_func vi_model (strip (default [] (Some (u" bật tivi... "))))
       = entering ++ periods
    /\ Forall (fun c => c = 46%N) periods
    /\ last entering <> Some 46%N.
Proof.
  apply (whisper_drops_trailing_periods speaking_world vi_model some_settings
           [[Init.Byte.x01; Init.Byte.x00]] fresh 2%N
           (whisper_transcriber_for speaking_world vi_model fresh).2
           (Some (u" bật tivi... ")));
    [vm_compute; reflexivity | discriminate | reflexivity | reflexivity
    | vm_compute; discriminate].
Defined.

(** *** Reasoning about runs *)

Section Respects.

Variable R : world -> world -> Prop.
Hypothesis R_refl : forall w, R w w.
Hypothesis R_trans : forall w1 w2 w3, R w1 w2 -> R w2 w3 -> R w1 w3.

Lemma respects_ret {A} (a : A) : respects R (ret a).
Proof. intros w. apply R_refl. Qed.

Lemma respects_raise {A} e : respects R (@raise A e).
Proof. intros w. apply R_refl. Qed.

Lemma respects_read {A} (f : world -> A) : respects R (read f).
Proof. intros w. apply R_refl. Qed.

Lemma respects_lift {A} (r : result A) : respects R (lift r).
Proof. intros w. apply R_refl. Qed.

Lemma respects_update f :
  (forall w, R w (f w)) -> respects R (update f).
Proof. intros H w. apply H. Qed.

Lemma respects_call {A} ev (answer : list event -> result A) :
  (forall w, R w (with_trace w (trace w ++ [ev]))) -> respects R (call ev answer).
Proof. intros H w. apply H. Qed.

Lemma respects_call_total {A} ev (answer : list event -> A) :
  (forall w, R w (with_trace w (trace w ++ [ev]))) -> respects R (call_total ev answer).
Proof. intros H w. apply H. Qed.

Lemma respects_bind {A B} (m : M A) (k : A -> M B) :
  respects R m -> (forall a, respects R (k a)) -> respects R (bind m k).
Proof.
  intros Hm Hk w. unfold bind. specialize (Hm w).
  destruct (m w) as [[a|e] w1]; simpl in *; [|exact Hm].
  eapply R_trans; [exact Hm | apply Hk].
Qed.

Lemma respects_try_except {A} (body : M A) handler :
  respects R body -> (forall e, respects R (handler e)) ->
  respects R (try_except body handler).
Proof.
  intros Hb Hh w. unfold try_except. specialize (Hb w).
  destruct (body w) as [[a|e] w1]; simpl in *; [exact Hb|].
  destruct (is_Exception e); [|exact Hb].
  eapply R_trans; [exact Hb | apply Hh].
Qed.

Lemma respects_try_finally {A} (body : M A) cleanup :
  respects R body -> respects R cleanup -> respects R (try_finally body cleanup).
Proof.
  intros Hb Hc w. unfold try_finally. specialize (Hb w).
  destruct (body w) as [r w1]. specialize (Hc w1).
  destruct (cleanup w1) as [[[]|e] w2]; simpl in *; eapply R_trans; eauto.
Qed.

End Respects.

(** One step of a compositional proof of [respects]; [by_refl] and
    [by_trans] prove that the relation is reflexive and transitive. *)
Ltac respects_step by_refl by_trans :=
  lazymatch goal with
  | |- respects _ (bind _ _) => apply respects_bind; [intros ? ? ?; by_trans | | intros ?]
  | |- respects _ (ret _) => apply respects_ret; intros ?; by_refl
  | |- respects _ (raise _) => apply respects_raise; intros ?; by_refl
  | |- respects _ (read _) => apply respects_read; intros ?; by_refl
  | |- respects _ (lift _) => apply respects_lift; intros ?; by_refl
  | |- respects _ (update _) => apply respects_update
  | |- respects _ (call _ _) => apply respects_call
  | |- respects _ (call_total _ _) => apply respects_call_total
  | |- respects _ (try_except _ _) =>
      apply respects_try_except; [intros ? ? ?; by_trans | | intros ?]
  | |- respects _ (try_finally _ _) =>
      apply respects_try_finally; [intros ? ? ?; by_trans | | ]
  | |- respects _ (if ?b then _ else _) => destruct b
  | |- respects _ (match ?x with _ => _ end) => destruct x
  end.

Lemma grew_by_refl P w : grew_by P w w.
Proof. exists []. split; [symmetry; apply app_nil_r | constructor]. Qed.

Lemma grew_by_trans P w1 w2 w3 :
  grew_by P w1 w2 -> grew_by P w2 w3 -> grew_by P w1 w3.
Proof.
  intros (n1 & H1 & F1) (n2 & H2 & F2). exists (n1 ++ n2). split.
  - rewrite H2, H1, app_assoc. reflexivity.
  - apply Forall_app. split; assumption.
Qed.

Lemma grew_by_event (P : event -> Prop) w ev :
  P ev -> grew_by P w (with_trace w (trace w ++ [ev])).
Proof. intros H. exists [ev]. split; [reflexivity | repeat constructor; exact H]. Qed.

Lemma grew_by_same_trace (P : event -> Prop) w w' :
  trace w' = trace w -> grew_by P w w'.
Proof. intros H. exists []. split; [rewrite app_nil_r; exact H | constructor]. Qed.

Lemma no_inference_refl w : no_inference w w.
Proof. apply grew_by_refl. Qed.

Lemma no_inference_trans w1 w2 w3 :
  no_inference w1 w2 -> no_inference w2 w3 -> no_inference w1 w3.
Proof. apply grew_by_trans. Qed.

(** A run made of calls that are not inference calls. *)
Ltac quiet_run :=
  repeat respects_step ltac:(apply no_inference_refl) ltac:(apply no_inference_trans);
  try (intros ?; first [ apply grew_by_event; reflexivity
                       | apply grew_by_same_trace; reflexivity ]).

Section Runs.

Context {Enc Dec : Type}.
Variable ext : externals Enc Dec.

Local Abbreviation vietasr_resources_for := (Traces.vietasr_resources_for ext).
Local Abbreviation chunkformer_resources_for := (Traces.chunkformer_resources_for ext).

Lemma all_exist_quiet model_dir names :
  respects no_inference (all_exist ext model_dir names).
Proof.
  induction names as [|name rest IH]; simpl.
  - quiet_run.
  - apply respects_bind; [exact no_inference_trans | quiet_run |].
    intros []; [exact IH | quiet_run].
Qed.

Lemma vosk_model_for_quiet model settings :
  respects no_inference (vosk_model_for ext model settings).
Proof. unfold vosk_model_for. quiet_run. Qed.

Lemma whisper_transcriber_for_quiet model :
  respects no_inference (whisper_transcriber_for ext model).
Proof. unfold whisper_transcriber_for. quiet_run. Qed.

Lemma vietasr_load_resources_quiet model settings :
  respects no_inference (vietasr_load_resources ext model settings).
Proof. unfold vietasr_load_resources. quiet_run. Qed.

Lemma vietasr_require_dependencies_quiet :
  respects no_inference (vietasr_require_dependencies ext).
Proof. unfold vietasr_require_dependencies. quiet_run. Qed.

Lemma chunkformer_require_dependencies_quiet :
  respects no_inference (chunkformer_require_dependencies ext).
Proof. unfold chunkformer_require_dependencies. quiet_run. Qed.

Lemma chunkformer_load_resources_quiet model settings :
  respects no_inference (chunkformer_load_resources ext model settings).
Proof.
  unfold chunkformer_load_resources, _ensure_model_files.
  repeat first [ apply all_exist_quiet
               | respects_step ltac:(apply no_inference_refl) ltac:(apply no_inference_trans) ];
    try (intros ?; first [ apply grew_by_event; reflexivity
                       | apply grew_by_same_trace; reflexivity ]).
Qed.

(** *** C2: an empty audio stream *)

Lemma collect_empty (stream : list (list Init.Byte.byte)) acc :
  Forall (eq []) stream -> collect stream acc = acc.
Proof.
  induction 1 as [|chunk rest <- _ IH]; simpl; [reflexivity | exact IH].
Qed.

Lemma vosk_feed_empty (stream : list (list Init.Byte.byte)) fragments :
  Forall (eq []) stream -> vosk_feed ext stream fragments = ret fragments.
Proof.
  induction 1 as [|chunk rest <- _ IH]; simpl; [reflexivity | exact IH].
Qed.

Lemma whisper_empty_stream model settings stream w :
  Forall (eq []) stream ->
  transcribe_whisper ext model settings stream w
    = match whisper_transcriber_for ext model w with
      | (Ok _, w1) => (Ok [], w1)
      | (Raise e, w1) => (Raise e, w1)
      end.
Proof.
  intros Hs. unfold transcribe_whisper, bind.
  destruct (whisper_transcriber_for ext model w) as [[t|e] w1]; [|reflexivity].
  rewrite (collect_empty _ _ Hs). reflexivity.
Qed.

Lemma vietasr_empty_stream model settings stream w :
  Forall (eq []) stream ->
  transcribe_vietasr ext model settings stream w
    = match vietasr_resources_for model settings w with
      | (Ok _, w1) => (Ok [], w1)
      | (Raise e, w1) => (Raise e, w1)
      end.
Proof.
  intros Hs. unfold transcribe_vietasr, Traces.vietasr_resources_for, bind.
  destruct (vietasr_require_dependencies ext w) as [[[]|e] w0]; [|reflexivity].
  destruct (vietasr_load_resources ext model settings w0) as [[r|e] w1]; [|reflexivity].
  rewrite (collect_empty _ _ Hs). reflexivity.
Qed.

Lemma chunkformer_empty_stream model settings stream w :
  Forall (eq []) stream ->
  transcribe_chunkformer ext model settings stream w
    = match chunkformer_resources_for model settings w with
      | (Ok _, w1) => (Ok [], w1)
      | (Raise e, w1) => (Raise e, w1)
      end.
Proof.
  intros Hs. unfold transcribe_chunkformer, Traces.chunkformer_resources_for, bind.
  destruct (chunkformer_require_dependencies ext w) as [[[]|e] w0]; [|reflexivity].
  destruct (chunkformer_load_resources ext model settings w0) as [[r|e] w1];
    [|reflexivity].
  rewrite (collect_empty _ _ Hs). reflexivity.
Qed.

Lemma vosk_empty_stream model settings stream w :
  Forall (eq []) stream ->
  transcribe_vosk ext model settings stream w
    = match vosk_model_for ext model settings w with
      | (Ok m, w1) =>
          (match recognizer_final_result ext (trace w1 ++ [NewRecognizer m]) with
           | Ok final_result =>
               Ok (match strip (default [] final_result) with
                   | [] => []
                   | c :: r => decode_meta ext (casing_func model (c :: r))
                   end)
           | Raise e => Raise e
           end,
           with_trace w1 (trace w1 ++ [NewRecognizer m; RecognizerFinalResult]))
      | (Raise e, w1) => (Raise e, w1)
      end.
Proof.
  intros Hs. unfold transcribe_vosk. unfold bind at 1.
  destruct (vosk_model_for ext model settings w) as [[m|e] w1]; [|reflexivity].
  rewrite (vosk_feed_empty _ _ Hs).
  unfold bind, call_total, call, ret, with_trace; simpl.
  rewrite <- app_assoc. simpl.
  destruct (recognizer_final_result ext (trace w1 ++ [NewRecognizer m])) as [final|e];
    [|reflexivity].
  destruct (strip (default [] final)) as [|c r]; [reflexivity|].
  reflexivity.
Qed.

Lemma resources_for_quiet :
  (forall model settings, respects no_inference (vietasr_resources_for model settings))
  /\ (forall model settings, respects no_inference (chunkformer_resources_for model settings)).
Proof.
  split; intros model settings.
  - apply respects_bind; [exact no_inference_trans | |intros _].
    + apply vietasr_require_dependencies_quiet.
    + apply vietasr_load_resources_quiet.
  - apply respects_bind; [exact no_inference_trans | |intros _].
    + apply chunkformer_require_dependencies_quiet.
    + apply chunkformer_load_resources_quiet.
Qed.

End Runs.

(** C2 (as amended): on a stream that delivers no chunk or only empty
    chunks no backend runs an inference call, and the Whisper, VietASR and
    ChunkFormer entry points return the empty string as soon as their
    resources are there (and raise what the resource stage raises
    otherwise); the Vosk entry point still creates a recogniser and asks it
    for its final result: it returns the empty string when that result has
    no text, and otherwise [decode_meta] of the cased text of that result
    (and it raises what the model lookup or the recogniser raises). *)
Theorem empty_stream_behaviour {Enc Dec} (ext : externals Enc Dec) (model : Model)
    (settings : Settings) (stream : list (list Init.Byte.byte)) (w : world) :
  Forall (eq []) stream ->
  (transcribe_whisper ext model settings stream w
     = match whisper_transcriber_for ext model w with
       | (Ok _, w1) => (Ok [], w1)
       | (Raise e, w1) => (Raise e, w1)
       end
   /\ transcribe_vietasr ext model settings stream w
       = match vietasr_resources_for ext model settings w with
         | (Ok _, w1) => (Ok [], w1)
         | (Raise e, w1) => (Raise e, w1)
         end
   /\ transcribe_chunkformer ext model settings stream w
       = match chunkformer_resources_for ext model settings w with
         | (Ok _, w1) => (Ok [], w1)
         | (Raise e, w1) => (Raise e, w1)
         end
   /\ transcribe_vosk ext model settings stream w
       = match vosk_model_for ext model settings w with
         | (Ok m, w1) =>
             (match recognizer_final_result ext (trace w1 ++ [NewRecognizer m]) with
              | Ok final_result =>
                  Ok (match strip (default [] final_result) with
                      | [] => []
                      | c :: r => decode_meta ext (casing_func model (c :: r))
                      end)
              | Raise e => Raise e
              end,
              with_trace w1 (trace w1 ++ [NewRecognizer m; RecognizerFinalResult]))
         | (Raise e, w1) => (Raise e, w1)
         end)
  /\ no_inference w (transcribe_whisper ext model settings stream w).2
  /\ no_inference w (transcribe_vietasr ext model settings stream w).2
  /\ no_inference w (transcribe_chunkformer ext model settings stream w).2
  /\ no_inference w (transcribe_vosk ext model settings stream w).2.
Proof.
  intros Hs.
  pose proof (whisper_empty_stream ext model settings stream w Hs) as Hw.
  pose proof (vietasr_empty_stream ext model settings stream w Hs) as Hv.
  pose proof (chunkformer_empty_stream ext model settings stream w Hs) as Hc.
  pose proof (vosk_empty_stream ext model settings stream w Hs) as Hk.
  split; [auto|].
  rewrite Hw, Hv, Hc, Hk. repeat split.
  - pose proof (whisper_transcriber_for_quiet ext model w) as Hq.
    destruct (whisper_transcriber_for ext model w) as [[?|?] ?]; exact Hq.
  - pose proof (proj1 (resources_for_quiet ext) model settings w) as Hq.
    destruct (vietasr_resources_for ext model settings w) as [[?|?] ?]; exact Hq.
  - pose proof (proj2 (resources_for_quiet ext) model settings w) as Hq.
    destruct (chunkformer_resources_for ext model settings w) as [[?|?] ?]; exact Hq.
  - pose proof (vosk_model_for_quiet ext model settings w) as Hq.
    destruct (vosk_model_for ext model settings w) as [[m|?] w1]; [|exact Hq].
    simpl in *. eapply no_inference_trans; [exact Hq|].
    exists [NewRecognizer m; RecognizerFinalResult]. split; [reflexivity|].
    repeat constructor.
Qed.

Lemma empty_stream_behaviour_witness :
  (transcribe_whisper (plain_world None) vi_model some_settings [[]; []] fresh).1 = Ok []
  /\ (transcribe_vietasr bare_world vi_model some_settings [[]; []] fresh).1
     = Raise (TranscribingError
                (MissingAssets [u"/data/vi-model/cpu_jit.pt"; u"/data/vi-model/tokens.txt"]))
  /\ no_inference fresh
       (transcribe_vosk (plain_world None) vi_model some_settings [[]; []] fresh).2.
Proof.
  destruct (empty_stream_behaviour (plain_world None) vi_model some_settings [[]; []] fresh)
    as ((Hw & _) & _ & _ & _ & Hk); [repeat constructor|].
  destruct (empty_stream_behaviour bare_world vi_model some_settings [[]; []] fresh)
    as ((_ & Hv & _) & _); [repeat constructor|].
  rewrite Hw, Hv. split; [|split; [|exact Hk]]; vm_compute; reflexivity.
Defined.

(** C2 as stated fails: with an empty stream the entry points still go
    through their resource stage, and raise when the model is not there:
    the Vosk entry point for want of the model directory, the VietASR entry
    point for want of the model files. *)
Lemma empty_stream_counterexample :
  (transcribe_vosk bare_world vi_model some_settings [] fresh).1
    = Raise (TranscribingError (MissingDirectory (u"/models/vi-model")))
  /\ (transcribe_vietasr bare_world vi_model some_settings [[]] fresh).1
     = Raise (TranscribingError
                (MissingAssets [u"/data/vi-model/cpu_jit.pt"; u"/data/vi-model/tokens.txt"]))
  /\ ~ silent_on_empty_stream (transcribe_vosk bare_world)
  /\ ~ silent_on_empty_stream (transcribe_vietasr bare_world).
Proof.
  assert (H1 : (transcribe_vosk bare_world vi_model some_settings [] fresh).1
               = Raise (TranscribingError (MissingDirectory (u"/models/vi-model"))))
    by (vm_compute; reflexivity).
  assert (H2 : (transcribe_vietasr bare_world vi_model some_settings [[]] fresh).1
               = Raise (TranscribingError
                          (MissingAssets [u"/data/vi-model/cpu_jit.pt";
                                          u"/data/vi-model/tokens.txt"])))
    by (vm_compute; reflexivity).
  split; [exact H1|]. split; [exact H2|]. split.
  - intros H. destruct (H vi_model some_settings [] fresh) as [E _]; [constructor|].
    rewrite H1 in E. discriminate.
  - intros H. destruct (H vi_model some_settings [[]] fresh) as [E _];
      [repeat constructor|].
    rewrite H2 in E. discriminate.
Qed.

(** *** C8: the scratch file of the ChunkFormer backend *)

Lemma write_temp_wav_ok {Enc Dec} (ext : externals Enc Dec) audio_bytes w path w2 :
  _write_temp_wav ext audio_bytes w = (Ok path, w2) ->
  path = mkstemp ext (trace w)
  /\ path ∈ scratch_files w2
  /\ trace w2 = trace w ++ [Mkstemp path; WriteWav path].
Proof.
  unfold _write_temp_wav, bind, read, call_total, call, update, ret. simpl.
  destruct (write_wav ext _ _ audio_bytes) as [[]|e]; [|discriminate].
  intros [= <- <-]. simpl. repeat split.
  - apply elem_of_union. left. apply elem_of_singleton. reflexivity.
  - rewrite <- app_assoc. reflexivity.
Qed.

(** C8: once [_write_temp_wav] has returned the path of the scratch file,
    [transcribe_chunkformer] removes that file before it returns or raises:
    the call ends with [endless_decode] followed by [unlink], the file is
    gone, and the outcome is the finished text when [endless_decode]
    succeeds and a [TranscribingError] when it raises an [Exception]. *)
Theorem scratch_file_removed {Enc Dec} (ext : externals Enc Dec) (model : Model)
    (settings : Settings) (stream : list (list Init.Byte.byte)) (w : world)
    (resources : ChunkResources) (w1 : world) (path : str) (w2 : world) :
  chunkformer_resources_for ext model settings w = (Ok resources, w1) ->
  collect stream [] <> [] ->
  _write_temp_wav ext (collect stream []) w1 = (Ok path, w2) ->
  path ∈ scratch_files w2
  /\ exists r w',
      transcribe_chunkformer ext model settings stream w = (r, w')
      /\ (path ∉ scratch_files w')
      /\ trace w' = trace w2 ++ [EndlessDecode path; Unlink path]
      /\ r = match endless_decode ext (trace w2) (c_model resources) path with
             | Ok d => Ok (chunkformer_finish ext model d)
             | Raise e =>
                 if is_Exception e
                 then Raise (TranscribingError (DecodeFailed (code_of e)))
                 else Raise e
             end.
Proof.
  intros Hres Haudio Hwav.
  destruct (write_temp_wav_ok _ _ _ _ _ Hwav) as (_ & Hin & _).
  split; [exact Hin|].
  unfold transcribe_chunkformer. unfold Traces.chunkformer_resources_for, bind in Hres.
  unfold bind at 1.
  destruct (chunkformer_require_dependencies ext w) as [[[]|e0] w0]; [|discriminate].
  unfold bind at 1. rewrite Hres.
  destruct (collect stream []) as [|b bs] eqn:E; [contradiction|].
  unfold bind at 1. rewrite Hwav.
  unfold bind, try_finally, try_except, unlink, bind, call_total, call, update, ret, raise.
  simpl.
  destruct (endless_decode ext (trace w2) (c_model resources) path) as [d|e]; simpl.
  - eexists _, _. split; [reflexivity|]. simpl. repeat split.
    + apply not_elem_of_difference. right. apply elem_of_singleton. reflexivity.
    + rewrite <- app_assoc. reflexivity.
  - destruct (is_Exception e); simpl.
    + eexists _, _. split; [reflexivity|]. simpl. repeat split.
      * apply not_elem_of_difference. right. apply elem_of_singleton. reflexivity.
      * rewrite <- app_assoc. reflexivity.
    + eexists _, _. split; [reflexivity|]. simpl. repeat split.
      * apply not_elem_of_difference. right. apply elem_of_singleton. reflexivity.
      * rewrite <- app_assoc. reflexivity.
Qed.

Lemma scratch_file_removed_witness :
  exists r w',
    transcribe_chunkformer failing_decode vi_model some_settings
      [[Init.Byte.x01; Init.Byte.x00]] fresh = (r, w')
    /\ (u"/tmp/tmp0.wav" ∉ scratch_files w')
    /\ r = Raise (TranscribingError (DecodeFailed 7)).
Proof.
  destruct (scratch_file_removed failing_decode vi_model some_settings
              [[Init.Byte.x01; Init.Byte.x00]] fresh
              {| c_model := 4%N; c_device := 0%N |}
              (chunkformer_resources_for failing_decode vi_model some_settings fresh).2
              (u"/tmp/tmp0.wav")
              (_write_temp_wav failing_decode [Init.Byte.x01; Init.Byte.x00]
                 (chunkformer_resources_for failing_decode vi_model some_settings fresh).2).2)
    as (_ & r & w' & Hrun & Hgone & _ & Hr).
  - reflexivity.
  - discriminate.
  - reflexivity.
  - exists r, w'. repeat split; [exact Hrun | exact Hgone | exact Hr].
Defined.

(** *** C3: the resource caches *)

Lemma kept_refl {V} (cache : world -> gmap str V) key v loader w :
  kept cache key v loader w w.
Proof. intros H. split; [exact H | apply grew_by_refl]. Qed.

Lemma kept_trans {V} (cache : world -> gmap str V) key v loader w1 w2 w3 :
  kept cache key v loader w1 w2 -> kept cache key v loader w2 w3 ->
  kept cache key v loader w1 w3.
Proof.
  intros H12 H23 H1. destruct (H12 H1) as [H2 G12].
  destruct (H23 H2) as [H3 G23]. split; [exact H3|].
  eapply grew_by_trans; eassumption.
Qed.

Lemma serve_respects R entry :
  (forall w, R w w) -> (forall w1 w2 w3, R w1 w2 -> R w2 w3 -> R w1 w3) ->
  (forall model settings audio_stream, respects R (entry model settings audio_stream)) ->
  forall requests w, R w (serve entry requests w).
Proof.
  intros Hrefl Htrans Hentry requests.
  induction requests as [|[[model settings] audio_stream] rest IH]; intros w; simpl.
  - apply Hrefl.
  - eapply Htrans; [apply Hentry | apply IH].
Qed.

(** A step that leaves the entry alone: another event, or an update of
    another key. *)
Ltac kept_side :=
  let w0 := fresh "w0" in
  let Hw0 := fresh "Hw0" in
  intros w0 Hw0; split;
  [ first [ exact Hw0
          | simpl; rewrite lookup_insert_ne by assumption; exact Hw0 ]
  | first [ apply grew_by_event;
            first [ discriminate
                  | let E := fresh "E" in
                    intros [= E]; unfold path_join in E;
                    first [ contradiction | apply app_inv_tail in E; contradiction ] ]
          | apply grew_by_same_trace; reflexivity ] ].

Ltac kept_run :=
  repeat respects_step ltac:(apply kept_refl) ltac:(apply kept_trans);
  try kept_side.

Section Caches.

Context {Enc Dec : Type}.
Variable ext : externals Enc Dec.

Lemma vietasr_hit model settings w r :
  vietasr_RESOURCES w !! model_data_dir settings (id model) = Some r ->
  vietasr_load_resources ext model settings w
    = (match make_dir ext (trace w) (model_data_dir settings (id model)) with
       | Ok _ => Ok r
       | Raise e => Raise e
       end,
       with_trace w (trace w ++ [Mkdir (model_data_dir settings (id model))])).
Proof.
  intros H. unfold vietasr_load_resources, bind, call, read, ret. simpl.
  destruct (make_dir ext (trace w) _) as [[]|e]; [|reflexivity].
  simpl. rewrite H. reflexivity.
Qed.

Lemma chunkformer_hit model settings w r :
  chunkformer_RESOURCES w !! model_data_dir settings (id model) = Some r ->
  chunkformer_load_resources ext model settings w
    = (match make_dir ext (trace w) (model_data_dir settings (id model)) with
       | Ok _ => Ok r
       | Raise e => Raise e
       end,
       with_trace w (trace w ++ [Mkdir (model_data_dir settings (id model))])).
Proof.
  intros H. unfold chunkformer_load_resources, bind, call, read, ret. simpl.
  destruct (make_dir ext (trace w) _) as [[]|e]; [|reflexivity].
  simpl. rewrite H. reflexivity.
Qed.

Lemma vosk_hit model settings w m :
  vosk_installed ext = true ->
  _VOSK_MODELS w !! absolute ext (path_join (models_dir settings) (id model)) = Some m ->
  vosk_model_for ext model settings w
    = (if is_dir ext (trace w) (absolute ext (path_join (models_dir settings) (id model)))
       then Ok m
       else Raise (TranscribingError
                     (MissingDirectory
                        (absolute ext (path_join (models_dir settings) (id model))))),
       with_trace w
         (trace w ++ [IsDir (absolute ext (path_join (models_dir settings) (id model)))])).
Proof.
  intros Hi H. unfold vosk_model_for. rewrite Hi. simpl.
  unfold bind, call_total, call, read, ret, raise. simpl.
  destruct (is_dir ext (trace w) _); simpl; [|reflexivity].
  rewrite H. reflexivity.
Qed.

Lemma vietasr_load_resources_kept key r model settings :
  respects (kept vietasr_RESOURCES key r (LoadTorchScript (path_join key _CHECKPOINT_NAME)))
    (vietasr_load_resources ext model settings).
Proof.
  destruct (decide (model_data_dir settings (id model) = key)) as [<-|Hne].
  - intros w Hw. rewrite (vietasr_hit _ _ _ _ Hw). simpl. split; [exact Hw|].
    apply grew_by_event. discriminate.
  - unfold vietasr_load_resources. kept_run.
Qed.

Lemma all_exist_kept {V} (cache : world -> gmap str V) key v loader model_dir names :
  (forall p, Exists p <> loader) ->
  (forall w t, cache (with_trace w t) = cache w) ->
  respects (kept cache key v loader) (all_exist ext model_dir names).
Proof.
  intros Hev Hcache. induction names as [|name rest IH]; simpl.
  - apply respects_ret, kept_refl.
  - apply respects_bind; [apply kept_trans | |].
    + apply respects_call_total. intros w Hw. split.
      * rewrite Hcache. exact Hw.
      * apply grew_by_event, Hev.
    + intros []; [exact IH | apply respects_ret, kept_refl].
Qed.

Lemma chunkformer_load_resources_kept key r model settings :
  respects (kept chunkformer_RESOURCES key r (LoadChunkFormer key))
    (chunkformer_load_resources ext model settings).
Proof.
  destruct (decide (model_data_dir settings (id model) = key)) as [<-|Hne].
  - intros w Hw. rewrite (chunkformer_hit _ _ _ _ Hw). simpl. split; [exact Hw|].
    apply grew_by_event. discriminate.
  - unfold chunkformer_load_resources, _ensure_model_files.
    repeat first [ apply all_exist_kept; [discriminate | reflexivity]
                 | respects_step ltac:(apply kept_refl) ltac:(apply kept_trans) ];
      try kept_side.
Qed.

Lemma vosk_model_for_kept key m model settings :
  respects (kept _VOSK_MODELS key m (LoadVosk key)) (vosk_model_for ext model settings).
Proof.
  destruct (decide (absolute ext (path_join (models_dir settings) (id model)) = key))
    as [<-|Hne].
  - intros w Hw. unfold vosk_model_for.
    destruct (vosk_installed ext) eqn:Hi; simpl; [|split; [exact Hw | apply grew_by_refl]].
    pose proof (vosk_hit model settings w m Hi Hw) as Hhit.
    unfold vosk_model_for in Hhit. rewrite Hi in Hhit. simpl in Hhit.
    rewrite Hhit. simpl. split; [exact Hw|]. apply grew_by_event. discriminate.
  - unfold vosk_model_for. kept_run.
Qed.

Lemma vosk_feed_kept key m stream fragments :
  respects (kept _VOSK_MODELS key m (LoadVosk key)) (vosk_feed ext stream fragments).
Proof.
  revert fragments. induction stream as [|chunk rest IH]; intros fragments; simpl.
  - kept_run.
  - destruct chunk; [apply IH|].
    apply respects_bind; [apply kept_trans | kept_run |].
    intros []; [|apply IH].
    apply respects_bind; [apply kept_trans | kept_run |].
    intros result. destruct (strip (default [] result)); apply IH.
Qed.

Lemma transcribe_vietasr_kept key r model settings stream :
  respects (kept vietasr_RESOURCES key r (LoadTorchScript (path_join key _CHECKPOINT_NAME)))
    (transcribe_vietasr ext model settings stream).
Proof.
  unfold transcribe_vietasr, vietasr_require_dependencies.
  repeat first [ apply vietasr_load_resources_kept
               | respects_step ltac:(apply kept_refl) ltac:(apply kept_trans) ];
    try kept_side.
Qed.

Lemma transcribe_chunkformer_kept key r model settings stream :
  respects (kept chunkformer_RESOURCES key r (LoadChunkFormer key))
    (transcribe_chunkformer ext model settings stream).
Proof.
  unfold transcribe_chunkformer, chunkformer_require_dependencies, _write_temp_wav, unlink.
  repeat first [ apply chunkformer_load_resources_kept
               | respects_step ltac:(apply kept_refl) ltac:(apply kept_trans) ];
    try kept_side.
Qed.

Lemma transcribe_vosk_kept key m model settings stream :
  respects (kept _VOSK_MODELS key m (LoadVosk key))
    (transcribe_vosk ext model settings stream).
Proof.
  unfold transcribe_vosk.
  repeat first [ apply vosk_model_for_kept
               | apply vosk_feed_kept
               | respects_step ltac:(apply kept_refl) ltac:(apply kept_trans) ];
    try kept_side.
Qed.

End Caches.

(** C3 (as amended): when the model directory is already a key of the
    cache, the resource-loading call returns the cached entry and leaves
    the cache as it is, without calling the loader; the one file-system
    call it makes is the one that precedes the lookup ([mkdir] for VietASR
    and ChunkFormer, whose failure is raised; the [is_dir] check for Vosk,
    which raises when the directory is gone).  Consequently, over any
    sequence of requests, an entry once present stays the entry of its
    directory and the loader is never called for that directory again. *)
Theorem cache_hit_behaviour {Enc Dec} (ext : externals Enc Dec) (model : Model)
    (settings : Settings) (w : world) :
  (forall r,
      vietasr_RESOURCES w !! model_data_dir settings (id model) = Some r ->
      vietasr_load_resources ext model settings w
        = (match make_dir ext (trace w) (model_data_dir settings (id model)) with
           | Ok _ => Ok r
           | Raise e => Raise e
           end,
           with_trace w (trace w ++ [Mkdir (model_data_dir settings (id model))]))
      /\ forall requests,
          vietasr_RESOURCES (serve (transcribe_vietasr ext) requests w)
            !! model_data_dir settings (id model) = Some r
          /\ grew_by
               (fun ev => ev <> LoadTorchScript
                                  (path_join (model_data_dir settings (id model))
                                     _CHECKPOINT_NAME))
               w (serve (transcribe_vietasr ext) requests w))
  /\ (forall r,
        chunkformer_RESOURCES w !! model_data_dir settings (id model) = Some r ->
        chunkformer_load_resources ext model settings w
          = (match make_dir ext (trace w) (model_data_dir settings (id model)) with
             | Ok _ => Ok r
             | Raise e => Raise e
             end,
             with_trace w (trace w ++ [Mkdir (model_data_dir settings (id model))]))
        /\ forall requests,
            chunkformer_RESOURCES (serve (transcribe_chunkformer ext) requests w)
              !! model_data_dir settings (id model) = Some r
            /\ grew_by
                 (fun ev => ev <> LoadChunkFormer (model_data_dir settings (id model)))
                 w (serve (transcribe_chunkformer ext) requests w))
  /\ (forall m,
        vosk_installed ext = true ->
        _VOSK_MODELS w !! absolute ext (path_join (models_dir settings) (id model)) = Some m ->
        vosk_model_for ext model settings w
          = (if is_dir ext (trace w)
                  (absolute ext (path_join (models_dir settings) (id model)))
             then Ok m
             else Raise (TranscribingError
                           (MissingDirectory
                              (absolute ext (path_join (models_dir settings) (id model))))),
             with_trace w
               (trace w
                  ++ [IsDir (absolute ext (path_join (models_dir settings) (id model)))]))
        /\ forall requests,
            _VOSK_MODELS (serve (transcribe_vosk ext) requests w)
              !! absolute ext (path_join (models_dir settings) (id model)) = Some m
            /\ grew_by
                 (fun ev => ev <> LoadVosk
                                    (absolute ext (path_join (models_dir settings) (id model))))
                 w (serve (transcribe_vosk ext) requests w)).
Proof.
  split; [|split].
  - intros r Hr. split; [apply vietasr_hit, Hr|].
    intros requests.
    apply (serve_respects
             (kept vietasr_RESOURCES _ r (LoadTorchScript (path_join _ _CHECKPOINT_NAME))));
      [ intros; apply kept_refl
      | intros ? ? ?; apply kept_trans
      | intros; apply transcribe_vietasr_kept
      | exact Hr ].
  - intros r Hr. split; [apply chunkformer_hit, Hr|].
    intros requests.
    apply (serve_respects (kept chunkformer_RESOURCES _ r (LoadChunkFormer _)));
      [ intros; apply kept_refl
      | intros ? ? ?; apply kept_trans
      | intros; apply transcribe_chunkformer_kept
      | exact Hr ].
  - intros m Hi Hm. split; [apply vosk_hit; assumption|].
    intros requests.
    apply (serve_respects (kept _VOSK_MODELS _ m (LoadVosk _)));
      [ intros; apply kept_refl
      | intros ? ? ?; apply kept_trans
      | intros; apply transcribe_vosk_kept
      | exact Hm ].
Qed.

Lemma cache_hit_behaviour_witness :
  vietasr_load_resources (plain_world None) vi_model some_settings warm
    = (Ok loaded_resources, with_trace warm [Mkdir (u"/data/vi-model")])
  /\ vietasr_RESOURCES
       (serve (transcribe_vietasr (plain_world None))
          [(vi_model, some_settings, [[Init.Byte.x01; Init.Byte.x00]]);
           (vi_model, some_settings, [])] warm)
       !! (u"/data/vi-model") = Some loaded_resources.
Proof.
  destruct (cache_hit_behaviour (plain_world None) vi_model some_settings warm)
    as (Hv & _ & _).
  destruct (Hv loaded_resources) as [Hhit Hseq]; [vm_compute; reflexivity|].
  split.
  - rewrite Hhit. reflexivity.
  - apply (Hseq [(vi_model, some_settings, [[Init.Byte.x01; Init.Byte.x00]]);
                 (vi_model, some_settings, [])]).
Defined.

(** C3 as stated fails: on a cache hit the VietASR resource-loading call
    still calls [mkdir] on the model directory, which is a disk access. *)
Lemma cache_hit_counterexample :
  trace (vietasr_load_resources (plain_world None) vi_model some_settings warm).2
    = [Mkdir (u"/data/vi-model")]
  /\ is_disk_access (Mkdir (u"/data/vi-model")) = true
  /\ ~ hit_touches_nothing
        (vietasr_load_resources (plain_world None) vi_model some_settings)
        warm loaded_resources.
Proof.
  assert (Ht : trace (vietasr_load_resources (plain_world None) vi_model
                        some_settings warm).2 = [Mkdir (u"/data/vi-model")])
    by (vm_compute; reflexivity).
  split; [exact Ht|]. split; [reflexivity|].
  intros (w' & Hrun & new & Hnew & Hall).
  rewrite Hrun in Ht. simpl in Ht. rewrite Ht in Hnew. simpl in Hnew. subst new.
  inversion Hall as [|? ? [_ Hdisk] _]. discriminate.
Qed.

End BackendClaims.

(** ** The token table *)

Module TokenTable.

Import Py Words PyFacts VietASR TableSpec.

Section Table.

Variable py_int : str -> option Z.
Variable capacity : positive.

Local Abbreviation assignment := (TableSpec.assignment py_int).

Lemma split_strip s : split (strip s) = split s.
Proof.
  unfold strip, rstrip, lstrip.
  destruct (lstrip_by_spec isspace s) as (rm1 & H1 & A1 & _).
  destruct (rstrip_by_spec isspace (lstrip_by isspace s)) as (rm2 & H2 & A2 & _).
  set (core := rstrip_by isspace (lstrip_by isspace s)) in *.
  rewrite H1, H2. clear H1 H2.
  assert (Hlead : forall rm t, Forall (fun c => isspace c = true) rm ->
                               split_go [] (rm ++ t) = split_go [] t).
  { intros rm t Hrm. induction Hrm as [|c rm Hc _ IH]; [reflexivity|].
    simpl. rewrite Hc. exact IH. }
  assert (Htrail : forall t cur, split_go cur (t ++ rm2) = split_go cur t).
  { induction t as [|c t IH]; intros cur; simpl.
    - clear -A2. revert cur. induction A2 as [|c rm Hc _ IH]; intros cur; [reflexivity|].
      simpl. rewrite Hc. destruct cur; [apply (IH [])|].
      (* a finished token followed by trailing whitespace only *)
      f_equal. apply (IH []).
    - destruct (isspace c); [destruct cur|]; rewrite ?IH; reflexivity. }
  unfold split. rewrite Hlead by assumption. rewrite Htrail. reflexivity.
Qed.

Lemma strip_nil_split s : strip s = [] <-> split s = [].
Proof.
  split.
  - intros H. rewrite <- split_strip, H. reflexivity.
  - intros H. destruct (strip s) as [|c r] eqn:E; [reflexivity|].
    exfalso. destruct (strip_ends s) as [Hh _]. rewrite E in Hh.
    specialize (Hh c eq_refl).
    rewrite <- split_strip, E in H. unfold split in H. simpl in H.
    rewrite Hh in H.
    pose proof (split_go_app_token [] [c] r) as Hx. clear Hx.
    assert (Hne : forall cur t, cur <> [] -> split_go cur t <> []).
    { intros cur t. revert cur. induction t as [|d t IH]; intros cur Hcur; simpl.
      - destruct cur; [contradiction | discriminate].
      - destruct (isspace d); [destruct cur; [contradiction | discriminate]|].
        apply IH. discriminate. }
    apply (Hne [c] r); [discriminate | exact H].
Qed.

(** The first field of a stripped line starts with the first character of
    the line. *)
Lemma split_go_head_cur cur t first rest :
  cur <> [] -> split_go cur t = first :: rest -> head first = last cur.
Proof.
  revert cur. induction t as [|d t IH]; intros cur Hcur; simpl.
  - destruct cur as [|c0 cur0]; [contradiction|]. intros [= <- _].
    apply head_reverse.
  - destruct (isspace d).
    + destruct cur as [|c0 cur0]; [contradiction|]. intros [= <- _].
      apply head_reverse.
    + intros H. rewrite (IH (d :: cur)) by (discriminate || exact H).
      destruct cur; [contradiction | reflexivity].
Qed.

Lemma startswith_hash s :
  startswith (u"#") s = match s with c :: _ => (35 =? c)%N | [] => false end.
Proof.
  destruct s as [|c r]; [reflexivity|].
  change (u"#") with [35%N]. simpl. apply andb_true_r.
Qed.

Lemma stripped_first_field s first rest :
  split s = first :: rest ->
  startswith (u"#") (strip s) = startswith (u"#") first.
Proof.
  intros Hs. rewrite !startswith_hash.
  destruct (strip s) as [|c r] eqn:E.
  - apply strip_nil_split in E. congruence.
  - destruct (strip_ends s) as [Hh _]. rewrite E in Hh. specialize (Hh c eq_refl).
    rewrite <- split_strip, E in Hs. unfold split in Hs. simpl in Hs. rewrite Hh in Hs.
    apply split_go_head_cur in Hs; [|discriminate]. simpl in Hs.
    destruct first as [|f fs]; [discriminate|]. simpl in Hs.
    injection Hs as ->. reflexivity.
Qed.

(** One iteration of the loop makes the assignment of its line, if the
    line makes one and its padding can be made, and nothing else. *)
Lemma read_line_assignment tokens line :
  read_line py_int capacity tokens line
    = match assignment line with
      | Some a =>
          match too_large capacity (length tokens) [a] with
          | Some e => Raise e
          | None => Ok (assign tokens a)
          end
      | None => Ok tokens
      end.
Proof.
  unfold read_line, TableSpec.assignment. rewrite split_strip.
  destruct (split line) as [|first rest] eqn:Hs.
  - apply strip_nil_split in Hs. rewrite Hs. reflexivity.
  - assert (Hne : strip line <> []).
    { intros E. apply strip_nil_split in E. congruence. }
    rewrite bool_decide_eq_false_2 by exact Hne. rewrite orb_false_l.
    rewrite (stripped_first_field _ _ _ Hs).
    destruct (startswith (u"#") first); [reflexivity|].
    destruct (length (first :: rest) <? 2)%nat; [reflexivity|].
    destruct (py_int (default [] (last (first :: rest)))) as [index|]; [|reflexivity].
    destruct (Z.ltb_spec index 0) as [Hneg|Hpos]; [reflexivity|].
    unfold assign, too_large, repeat_empty. cbn [fst snd head default].
    replace (Z.of_nat (S (Z.to_nat index)) - Z.of_nat (length tokens))
      with (index + 1 - Z.of_nat (length tokens)) by lia.
    destruct (Z.geb_spec index (Z.of_nat (length tokens))) as [Hge|Hlt].
    + destruct (index + 1 - Z.of_nat (length tokens) >? sys_maxsize); [reflexivity|].
      destruct (index + 1 - Z.of_nat (length tokens) >? Z.pos capacity); [reflexivity|].
      do 4 f_equal. lia.
    + assert (Hmax : 0 < sys_maxsize) by reflexivity.
      destruct (Z.gtb_spec (index + 1 - Z.of_nat (length tokens)) sys_maxsize); [lia|].
      destruct (Z.gtb_spec (index + 1 - Z.of_nat (length tokens)) (Z.pos capacity)); [lia|].
      replace (S (Z.to_nat index) - length tokens)%nat with 0%nat by lia.
      simpl. rewrite app_nil_r. reflexivity.
Qed.







End Table.



End TokenTable.

(** ** The greedy search *)

Module GreedyClaims.

Import VietASR SearchSpec.

Section Search.

Context {Enc Dec : Type}.
Variable blank_id : Z.
Variable context_size : nat.
Variable decoder : list (list Z) -> list Dec.
Variable joiner_argmax : list Enc -> list Dec -> list Z.

Local Abbreviation emission := (SearchSpec.emission blank_id).

Local Abbreviation append_emitted := (append_emitted blank_id).
Local Abbreviation search_step := (search_step blank_id context_size decoder joiner_argmax).
Local Abbreviation search_loop := (search_loop blank_id context_size decoder joiner_argmax).
Local Abbreviation top_ids_at := (top_ids_at joiner_argmax).
Local Abbreviation top_ids_log := (top_ids_log blank_id context_size decoder joiner_argmax).
Local Abbreviation emitted_for := (emitted_for blank_id).
Local Abbreviation initial_state := (initial_state blank_id context_size decoder).
Local Abbreviation _greedy_search :=
  (_greedy_search blank_id context_size decoder joiner_argmax).

(** What the inner loop does to the hypotheses, whenever it runs through. *)
Lemma append_emitted_some top_ids : forall hyps emitted idx hyps' emitted',
  append_emitted hyps emitted idx top_ids = Some (hyps', emitted') ->
  length hyps' = length hyps
  /\ forall k,
      hyps' !! k
        = (fun h => h ++ emission (if (k <? idx)%nat then None else top_ids !! (k - idx)%nat))
            <$> hyps !! k.
Proof.
  induction top_ids as [|token_id rest IH]; intros hyps emitted idx hyps' emitted'; simpl.
  - intros [= <- <-]. split; [reflexivity|].
    intros k. destruct (hyps !! k) as [h|]; simpl; [|reflexivity].
    destruct (k <? idx)%nat; simpl; rewrite ?lookup_nil, app_nil_r; reflexivity.
  - destruct (decide (token_id <> blank_id)) as [Hne|Heq].
    + rewrite bool_decide_eq_true_2 by exact Hne.
      destruct (hyps !! idx) as [h|] eqn:Hh; [|discriminate].
      pose proof (lookup_lt_Some _ _ _ Hh) as Hidx.
      intros Hrun. destruct (IH _ _ _ _ _ Hrun) as [Hlen' Hlook].
      split; [rewrite Hlen', length_insert; reflexivity|].
      intros k. rewrite Hlook.
      destruct (decide (k = idx)) as [->|Hk].
      * rewrite list_lookup_insert_eq by lia. rewrite Hh. simpl.
        destruct (Nat.ltb_spec idx (S idx)); [|lia].
        destruct (Nat.ltb_spec idx idx); [lia|].
        rewrite Nat.sub_diag. simpl.
        rewrite bool_decide_eq_true_2 by exact Hne. simpl.
        rewrite app_nil_r. reflexivity.
      * rewrite list_lookup_insert_ne by congruence.
        destruct (hyps !! k) as [hk|]; simpl; [|reflexivity].
        destruct (Nat.ltb_spec k (S idx)), (Nat.ltb_spec k idx);
          try lia; try reflexivity.
        replace (k - idx)%nat with (S (k - S idx)) by lia. reflexivity.
    + rewrite bool_decide_eq_false_2 by exact Heq.
      intros Hrun. destruct (IH _ _ _ _ _ Hrun) as [Hlen' Hlook].
      split; [exact Hlen'|].
      intros k. rewrite Hlook.
      destruct (hyps !! k) as [hk|]; simpl; [|reflexivity].
      destruct (Nat.ltb_spec k (S idx)), (Nat.ltb_spec k idx);
        try lia; try reflexivity.
      * assert (k = idx) as -> by lia. rewrite Nat.sub_diag. simpl.
        rewrite bool_decide_eq_false_2 by exact Heq. reflexivity.
      * replace (k - idx)%nat with (S (k - S idx)) by lia. reflexivity.
Qed.

(** It runs through when there is a hypothesis for every arg-max. *)
Lemma append_emitted_runs top_ids : forall hyps emitted idx,
  (idx + length top_ids <= length hyps)%nat ->
  exists hyps' emitted', append_emitted hyps emitted idx top_ids = Some (hyps', emitted').
Proof.
  induction top_ids as [|token_id rest IH]; intros hyps emitted idx Hlen; simpl in *.
  - eauto.
  - destruct (bool_decide (token_id <> blank_id)).
    + destruct (lookup_lt_is_Some_2 hyps idx) as [h Hh]; [lia|]. rewrite Hh.
      apply IH. rewrite length_insert. lia.
    + apply IH. lia.
Qed.

Lemma search_step_some pk st current_batch st' :
  search_step pk st current_batch = Ok st' ->
  length (hyps st') = length (hyps st)
  /\ forall k,
      hyps st' !! k
        = (fun h => h ++ emission (top_ids_at pk st current_batch !! k))
            <$> hyps st !! k.
Proof.
  unfold VietASR.search_step.
  destruct (append_emitted (hyps st) false 0 (top_ids_at pk st current_batch))
    as [[hyps' emitted']|] eqn:Hrun; [|discriminate].
  destruct (append_emitted_some _ _ _ _ _ _ Hrun) as [Hlen Hlook].
  assert (Hhyps : forall k,
            hyps' !! k
              = (fun h => h ++ emission (top_ids_at pk st current_batch !! k))
                  <$> hyps st !! k).
  { intros k. rewrite Hlook. destruct (hyps st !! k); simpl; [|reflexivity].
    rewrite Nat.sub_0_r. reflexivity. }
  destruct emitted'; [destruct (rectangular _); [|discriminate]|];
    intros [= <-]; simpl; split; assumption.
Qed.

Lemma emitted_for_cons top_ids log k :
  emitted_for (top_ids :: log) k = emission (top_ids !! k) ++ emitted_for log k.
Proof.
  unfold VietASR.emitted_for, SearchSpec.emission. simpl.
  destruct (top_ids !! k) as [token_id|]; simpl; [|reflexivity].
  rewrite filter_cons. destruct (decide (token_id <> blank_id)) as [Hne|Heq].
  - rewrite bool_decide_eq_true_2 by exact Hne. reflexivity.
  - rewrite bool_decide_eq_false_2 by exact Heq. reflexivity.
Qed.

(** Whenever the loop runs through, it has extended every hypothesis by the
    non-blank arg-max ids of its element, in step order. *)
Lemma search_loop_some pk batch_size_list : forall st st',
  search_loop pk st batch_size_list = Ok st' ->
  length (hyps st') = length (hyps st)
  /\ forall k,
      hyps st' !! k
        = (fun h => h ++ emitted_for (top_ids_log pk st batch_size_list) k)
            <$> hyps st !! k.
Proof.
  induction batch_size_list as [|current_batch rest IH]; intros st st'; simpl.
  - intros [= <-]. split; [reflexivity|]. intros k.
    destruct (hyps st !! k); simpl; [rewrite app_nil_r|]; reflexivity.
  - destruct (search_step pk st current_batch) as [st1|e] eqn:Hstep; [|discriminate].
    destruct (search_step_some _ _ _ _ Hstep) as [Hlen1 Hlook1].
    intros Hloop. destruct (IH _ _ Hloop) as [Hlen' Hlook'].
    split; [congruence|].
    intros k. rewrite Hlook', Hlook1, emitted_for_cons.
    destruct (hyps st !! k); simpl; [rewrite app_assoc|]; reflexivity.
Qed.

Lemma unsort_some sorted_ans unsorted count : forall i results,
  unsort sorted_ans unsorted i count = Some results ->
  length results = count
  /\ forall j r, results !! j = Some r ->
       exists k, unsorted !! (i + j)%nat = Some k /\ sorted_ans !! k = Some r.
Proof.
  induction count as [|count IH]; intros i results; simpl.
  - intros [= <-]. split; [reflexivity|]. intros j r Hj. rewrite lookup_nil in Hj.
    discriminate.
  - destruct (unsorted !! i) as [k|] eqn:Hk; [|discriminate].
    destruct (sorted_ans !! k) as [h|] eqn:Hh; [|discriminate].
    destruct (unsort sorted_ans unsorted (S i) count) as [rest|] eqn:E; [|discriminate].
    intros [= <-]. destruct (IH _ _ E) as [Hlen Hlook]. split; [simpl; congruence|].
    intros [|j] r; simpl.
    + intros [= <-]. exists k. rewrite Nat.add_0_r. split; assumption.
    + intros Hj. destruct (Hlook _ _ Hj) as (k' & Hk' & Hr). exists k'.
      split; [|exact Hr]. rewrite <- Hk'. f_equal. lia.
Qed.

Lemma unsort_runs sorted_ans unsorted count : forall i,
  (i + count <= length unsorted)%nat ->
  Forall (fun k => (k < length sorted_ans)%nat) unsorted ->
  exists results, unsort sorted_ans unsorted i count = Some results.
Proof.
  induction count as [|count IH]; intros i Hlen Hall; simpl.
  - eauto.
  - destruct (lookup_lt_is_Some_2 unsorted i) as [k Hk]; [lia|]. rewrite Hk.
    assert (Hks : (k < length sorted_ans)%nat).
    { rewrite Forall_forall in Hall. apply Hall. eapply list_elem_of_lookup_2, Hk. }
    destruct (lookup_lt_is_Some_2 sorted_ans k Hks) as [h Hh]. rewrite Hh.
    destruct (IH (S i)) as (results & Hrun); [lia | exact Hall|].
    rewrite Hrun. eauto.
Qed.

(** Rows of one length make a tensor, and so does a single row. *)
Lemma rectangular_rows n rows :
  Forall (fun r => length r = n) rows -> rectangular rows = true.
Proof.
  destruct 1 as [|row rest Hrow Hrest]; [reflexivity|]. simpl.
  apply forallb_forall. intros r Hr. apply Nat.eqb_eq.
  rewrite Forall_forall in Hrest. rewrite Hrow. apply Hrest, list_elem_of_In, Hr.
Qed.

Lemma rectangular_single (rows : list (list Z)) :
  (length rows <= 1)%nat -> rectangular rows = true.
Proof.
  destruct rows as [|row [|? ?]]; simpl; [reflexivity | reflexivity | lia].
Qed.

Lemma last_n_length (h : list Z) :
  (0 < context_size <= length h)%nat -> length (last_n context_size h) = context_size.
Proof.
  intros Hn. unfold last_n. destruct context_size as [|n]; [lia|].
  rewrite length_drop. lia.
Qed.

(** Every hypothesis still holds its seed. *)
Local Abbreviation holds_seed :=
  (Forall (fun h : list Z => (context_size <= length h)%nat)).

(** The joiner yields at most one arg-max per row of the decoder slice. *)
Hypothesis joiner_rows : forall es ds,
  (length (joiner_argmax es ds) <= length ds)%nat.

Lemma top_ids_at_length pk st current_batch :
  (length (top_ids_at pk st current_batch) <= current_batch)%nat.
Proof.
  unfold VietASR.top_ids_at. etransitivity; [apply joiner_rows|].
  rewrite length_take. lia.
Qed.

(** A step runs through when the context is not empty, or the batch has a
    single element. *)
Lemma search_step_runs pk st current_batch :
  (current_batch <= length (hyps st))%nat ->
  holds_seed (hyps st) ->
  (0 < context_size \/ length (hyps st) <= 1)%nat ->
  exists st', search_step pk st current_batch = Ok st' /\ holds_seed (hyps st').
Proof.
  intros Hcb Hseed Hrect.
  destruct (append_emitted_runs (top_ids_at pk st current_batch) (hyps st) false 0)
    as (hyps' & emitted' & Hrun).
  { pose proof (top_ids_at_length pk st current_batch). lia. }
  destruct (append_emitted_some _ _ _ _ _ _ Hrun) as [Hlen Hlook].
  assert (Hseed' : holds_seed hyps').
  { apply Forall_lookup. intros k h' Hk. rewrite Hlook in Hk.
    destruct (hyps st !! k) as [h|] eqn:Hh; [|discriminate]. simpl in Hk.
    injection Hk as <-. rewrite Forall_lookup in Hseed. specialize (Hseed _ _ Hh).
    simpl in Hseed. rewrite length_app. lia. }
  unfold VietASR.search_step. rewrite Hrun.
  destruct emitted'; [|eexists; split; [reflexivity | exact Hseed']].
  assert (Hok : rectangular (List.map (last_n context_size) (take current_batch hyps'))
                = true).
  { destruct Hrect as [Hpos|Hone].
    - apply (rectangular_rows context_size).
      change (List.map (last_n context_size) (take current_batch hyps'))
        with (last_n context_size <$> take current_batch hyps').
      apply Forall_fmap. apply Forall_take.
      eapply Forall_impl; [exact Hseed'|]. intros h Hh. cbv beta in Hh |- *.
      unfold compose. apply last_n_length. split; [exact Hpos | exact Hh].
    - apply rectangular_single. rewrite length_map, length_take. lia. }
  rewrite Hok. eexists. split; [reflexivity | exact Hseed'].
Qed.

Lemma search_loop_runs pk batch_size_list : forall st,
  Forall (fun current_batch => (current_batch <= length (hyps st))%nat) batch_size_list ->
  holds_seed (hyps st) ->
  (0 < context_size \/ length (hyps st) <= 1)%nat ->
  exists st', search_loop pk st batch_size_list = Ok st'.
Proof.
  induction batch_size_list as [|current_batch rest IH]; intros st Hsizes Hseed Hrect; simpl.
  - eauto.
  - inversion Hsizes as [|? ? Hcb Hrest]; subst.
    destruct (search_step_runs pk st current_batch Hcb Hseed Hrect) as (st1 & Hstep & Hseed1).
    rewrite Hstep. destruct (search_step_some _ _ _ _ Hstep) as [Hlen1 _].
    apply IH; rewrite ?Hlen1; assumption.
Qed.

Lemma append_blank top_ids : forall hyps emitted idx,
  Forall (eq blank_id) top_ids ->
  append_emitted hyps emitted idx top_ids = Some (hyps, emitted).
Proof.
  induction top_ids as [|token_id rest IH]; intros hyps emitted idx Hall; simpl;
    [reflexivity|].
  inversion Hall as [|? ? <- Hrest]; subst.
  rewrite bool_decide_eq_false_2 by (intros H; apply H; reflexivity).
  apply IH, Hrest.
Qed.

(** While the decoder output is one on which the joiner answers blank, the
    loop logs blanks only. *)
Lemma blank_log pk batch_size_list : forall st,
  Forall (fun current_batch =>
            forall es, Forall (eq blank_id)
                         (joiner_argmax es (take current_batch (decoder_out st))))
         batch_size_list ->
  Forall (Forall (eq blank_id)) (top_ids_log pk st batch_size_list).
Proof.
  induction batch_size_list as [|current_batch rest IH]; intros st Hall; simpl;
    [constructor|].
  inversion Hall as [|? ? Hcb Hrest]; subst.
  constructor; [apply Hcb|].
  unfold VietASR.search_step, VietASR.top_ids_at.
  rewrite (append_blank _ _ _ _ (Hcb _)). cbv iota. apply IH. exact Hrest.
Qed.

Lemma emitted_for_blank log k :
  Forall (Forall (eq blank_id)) log -> emitted_for log k = [].
Proof.
  induction 1 as [|top_ids log Htop _ IH]; [reflexivity|].
  rewrite emitted_for_cons, IH, app_nil_r. unfold SearchSpec.emission.
  destruct (top_ids !! k) as [token_id|] eqn:E; [|reflexivity].
  rewrite Forall_forall in Htop.
  rewrite bool_decide_eq_false_2; [reflexivity|].
  intros Hne. apply Hne. symmetry. apply Htop. eapply list_elem_of_lookup_2, E.
Qed.

(** What the search returns, whenever it returns. *)
Lemma greedy_search_some (encoder_out : EncoderOut) results :
  _greedy_search encoder_out = Ok results ->
  (batch_sizes (packed encoder_out) <> [] -> length results = enc_size0 encoder_out)
  /\ forall i hypothesis,
      results !! i = Some hypothesis ->
      exists k,
        unsorted_indices (packed encoder_out) !! i = Some k
        /\ hypothesis
           = emitted_for
               (top_ids_log (packed encoder_out)
                  (initial_state (enc_size0 encoder_out))
                  (batch_sizes (packed encoder_out))) k.
Proof.
  unfold VietASR._greedy_search.
  destruct (negb (enc_dim encoder_out =? 3)%nat); [discriminate|].
  set (pk := packed encoder_out). set (batch := enc_size0 encoder_out).
  destruct (batch_sizes pk) as [|first rest] eqn:Hsizes.
  { intros [= <-]. split; [congruence|]. intros i h Hi. rewrite lookup_nil in Hi.
    discriminate. }
  destruct (negb (batch =? first)%nat); [discriminate|].
  destruct (search_loop pk (initial_state batch) (first :: rest)) as [st|e] eqn:Hloop;
    [|discriminate].
  destruct (unsort _ _ _ _) as [res|] eqn:Hun; [|discriminate].
  intros [= <-].
  destruct (search_loop_some _ _ _ _ Hloop) as [Hlen Hlook].
  destruct (unsort_some _ _ _ _ _ Hun) as [Hrlen Hrlook].
  split; [intros _; exact Hrlen|].
  intros i hypothesis Hi. destruct (Hrlook _ _ Hi) as (k & Hk & Hsorted).
  exists k. split; [exact Hk|].
  change (List.map (drop context_size) (hyps st)) with (drop context_size <$> hyps st)
    in Hsorted.
  rewrite list_lookup_fmap, Hlook in Hsorted. simpl in Hsorted.
  destruct (replicate batch (replicate context_size blank_id) !! k) as [seed|] eqn:Hseed;
    [|discriminate].
  apply lookup_replicate in Hseed as [-> _]. simpl in Hsorted.
  injection Hsorted as <-.
  apply drop_app_length'. symmetry. apply length_replicate.
Qed.

(** It returns on every well-formed encoder output when the decoder has a
    context, or the batch a single element. *)
Lemma greedy_search_runs (encoder_out : EncoderOut) :
  well_formed encoder_out ->
  (0 < context_size \/ enc_size0 encoder_out <= 1)%nat ->
  exists results, _greedy_search encoder_out = Ok results.
Proof.
  intros (Hdim & Hfirst & Hsizes & Hulen & Hubound) Hrect.
  set (pk := packed encoder_out) in *.
  set (batch := enc_size0 encoder_out) in *.
  assert (Hinit : length (hyps (initial_state batch)) = batch).
  { simpl. apply length_replicate. }
  destruct (search_loop_runs pk (batch_sizes pk) (initial_state batch))
    as (st & Hloop).
  { rewrite Hinit. exact Hsizes. }
  { simpl. apply Forall_replicate. rewrite length_replicate. lia. }
  { rewrite Hinit. exact Hrect. }
  destruct (search_loop_some _ _ _ _ Hloop) as [Hlen _].
  destruct (unsort_runs (List.map (drop context_size) (hyps st))
              (unsorted_indices pk) batch 0)
    as (results & Hunsort).
  { simpl. exact Hulen. }
  { rewrite length_map, Hlen, Hinit. exact Hubound. }
  exists results.
  unfold VietASR._greedy_search. fold pk. fold batch.
  rewrite Hdim. change (negb (3 =? 3)%nat) with false. cbv iota.
  destruct (batch_sizes pk) as [|first rest] eqn:Hbs; [discriminate|].
  simpl in Hfirst. injection Hfirst as ->.
  rewrite Nat.eqb_refl. cbn [negb]. rewrite Hloop, Hunsort. reflexivity.
Qed.

(** The one hypothesis of a single utterance. *)
Lemma greedy_search_single (encoder_out : EncoderOut) :
  well_formed encoder_out ->
  enc_size0 encoder_out = 1%nat ->
  _greedy_search encoder_out
    = Ok [emitted_for
            (top_ids_log (packed encoder_out) (initial_state 1)
               (batch_sizes (packed encoder_out))) 0].
Proof.
  intros Hwf Hb.
  destruct (greedy_search_runs encoder_out Hwf) as (results & Hrun); [lia|].
  rewrite Hrun. f_equal.
  destruct (greedy_search_some _ _ Hrun) as [Hlen Hlook].
  destruct Hwf as (_ & Hfirst & _ & _ & Hubound).
  rewrite Hb in Hlen, Hlook, Hubound.
  destruct results as [|r [|? ?]];
    [exfalso | | exfalso];
    try (specialize (Hlen ltac:(intros E; rewrite E in Hfirst; discriminate));
         discriminate).
  destruct (Hlook 0%nat r eq_refl) as (k & Hk & ->).
  assert (k = 0%nat) as ->.
  { rewrite Forall_forall in Hubound.
    pose proof (Hubound k (list_elem_of_lookup_2 _ _ _ Hk)). lia. }
  reflexivity.
Qed.

Lemma greedy_search_all_blank (encoder_out : EncoderOut) :
  well_formed encoder_out ->
  enc_size0 encoder_out = 1%nat ->
  (forall es ds, Forall (eq blank_id) (joiner_argmax es ds)) ->
  _greedy_search encoder_out = Ok [[]].
Proof.
  intros Hwf Hb Hblank. rewrite (greedy_search_single _ Hwf Hb). do 2 f_equal.
  apply emitted_for_blank, blank_log.
  apply Forall_forall. intros cb _ es. apply Hblank.
Qed.

Lemma greedy_search_one_token (encoder_out : EncoderOut) token_id :
  well_formed encoder_out ->
  enc_size0 encoder_out = 1%nat ->
  token_id <> blank_id ->
  (forall es,
      joiner_argmax es (take 1 (decoder [replicate context_size blank_id]))
        = [token_id]) ->
  (forall es,
      joiner_argmax es
        (take 1 (decoder [last_n context_size
                            (replicate context_size blank_id ++ [token_id])]))
        = [blank_id]) ->
  _greedy_search encoder_out = Ok [[token_id]].
Proof.
  intros Hwf Hb Hne Hone Hthen.
  rewrite (greedy_search_single _ Hwf Hb). do 2 f_equal.
  destruct Hwf as (_ & Hfirst & Hsizes & _ & _).
  set (pk := packed encoder_out) in *.
  destruct (batch_sizes pk) as [|first rest] eqn:Hbs; [discriminate|].
  simpl in Hfirst. injection Hfirst as ->. rewrite Hb in Hsizes |- *.
  cbn [VietASR.top_ids_log]. rewrite emitted_for_cons.
  assert (Htop : top_ids_at pk (initial_state 1) 1 = [token_id]).
  { unfold VietASR.top_ids_at. simpl. apply Hone. }
  rewrite Htop. simpl. rewrite bool_decide_eq_true_2 by exact Hne. simpl.
  f_equal. unfold VietASR.search_step. rewrite Htop.
  simpl. rewrite bool_decide_eq_true_2 by exact Hne. simpl.
  apply emitted_for_blank, blank_log. simpl.
  inversion Hsizes as [|? ? _ Hrest]; subst.
  eapply Forall_impl; [exact Hrest|]. intros cb Hcb es. simpl in Hcb.
  destruct cb as [|[|cb]]; [| |lia].
  + match goal with
    | |- Forall _ (joiner_argmax ?e ?d) =>
        pose proof (joiner_rows e d) as Hr; destruct (joiner_argmax e d)
    end; [constructor | simpl in Hr; lia].
  + rewrite Hthen. repeat constructor.
Qed.

End Search.

(** C5: whenever the search returns on an encoder output, it returns one
    hypothesis per batch element, and the hypothesis of element [i] is
    exactly the non-blank arg-max ids logged for its sorted position, in
    step order, without the [context_size] blanks it was seeded with.
    With a joiner that yields at most one arg-max per row of the decoder
    slice, it returns on every well-formed encoder output (rank 3, a
    packed sequence whose batch sizes start with the batch size and never
    exceed it, and a permutation that stays within the batch) when the
    context size is not zero or the batch has a single element; and for a
    single element, a joiner that answers blank at every step gives the
    empty hypothesis, and a joiner that answers one non-blank id on the
    initial decoder state and blank on the state that follows gives the
    hypothesis made of that id. *)
Theorem greedy_search_hypotheses {Enc Dec : Type} (blank_id : Z) (context_size : nat)
    (decoder : list (list Z) -> list Dec)
    (joiner_argmax : list Enc -> list Dec -> list Z) (encoder_out : EncoderOut) :
  let search := _greedy_search blank_id context_size decoder joiner_argmax in
  (forall results,
      search encoder_out = Ok results ->
      (batch_sizes (packed encoder_out) <> [] -> length results = enc_size0 encoder_out)
      /\ forall i hypothesis,
          results !! i = Some hypothesis ->
          exists k,
            unsorted_indices (packed encoder_out) !! i = Some k
            /\ hypothesis
               = emitted_for blank_id
                   (top_ids_log blank_id context_size decoder joiner_argmax
                      (packed encoder_out)
                      (initial_state blank_id context_size decoder
                         (enc_size0 encoder_out))
                      (batch_sizes (packed encoder_out))) k)
  /\ ((forall es ds, (length (joiner_argmax es ds) <= length ds)%nat) ->
      well_formed encoder_out ->
      ((0 < context_size \/ enc_size0 encoder_out <= 1)%nat ->
       exists results, search encoder_out = Ok results)
      /\ (enc_size0 encoder_out = 1%nat ->
          (forall es ds, Forall (eq blank_id) (joiner_argmax es ds)) ->
          search encoder_out = Ok [[]])
      /\ (forall token_id,
            enc_size0 encoder_out = 1%nat ->
            token_id <> blank_id ->
            (forall es,
                joiner_argmax es (take 1 (decoder [replicate context_size blank_id]))
                  = [token_id]) ->
            (forall es,
                joiner_argmax es
                  (take 1 (decoder [last_n context_size
                                      (replicate context_size blank_id ++ [token_id])]))
                  = [blank_id]) ->
            search encoder_out = Ok [[token_id]])).
Proof.
  cbv zeta. split.
  - intros results. apply greedy_search_some.
  - intros Hrows Hwf. split; [|split].
    + apply greedy_search_runs; assumption.
    + apply greedy_search_all_blank; assumption.
    + intros token_id. apply greedy_search_one_token; assumption.
Qed.

Lemma greedy_search_hypotheses_witness :
  _greedy_search 0 2 context_decoder once_joiner three_frames = Ok [[7]]
  /\ exists k,
       unsorted_indices (packed three_frames) !! 0%nat = Some k
       /\ [7] = emitted_for 0
                  (top_ids_log 0 2 context_decoder once_joiner (packed three_frames)
                     (initial_state 0 2 context_decoder (enc_size0 three_frames))
                     (batch_sizes (packed three_frames))) k.
Proof.
  destruct (greedy_search_hypotheses 0 2 context_decoder once_joiner three_frames)
    as (Hsome & Hruns).
  destruct Hruns as (_ & _ & Hone).
  - intros es [|d ds]; simpl; [lia|]. destruct (bool_decide (d = [0; 0])); simpl; lia.
  - repeat split; simpl; try lia; repeat constructor.
  - assert (Hrun : _greedy_search 0 2 context_decoder once_joiner three_frames = Ok [[7]]).
    { apply (Hone 7); [reflexivity | discriminate | |]; intros es; reflexivity. }
    split; [exact Hrun|].
    apply (proj2 (Hsome [[7]] Hrun) 0%nat [7] eq_refl).
Defined.

(** With no context the rows handed to the decoder are whole hypotheses:
    two utterances of which only the first has emitted make a ragged
    list, which [torch.tensor] refuses. *)
Lemma greedy_search_ragged :
  _greedy_search 0 0 context_decoder first_only_joiner two_utterances = Raise ValueError.
Proof. reflexivity. Qed.

End GreedyClaims.

(** ** Normalising twice: the tokens *)

Module Renormalize.

Import Py Words PyFacts ViNormalize ViFacts.

Lemma should_convert_head after number_value :
  should_convert after number_value = convert_before (head after) number_value.
Proof.
  unfold should_convert, convert_before.
  destruct (mem (default [] (head after)) _NUMBER_FOLLOWERS) eqn:E; [reflexivity|].
  assert (Hphan : bool_decide (default [] (head after) = u"phần") = false).
  { apply bool_decide_eq_false. intros Heq. rewrite Heq in E. vm_compute in E.
    discriminate. }
  rewrite Hphan. simpl andb.
  assert (Hnil : bool_decide (after = []) = bool_decide (head after = None)).
  { apply bool_decide_ext. destruct after; simpl; split; congruence. }
  rewrite Hnil. reflexivity.
Qed.

Lemma head_fmap {A B} (g : A -> B) (l : list A) : head (g <$> l) = g <$> head l.
Proof. destruct l; reflexivity. Qed.

(** Facts about the run of number words at the head of a list. *)
Lemma number_run_app pre more :
  Forall (fun t => mem t _NUMBER_TOKENS = true) pre ->
  (forall t, head more = Some t -> mem t _NUMBER_TOKENS = false) ->
  number_run (pre ++ more) = pre /\ drop (length pre) (pre ++ more) = more.
Proof.
  intros Hpre Hmore. induction Hpre as [|t pre Ht _ IH]; simpl.
  - split; [|reflexivity]. destruct more as [|m more']; [reflexivity|].
    simpl. rewrite (Hmore m eq_refl). reflexivity.
  - rewrite Ht. destruct IH as [-> ->]. split; reflexivity.
Qed.

Lemma norm_head prev rest :
  (forall t, head rest = Some t -> mem t _NUMBER_TOKENS = false) ->
  head (norm prev rest) = head rest.
Proof.
  destruct rest as [|t r]; [reflexivity|]. intros H.
  rewrite norm_other by (apply H; reflexivity). reflexivity.
Qed.

Lemma norm_nil_iff prev rest : norm prev rest = [] <-> rest = [].
Proof.
  split; [|intros ->; reflexivity].
  destruct rest as [|t r]; [reflexivity|]. intros H. exfalso. revert H.
  destruct (mem t _NUMBER_TOKENS) eqn:E.
  - rewrite norm_number by exact E. cbv zeta. destruct (accept _ _ _ _); discriminate.
  - rewrite norm_other by exact E. discriminate.
Qed.

(** The shape of the output on the run at the head of the input: either
    the whole run is copied, or a prefix of it is copied and a numeral
    follows. *)
Lemma norm_shape rest : forall prev,
  (exists prev',
      norm prev rest
        = number_run rest ++ norm prev' (drop (length (number_run rest)) rest))
  \/ (exists pre z more,
         norm prev rest = pre ++ str_of_int z :: more
         /\ Forall (fun t => mem t _NUMBER_TOKENS = true) pre).
Proof.
  induction rest as [|t r IH]; intros prev.
  - left. exists prev. reflexivity.
  - destruct (mem t _NUMBER_TOKENS) eqn:E.
    + rewrite norm_number by exact E. cbv zeta.
      destruct (accept _ _ _ _).
      * right. exists [], (default 0 (_words_to_number (number_run (t :: r)))), (norm
          (default [] (last (number_run (t :: r))))
          (drop (length (number_run (t :: r))) (t :: r))).
        split; [reflexivity | constructor].
      * destruct (IH t) as [(prev' & Hs) | (pre & z & more & Hs & Hpre)].
        -- left. exists prev'. rewrite Hs, (number_run_cons _ _ E). reflexivity.
        -- right. exists (t :: pre), z, more. rewrite Hs. split; [reflexivity|].
           constructor; assumption.
    + left. exists prev. simpl. rewrite E. reflexivity.
Qed.

Section TokenMap.

(** A map on tokens that leaves the special words alone and makes no new
    ones. *)
Variable f : str -> str.
Hypothesis f_special : forall t, special t = true -> f t = t.
Hypothesis f_other : forall t, special t = false -> special (f t) = false.

Lemma f_is x t : special x = true -> f t = x <-> t = x.
Proof.
  intros Hx. split; [|intros ->; apply f_special, Hx].
  intros Hf. destruct (special t) eqn:E.
  - rewrite <- Hf. symmetry. apply f_special, E.
  - apply f_other in E. congruence.
Qed.

Lemma f_number t : mem (f t) _NUMBER_TOKENS = mem t _NUMBER_TOKENS.
Proof.
  destruct (special t) eqn:E; [rewrite f_special by exact E; reflexivity|].
  pose proof (f_other _ E) as E'. unfold special in *.
  apply orb_false_elim in E as [-> _]. apply orb_false_elim in E' as [-> _].
  reflexivity.
Qed.

Lemma f_follower t : mem (f t) _NUMBER_FOLLOWERS = mem t _NUMBER_FOLLOWERS.
Proof.
  destruct (special t) eqn:E; [rewrite f_special by exact E; reflexivity|].
  pose proof (f_other _ E) as E'. unfold special in *.
  apply orb_false_elim in E as [_ ->]. apply orb_false_elim in E' as [_ ->].
  reflexivity.
Qed.

Lemma f_numbers toks :
  Forall (fun t => mem t _NUMBER_TOKENS = true) toks -> f <$> toks = toks.
Proof.
  induction 1 as [|t toks Ht _ IH]; [reflexivity|].
  rewrite fmap_cons, IH. f_equal. apply f_special. unfold special. rewrite Ht.
  reflexivity.
Qed.

Lemma convert_before_f next number_value :
  next <> Some [] ->
  convert_before (f <$> next) number_value = convert_before next number_value.
Proof.
  intros Hnext. unfold convert_before. destruct next as [t|]; simpl; [|reflexivity].
  rewrite f_follower.
  destruct (mem t _NUMBER_FOLLOWERS); [reflexivity|].
  assert (Hr : bool_decide (f t = u"rưỡi") = bool_decide (t = u"rưỡi")).
  { apply bool_decide_ext. apply f_is. vm_compute. reflexivity. }
  rewrite Hr. reflexivity.
Qed.

Lemma accept_prev p1 p2 run number_value convert :
  (p1 = u"phần" <-> p2 = u"phần") ->
  accept p2 run number_value convert = accept p1 run number_value convert.
Proof.
  intros H. unfold accept. destruct number_value; [|reflexivity].
  do 3 f_equal. apply bool_decide_ext. symmetry. exact H.
Qed.

Lemma numeral_not_special z : special (str_of_int z) = false.
Proof.
  unfold special. rewrite str_of_int_not_number. simpl.
  apply mem_false. intros Hin.
  assert (Hl : forallb starts_with_letter _NUMBER_FOLLOWERS = true)
    by (vm_compute; reflexivity).
  rewrite forallb_forall in Hl. apply list_elem_of_In in Hin.
  specialize (Hl _ Hin).
  destruct (str_of_int_chars z) as [Hne Hch].
  destruct (str_of_int z) as [|c r]; [contradiction|].
  inversion Hch; subst. simpl in Hl. apply N.leb_le in Hl. lia.
Qed.

(** A second pass over the (mapped) output of a first pass changes
    nothing. *)
Lemma norm_again n : forall rest p1 p2,
  (length rest <= n)%nat ->
  Forall is_token rest ->
  ((exists t, head rest = Some t /\ mem t _NUMBER_TOKENS = true) ->
   (p1 = u"phần" <-> p2 = u"phần")) ->
  norm p2 (f <$> norm p1 rest) = f <$> norm p1 rest.
Proof.
  induction n as [|n IH]; intros rest p1 p2 Hlen Htok Hprev.
  { destruct rest; [reflexivity | simpl in Hlen; lia]. }
  destruct rest as [|tok rest']; [reflexivity|].
  simpl in Hlen. inversion Htok as [|? ? Htok1 Htok']; subst.
  assert (Hstep : forall p, norm p (f <$> tok :: norm tok rest')
                            = f tok :: norm (f tok) (f <$> norm tok rest') ->
                            norm p (f <$> tok :: norm tok rest')
                            = f <$> tok :: norm tok rest').
  { intros p Hp. rewrite Hp, fmap_cons. f_equal. apply IH; [lia | exact Htok'|].
    intros _. symmetry. apply f_is. vm_compute. reflexivity. }
  destruct (mem tok _NUMBER_TOKENS) eqn:E.
  - (* a number word *)
    pose proof (norm_shape (tok :: rest') p1) as Hshape.
    rewrite norm_number in Hshape |- * by exact E. cbv zeta in Hshape |- *.
    set (run := number_run (tok :: rest')) in *.
    set (after := drop (length run) (tok :: rest')) in *.
    assert (Hafter : forall t, head after = Some t -> mem t _NUMBER_TOKENS = false)
      by apply number_run_stops.
    assert (Hafter_tok : Forall is_token after) by (apply Forall_drop; exact Htok).
    destruct (accept p1 run (_words_to_number run)
                (should_convert after (_words_to_number run))) eqn:Hacc.
    + (* the run was replaced by a numeral *)
      rewrite fmap_cons, norm_other.
      * f_equal. apply IH; [|exact Hafter_tok|].
        -- unfold after, run. rewrite (number_run_cons _ _ E). simpl.
           rewrite length_drop. lia.
        -- intros (t & Ht & Hnum). rewrite (Hafter t Ht) in Hnum. discriminate.
      * rewrite f_number. apply str_of_int_not_number.
    + (* the first word of the run was copied *)
      apply Hstep. rewrite fmap_cons, (f_special tok)
        by (unfold special; rewrite E; reflexivity).
      rewrite norm_number by exact E. cbv zeta.
      match goal with
      | |- (if ?c then _ else _) = _ => assert (Hno : c = false)
      end; [|rewrite Hno; reflexivity].
      destruct Hshape as [(prev' & Hs) | (pre & z & more & Hs & Hpre)].
      * (* the whole run was copied *)
        assert (Hrun : Forall (fun t => mem t _NUMBER_TOKENS = true) run)
          by apply number_run_all.
        assert (Hout : tok :: (f <$> norm tok rest') = run ++ (f <$> norm prev' after)).
        { transitivity (f <$> tok :: norm tok rest').
          - rewrite fmap_cons. f_equal. symmetry. apply f_special.
            unfold special. rewrite E. reflexivity.
          - rewrite Hs, fmap_app, (f_numbers _ Hrun). reflexivity. }
        rewrite Hout.
        destruct (number_run_app run (f <$> norm prev' after) Hrun) as [Hr Hd].
        { intros t Ht. rewrite head_fmap in Ht.
          rewrite norm_head in Ht by exact Hafter.
          destruct (head after) as [a|] eqn:Ha; [|discriminate].
          injection Ht as <-. rewrite f_number. apply Hafter. reflexivity. }
        rewrite Hr, Hd, should_convert_head, head_fmap.
        rewrite norm_head by exact Hafter.
        rewrite convert_before_f.
        -- rewrite <- should_convert_head. rewrite <- Hacc.
           apply accept_prev, Hprev. exists tok. split; [reflexivity | exact E].
        -- intros Ha. destruct after as [|a after']; [discriminate|].
           simpl in Ha. injection Ha as ->.
           inversion Hafter_tok as [|? ? [Hne _] _]. contradiction.
      * (* a later part of the run was replaced by a numeral *)
        assert (Hout : tok :: (f <$> norm tok rest')
                       = pre ++ f (str_of_int z) :: (f <$> more)).
        { transitivity (f <$> tok :: norm tok rest').
          - rewrite fmap_cons. f_equal. symmetry. apply f_special.
            unfold special. rewrite E. reflexivity.
          - rewrite Hs, fmap_app, fmap_cons, (f_numbers _ Hpre). reflexivity. }
        rewrite Hout.
        destruct (number_run_app pre (f (str_of_int z) :: (f <$> more)) Hpre) as [Hr Hd].
        { intros t [= <-]. rewrite f_number. apply str_of_int_not_number. }
        rewrite Hr, Hd, should_convert_head.
        change (head (f (str_of_int z) :: (f <$> more))) with (Some (f (str_of_int z))).
        assert (Hcb : convert_before (Some (f (str_of_int z))) (_words_to_number pre)
                      = false).
        { pose proof (f_other _ (numeral_not_special z)) as Hsp.
          unfold special in Hsp. apply orb_false_elim in Hsp as [_ Hfol].
          unfold convert_before. simpl default. rewrite Hfol.
          rewrite bool_decide_eq_false_2; [reflexivity|].
          intros Heq. rewrite Heq in Hfol. vm_compute in Hfol. discriminate. }
        rewrite Hcb. unfold accept. destruct (_words_to_number pre); reflexivity.
  - (* any other word *)
    rewrite norm_other by exact E. apply Hstep.
    rewrite fmap_cons. apply norm_other. rewrite f_number. exact E.
Qed.

End TokenMap.

(** The loop is idempotent on tokens. *)
Lemma normalize_tokens_idempotent tokens :
  Forall is_token tokens ->
  normalize_tokens (normalize_tokens tokens) = normalize_tokens tokens.
Proof.
  intros Htok. rewrite !normalize_tokens_norm.
  pose proof (norm_again id (fun _ _ => eq_refl) (fun _ H => H)
                (length tokens) tokens [] [] (le_n _) Htok
                (fun _ => conj (fun H => H) (fun H => H))) as H.
  rewrite list_fmap_id in H. exact H.
Qed.

End Renormalize.

(** ** Normalising twice: the substitutions *)

Module Rewriting.

Import Py Words PyFacts.

Lemma clash_free_spec p new : clash_free p new = true -> no_clash p new.
Proof.
  unfold clash_free, no_clash. rewrite !andb_true_iff, !forallb_forall, negb_true_iff.
  intros [[Hne Hp] Hn]. repeat split.
  - apply bool_decide_eq_false in Hne. exact Hne.
  - intros i Hi. apply negb_true_iff, Hp, in_seq. lia.
  - intros j Hj. apply negb_true_iff, Hn, in_seq. lia.
Qed.

Lemma startswith_app_agree p x y : startswith p (x ++ y) = true -> agree p x = true.
Proof.
  revert x. induction p as [|a p IH]; intros x; [destruct x; reflexivity|].
  destruct x as [|b x]; [reflexivity|]. simpl.
  rewrite !andb_true_iff. intros [Hab Hrest]. split; [exact Hab | apply IH, Hrest].
Qed.

Lemma startswith_spec old s : startswith old s = true <-> s = old ++ drop (length old) s.
Proof.
  revert s. induction old as [|a old IH]; intros s; simpl.
  - split; reflexivity.
  - destruct s as [|b s]; [split; discriminate|].
    rewrite andb_true_iff, N.eqb_eq, IH. simpl. split.
    + intros [-> H]. f_equal. exact H.
    + intros [= -> H]. split; [reflexivity | exact H].
Qed.

Lemma startswith_nil p : p <> [] -> startswith p [] = false.
Proof. destruct p; [contradiction | reflexivity]. Qed.

Lemma contains_nil p : p <> [] -> contains p [] = false.
Proof. apply startswith_nil. Qed.

Lemma contains_cons p c r :
  contains p (c :: r) = false <-> startswith p (c :: r) = false /\ contains p r = false.
Proof. simpl contains. apply orb_false_iff. Qed.

Lemma contains_drop p s k : contains p s = false -> contains p (drop k s) = false.
Proof.
  revert s. induction k as [|k IH]; intros s H; [rewrite drop_0; exact H|].
  destruct s as [|c r]; [exact H|]. simpl. apply IH.
  apply contains_cons in H. apply H.
Qed.

Lemma contains_app_r p x s : contains p (x ++ s) = false -> contains p s = false.
Proof.
  intros H. rewrite <- (drop_app_length x s). apply contains_drop, H.
Qed.

Lemma contains_startswith p s :
  p <> [] -> contains p s = false -> startswith p s = false.
Proof.
  intros Hp H. destruct s; [apply startswith_nil, Hp|].
  apply contains_cons in H. apply H.
Qed.

(** An occurrence of [old] holds every character of [old]. *)
Lemma startswith_chars old s c : startswith old s = true -> c ∈ old -> c ∈ s.
Proof.
  intros H Hc. apply startswith_spec in H. rewrite H. apply elem_of_app. left. exact Hc.
Qed.

Lemma contains_chars old s c : c ∈ old -> c ∉ s -> contains old s = false.
Proof.
  intros Hc. induction s as [|d r IH]; intros Hs.
  - apply contains_nil. intros ->. inversion Hc.
  - apply contains_cons. split.
    + destruct (startswith old (d :: r)) eqn:E; [|reflexivity].
      exfalso. apply Hs. eapply startswith_chars; eassumption.
    + apply IH. intros Hin. apply Hs. right. exact Hin.
Qed.

Section Free.

Variable p : str.
Variable ok : str -> str -> Prop.
Hypothesis p_nonempty : p <> [].
Hypothesis ok_no_clash : forall old new, ok old new -> no_clash p new.

(** Where an end of [p] starts in the output, it starts in the input. *)
Lemma rewrites_match s o :
  rewrites p ok s o ->
  forall i, (i < length p)%nat ->
            startswith (drop i p) o = true -> startswith (drop i p) s = true.
Proof.
  induction 1 as [|c s o Hside Hrw IH|old new s o Hok Hrw IH]; intros i Hi Hm.
  - exact Hm.
  - destruct (drop i p) as [|x q] eqn:Hq.
    { apply (f_equal length) in Hq. rewrite length_drop in Hq. simpl in Hq. lia. }
    simpl in Hm |- *. apply andb_true_iff in Hm as [Hx Hq'].
    rewrite Hx. simpl.
    assert (Hq2 : q = drop (S i) p).
    { replace (S i) with (i + 1)%nat by lia. rewrite <- drop_drop, Hq. reflexivity. }
    destruct (decide (S i < length p)%nat) as [Hlt|Hge].
    + rewrite Hq2. apply IH; [exact Hlt|]. rewrite <- Hq2. exact Hq'.
    + assert (q = []) as ->; [|reflexivity].
      rewrite Hq2. apply drop_ge. lia.
  - exfalso. apply startswith_app_agree in Hm.
    destruct (ok_no_clash _ _ Hok) as (_ & Hp & _).
    rewrite (Hp i Hi) in Hm. discriminate.
Qed.

Lemma contains_inserted new o :
  (forall j, (j < length new)%nat -> agree p (drop j new) = false) ->
  contains p o = false -> contains p (new ++ o) = false.
Proof.
  induction new as [|n new IH]; intros Hnew Ho; [exact Ho|].
  change ((n :: new) ++ o) with (n :: (new ++ o)).
  apply contains_cons. split.
  - destruct (startswith p (n :: new ++ o)) eqn:E; [|reflexivity].
    change (n :: new ++ o) with ((n :: new) ++ o) in E.
    apply startswith_app_agree in E.
    pose proof (Hnew 0%nat ltac:(simpl; lia)) as H0. rewrite drop_0 in H0.
    congruence.
  - apply IH; [|exact Ho]. intros j Hj. apply (Hnew (S j)). simpl. lia.
Qed.

(** The output of such a rewriting has no occurrence of [p]. *)
Lemma rewrites_free s o : rewrites p ok s o -> contains p o = false.
Proof.
  intros Hrw. pose proof (rewrites_match s o Hrw) as Hmatch.
  induction Hrw as [|c s o Hside Hrw IH|old new s o Hok Hrw IH].
  - apply contains_nil, p_nonempty.
  - apply contains_cons. split.
    + destruct (startswith p (c :: o)) eqn:E; [|reflexivity].
      rewrite <- Hside. symmetry.
      apply (Hmatch 0%nat); [destruct p; [contradiction | simpl; lia]|].
      rewrite drop_0. exact E.
    + apply IH. apply rewrites_match. exact Hrw.
  - destruct (ok_no_clash _ _ Hok) as (_ & _ & Hn).
    apply contains_inserted; [exact Hn|]. apply IH. apply rewrites_match. exact Hrw.
Qed.

End Free.

(** Keeping a prefix in which [p] does not start. *)
Lemma rewrites_keep_prefix p ok x s o :
  contains p (x ++ s) = false ->
  rewrites p ok s o -> rewrites p ok (x ++ s) (x ++ o).
Proof.
  intros Hx Hrw. induction x as [|c x IH]; [exact Hrw|].
  simpl in *. apply contains_cons in Hx as [H1 H2].
  apply rw_keep; [exact H1 | apply IH, H2].
Qed.

(** *** [str.replace] as a rewriting *)

Lemma replace_go_skip old new s : forall k,
  replace_go old new k s = replace_go old new 0 (drop k s).
Proof.
  induction s as [|c r IH]; intros k.
  - rewrite drop_nil. destruct k; reflexivity.
  - destruct k as [|k]; [reflexivity|]. simpl. apply IH.
Qed.

Lemma replace_go_match old new s :
  old <> [] ->
  replace_go old new 0 (old ++ s) = new ++ replace_go old new 0 s.
Proof.
  intros Hold. destruct old as [|a old]; [contradiction|].
  assert (Hm : startswith (a :: old) ((a :: old) ++ s) = true).
  { apply startswith_spec. rewrite drop_app_length. reflexivity. }
  change ((a :: old) ++ s) with (a :: (old ++ s)) in *.
  cbn [replace_go]. rewrite Hm. f_equal.
  rewrite replace_go_skip. simpl. rewrite Nat.sub_0_r, drop_app_length. reflexivity.
Qed.

Lemma replace_go_keep old new c r :
  startswith old (c :: r) = false ->
  replace_go old new 0 (c :: r) = c :: replace_go old new 0 r.
Proof. intros H. cbn [replace_go]. rewrite H. reflexivity. Qed.

Lemma replace_as_go old new s : old <> [] -> replace old new s = replace_go old new 0 s.
Proof. destruct old; [contradiction | reflexivity]. Qed.

Lemma replace_go_rewrites p old new n :
  old <> [] ->
  forall s,
    (length s <= n)%nat ->
    (forall k, startswith old (drop k s) = false -> startswith p (drop k s) = false) ->
    rewrites p (fun o nw => o = old /\ nw = new) s (replace_go old new 0 s).
Proof.
  intros Hold. induction n as [|n IH]; intros s Hlen Hside.
  { destruct s; [constructor | simpl in Hlen; lia]. }
  destruct s as [|c r]; [constructor|].
  destruct (startswith old (c :: r)) eqn:E.
  - apply startswith_spec in E. rewrite E.
    rewrite replace_go_match by exact Hold.
    apply rw_subst; [split; reflexivity|].
    apply IH.
    + rewrite length_drop. simpl in *. destruct old; [contradiction|]. simpl. lia.
    + intros k. rewrite !drop_drop. apply Hside.
  - rewrite replace_go_keep by exact E.
    apply rw_keep; [apply (Hside 0%nat), E|].
    apply IH; [simpl in Hlen; lia|]. intros k. apply (Hside (S k)).
Qed.

(** The replacement of [old], seen from [old] itself and from a pattern
    that does not occur in the input. *)
Lemma replace_rewrites_self old new s :
  old <> [] ->
  rewrites old (fun o nw => o = old /\ nw = new) s (replace old new s).
Proof.
  intros Hold. rewrite replace_as_go by exact Hold.
  apply (replace_go_rewrites old old new (length s) Hold s (le_n _)). auto.
Qed.

Lemma replace_rewrites_other p old new s :
  old <> [] -> p <> [] -> contains p s = false ->
  rewrites p (fun o nw => o = old /\ nw = new) s (replace old new s).
Proof.
  intros Hold Hp Hs. rewrite replace_as_go by exact Hold.
  apply (replace_go_rewrites p old new (length s) Hold s (le_n _)).
  intros k _. apply contains_startswith; [exact Hp|]. apply contains_drop, Hs.
Qed.

Lemma replace_removes old new s :
  old <> [] -> clash_free old new = true -> contains old (replace old new s) = false.
Proof.
  intros Hold Hcf.
  apply (rewrites_free old (fun o nw => o = old /\ nw = new) Hold) with (s := s).
  - intros o nw [_ ->]. apply clash_free_spec, Hcf.
  - apply replace_rewrites_self, Hold.
Qed.

Lemma replace_creates_none p old new s :
  old <> [] -> p <> [] -> clash_free p new = true ->
  contains p s = false -> contains p (replace old new s) = false.
Proof.
  intros Hold Hp Hcf Hs.
  apply (rewrites_free p (fun o nw => o = old /\ nw = new) Hp) with (s := s).
  - intros o nw [_ ->]. apply clash_free_spec, Hcf.
  - apply replace_rewrites_other; assumption.
Qed.

Lemma replace_absent old new s :
  old <> [] -> contains old s = false -> replace old new s = s.
Proof.
  intros Hold. rewrite replace_as_go by exact Hold.
  induction s as [|c r IH]; intros Hs; [reflexivity|].
  apply contains_cons in Hs as [H1 H2].
  rewrite replace_go_keep by exact H1. f_equal. apply IH, H2.
Qed.

(** What a replacement does to the characters. *)
Lemma rewrites_unchanged p old new s o c :
  rewrites p (fun o nw => o = old /\ nw = new) s o ->
  c ∈ new -> c ∉ o -> o = s.
Proof.
  intros Hrw Hc. induction Hrw as [|d s o _ _ IH|old' new' s o [-> ->] _ IH]; intros Ho.
  - reflexivity.
  - f_equal. apply IH. intros Hin. apply Ho. right. exact Hin.
  - exfalso. apply Ho. apply elem_of_app. left. exact Hc.
Qed.

Lemma rewrites_chars p old new s o (P : N -> Prop) :
  rewrites p (fun o nw => o = old /\ nw = new) s o ->
  Forall P new -> Forall P s -> Forall P o.
Proof.
  intros Hrw Hnew. induction Hrw as [|d s o _ _ IH|old' new' s o [-> ->] _ IH]; intros Hs.
  - constructor.
  - inversion Hs; subst. constructor; auto.
  - apply Forall_app in Hs as [_ Hs]. apply Forall_app. split; auto.
Qed.

Lemma rewrites_nonempty p old new s o :
  rewrites p (fun o nw => o = old /\ nw = new) s o ->
  new <> [] -> s <> [] -> o <> [].
Proof.
  intros Hrw Hnew. destruct Hrw as [|d s o _ _|old' new' s o [-> ->] _]; intros Hs.
  - contradiction.
  - discriminate.
  - destruct new; [contradiction | discriminate].
Qed.

(** A replacement does not see across a space that is not part of
    [old]. *)
Lemma startswith_before_space old t s :
  32%N ∉ old -> old <> [] ->
  startswith old (t ++ 32%N :: s) = startswith old t.
Proof.
  revert t. induction old as [|a old IH]; intros t Hsp Hne; [contradiction|].
  destruct t as [|b t]; simpl.
  - destruct (N.eqb_spec a 32) as [->|_]; [|reflexivity].
    exfalso. apply Hsp. left.
  - destruct old as [|a' old'].
    + destruct t; reflexivity.
    + rewrite IH; [reflexivity | | discriminate].
      intros Hin. apply Hsp. right. exact Hin.
Qed.

Lemma replace_go_at_space old new s :
  old <> [] -> 32%N ∉ old ->
  replace_go old new 0 (32%N :: s) = 32%N :: replace_go old new 0 s.
Proof.
  intros Hold Hsp. apply replace_go_keep.
  pose proof (startswith_before_space old [] s Hsp Hold) as H0.
  change ([] ++ 32%N :: s) with (32%N :: s) in H0. rewrite H0.
  apply startswith_nil, Hold.
Qed.

Lemma replace_go_space old new n :
  old <> [] -> 32%N ∉ old ->
  forall t s, (length t <= n)%nat ->
    replace_go old new 0 (t ++ 32%N :: s)
      = replace_go old new 0 t ++ 32%N :: replace_go old new 0 s.
Proof.
  intros Hold Hsp. induction n as [|n IH]; intros t s Hlen.
  - destruct t; [|simpl in Hlen; lia].
    apply (replace_go_at_space old new s Hold Hsp).
  - destruct t as [|c r]; [apply (replace_go_at_space old new s Hold Hsp)|].
    destruct (startswith old (c :: r)) eqn:E.
    + apply startswith_spec in E. rewrite E, <- app_assoc.
      rewrite !replace_go_match by exact Hold.
      rewrite IH, app_assoc; [reflexivity|].
      rewrite length_drop. simpl in *. destruct old; [contradiction|]. simpl. lia.
    + change ((c :: r) ++ 32%N :: s) with (c :: (r ++ 32%N :: s)).
      rewrite !replace_go_keep.
      * rewrite IH by (simpl in Hlen; lia). reflexivity.
      * exact E.
      * change (c :: r ++ 32%N :: s) with ((c :: r) ++ 32%N :: s).
        rewrite startswith_before_space by assumption. exact E.
Qed.

Lemma replace_join old new toks :
  old <> [] -> 32%N ∉ old ->
  replace old new (join [32%N] toks) = join [32%N] (replace old new <$> toks).
Proof.
  intros Hold Hsp. rewrite replace_as_go by exact Hold.
  induction toks as [|t toks IH]; [reflexivity|].
  destruct toks as [|t' toks'].
  - simpl. symmetry. apply replace_as_go, Hold.
  - change (join [32%N] (t :: t' :: toks')) with (t ++ 32%N :: join [32%N] (t' :: toks')).
    rewrite (replace_go_space old new (length t) Hold Hsp) by lia.
    rewrite IH, <- replace_as_go by exact Hold. reflexivity.
Qed.

(** *** Texts whose tokens are separated by single spaces *)

Lemma spaced_token t s b :
  t <> [] -> Forall (fun c => isspace c = false) t ->
  spaced b (t ++ s) = spaced true s.
Proof.
  intros Hne Ht. revert b. induction Ht as [|c t Hc Ht IH]; intros b; [contradiction|].
  simpl. rewrite Hc. destruct t as [|c' t']; [reflexivity|].
  apply IH. discriminate.
Qed.

Lemma spaced_join toks b :
  Forall is_token toks -> toks <> [] -> spaced b (join [32%N] toks) = true.
Proof.
  intros Htoks. revert b. induction Htoks as [|t toks [Hne Hns] Hrest IH]; intros b Hnil;
    [contradiction|].
  destruct toks as [|t' toks'].
  - simpl. rewrite <- (app_nil_r t), spaced_token by assumption. reflexivity.
  - change (join [32%N] (t :: t' :: toks')) with (t ++ 32%N :: join [32%N] (t' :: toks')).
    rewrite spaced_token by assumption. simpl. apply IH. discriminate.
Qed.

Lemma spaced_split s : forall cur,
  spaced (match cur with [] => false | _ => true end) s = true ->
  join [32%N] (split_go cur s) = reverse cur ++ s.
Proof.
  induction s as [|c r IH]; intros cur H; simpl in *.
  - destruct cur; [discriminate|]. simpl. rewrite app_nil_r. reflexivity.
  - destruct (isspace c) eqn:Hc.
    + apply andb_true_iff in H as [H Hr]. apply andb_true_iff in H as [Hcur H32].
      apply N.eqb_eq in H32. subst c.
      destruct cur as [|c0 cur0]; [discriminate|].
      pose proof (IH [] Hr) as Hrest. simpl in Hrest.
      destruct (split_go [] r) as [|y l] eqn:Hsplit.
      * simpl in Hrest. subst r. discriminate.
      * change (join [32%N] (reverse (c0 :: cur0) :: y :: l))
          with (reverse (c0 :: cur0) ++ 32%N :: join [32%N] (y :: l)).
        rewrite Hrest. reflexivity.
    + rewrite (IH (c :: cur) H), reverse_cons, <- app_assoc. reflexivity.
Qed.

Lemma normalized_spaced s : normalized s <-> s = [] \/ spaced false s = true.
Proof.
  unfold normalized. change (u" ") with [32%N]. split.
  - intros H. destruct (split s) as [|t toks] eqn:E.
    + left. rewrite <- H. reflexivity.
    + right. rewrite <- H. apply spaced_join; [|discriminate].
      rewrite <- E. apply split_tokens.
  - intros [->|H]; [reflexivity|]. apply (spaced_split s [] H).
Qed.

Lemma spaced_after old s b :
  (exists c, last old = Some c /\ isspace c = false) ->
  spaced b (old ++ s) = true -> spaced true s = true.
Proof.
  intros (c & Hlast & Hc). revert b.
  induction old as [|o old IH]; intros b H; [discriminate|].
  destruct old as [|o' old'].
  - simpl in Hlast. injection Hlast as ->. simpl in H. rewrite Hc in H. exact H.
  - change (last (o :: o' :: old')) with (last (o' :: old')) in Hlast.
    simpl in H. destruct (isspace o).
    + apply andb_true_iff in H as [_ H]. apply (IH Hlast false). exact H.
    + apply (IH Hlast true). exact H.
Qed.

(** A rewriting whose replaced pieces end in a token character and whose
    new pieces are pieces of tokens keeps the spacing. *)
Lemma rewrites_spaced p ok s o :
  (forall old new, ok old new ->
     (exists c, last old = Some c /\ isspace c = false)
     /\ new <> [] /\ Forall (fun c => isspace c = false) new) ->
  rewrites p ok s o ->
  forall b, spaced b s = true -> spaced b o = true.
Proof.
  intros Hok. induction 1 as [|c s o _ _ IH|old new s o Hon _ IH]; intros b H.
  - exact H.
  - simpl in *. destruct (isspace c).
    + apply andb_true_iff in H as [H1 H2]. rewrite H1. simpl. apply IH, H2.
    + apply IH, H.
  - destruct (Hok _ _ Hon) as (Hlast & Hne & Hns).
    rewrite spaced_token by assumption. apply IH.
    eapply spaced_after; eassumption.
Qed.

Lemma replace_normalized old new s :
  old <> [] ->
  (exists c, last old = Some c /\ isspace c = false) ->
  new <> [] -> Forall (fun c => isspace c = false) new ->
  normalized s -> normalized (replace old new s).
Proof.
  intros Hold Hlast Hne Hns Hs. apply normalized_spaced in Hs as [->|Hs].
  - rewrite replace_as_go by exact Hold. reflexivity.
  - apply normalized_spaced. right.
    apply (rewrites_spaced old (fun o nw => o = old /\ nw = new) s).
    + intros o nw [-> ->]. auto.
    + apply replace_rewrites_self, Hold.
    + exact Hs.
Qed.

End Rewriting.

(** ** Normalising twice: the transcript *)

Module TranscriptClaims.

Import Py Words PyFacts ViNormalize ViFacts Renormalize Rewriting.

(** *** Numerals *)

Lemma dict_get_in d word v : dict_get d word = Some v -> exists k, (k, v) ∈ d.
Proof.
  induction d as [|[k v'] d IH]; simpl; [discriminate|].
  destruct (bool_decide (k = word)).
  - intros [= ->]. exists k. left.
  - intros H. destruct (IH H) as [k' Hk]. exists k'. right. exact Hk.
Qed.

Lemma units_nonneg word v : dict_get _NUMBER_UNITS word = Some v -> 0 <= v.
Proof.
  intros H. destruct (dict_get_in _ _ _ H) as [k Hk].
  assert (Hall : Forall (fun kv : str * Z => 0 <= kv.2) _NUMBER_UNITS).
  { unfold _NUMBER_UNITS. repeat constructor; simpl; lia. }
  rewrite Forall_forall in Hall. apply (Hall _ Hk).
Qed.

Lemma words_loop_nonneg words : forall total value_set v,
  0 <= total -> words_loop words total value_set = Some v -> 0 <= v.
Proof.
  induction words as [|word rest IH]; intros total value_set v Ht; cbn [words_loop].
  - destruct value_set; [intros [= <-]; exact Ht | intros Hnone; discriminate Hnone].
  - destruct (bool_decide (word = u"mười")).
    { apply IH. destruct (total =? 0); lia. }
    destruct (bool_decide (word = u"mươi")).
    { apply IH. destruct (total =? 0); lia. }
    destruct (mem word [u"linh"; u"lẻ"]).
    { apply IH. destruct (total =? 0); lia. }
    destruct (bool_decide (word = u"trăm")).
    { apply IH. destruct (total =? 0); lia. }
    destruct (dict_get _NUMBER_UNITS word) as [unit|] eqn:E;
      [|intros Hnone; discriminate Hnone].
    apply units_nonneg in E.
    destruct ((total >=? 10) || value_set); apply IH; lia.
Qed.

Lemma words_to_number_nonneg words v : _words_to_number words = Some v -> 0 <= v.
Proof.
  unfold _words_to_number. destruct words; [intros Hnone; discriminate Hnone|].
  apply words_loop_nonneg. lia.
Qed.

Lemma str_of_nonneg v :
  0 <= v -> str_of_int v <> [] /\ Forall is_digit (str_of_int v).
Proof.
  intros Hv. split; [apply str_of_int_chars|].
  destruct v as [|p|p]; simpl; [|apply digits_of_uint_digits | lia].
  repeat constructor; unfold is_digit; lia.
Qed.

(** A pattern without digits and a numeral cannot overlap. *)
Lemma agree_heads a b x y : a <> b -> agree (a :: x) (b :: y) = false.
Proof. intros H. simpl. destruct (N.eqb_spec a b); [contradiction | reflexivity]. Qed.

Lemma numeral_no_clash p new :
  p <> [] -> Forall (fun c => ~ is_digit c) p ->
  new <> [] -> Forall is_digit new -> no_clash p new.
Proof.
  intros Hpne Hp Hne Hnew. split; [exact Hne|]. split.
  - intros i Hi.
    destruct (drop i p) as [|a x] eqn:E.
    { apply (f_equal length) in E. rewrite length_drop in E. simpl in E. lia. }
    destruct new as [|b y]; [contradiction|].
    apply agree_heads. intros ->.
    assert (Hin : b ∈ p).
    { rewrite <- (take_drop i p), E. apply elem_of_app. right. left. }
    rewrite Forall_forall in Hp. apply (Hp b Hin).
    inversion Hnew; assumption.
  - intros j Hj.
    destruct (drop j new) as [|b y] eqn:E.
    { apply (f_equal length) in E. rewrite length_drop in E. simpl in E. lia. }
    destruct p as [|a x]; [contradiction|].
    apply agree_heads. intros ->.
    inversion Hp as [|? ? Ha _]; subst. apply Ha.
    assert (Hin : b ∈ new).
    { rewrite <- (take_drop j new), E. apply elem_of_app. right. left. }
    rewrite Forall_forall in Hnew. apply (Hnew b Hin).
Qed.

(** *** The number normaliser as a rewriting of the text *)

Lemma join_cons t rest : join [32%N] (t :: rest) = t ++ tail_join rest.
Proof. destruct rest; simpl; [rewrite app_nil_r|]; reflexivity. Qed.

Lemma join_app run after :
  run <> [] -> join [32%N] (run ++ after) = join [32%N] run ++ tail_join after.
Proof.
  induction run as [|t run IH]; intros Hne; [contradiction|].
  destruct run as [|t' run'].
  - simpl app. rewrite join_cons. reflexivity.
  - change ((t :: t' :: run') ++ after) with (t :: ((t' :: run') ++ after)).
    rewrite join_cons.
    change (tail_join ((t' :: run') ++ after))
      with (32%N :: join [32%N] ((t' :: run') ++ after)).
    rewrite IH by discriminate.
    change (join [32%N] (t :: t' :: run')) with (t ++ 32%N :: join [32%N] (t' :: run')).
    rewrite <- app_assoc. reflexivity.
Qed.

Lemma accept_value prev run number_value convert :
  accept prev run number_value convert = true -> exists v, number_value = Some v.
Proof. unfold accept. destruct number_value as [v|]; [eauto | discriminate]. Qed.

Lemma norm_rewrites p n : forall toks prev,
  (length toks <= n)%nat ->
  contains p (join [32%N] toks) = false ->
  rewrites p by_numeral (join [32%N] toks) (join [32%N] (norm prev toks)).
Proof.
  induction n as [|n IH]; intros toks prev Hlen Hfree.
  { destruct toks; [constructor | simpl in Hlen; lia]. }
  destruct toks as [|tok rest]; [constructor|]. simpl in Hlen.
  assert (Htail : forall l prev',
            (length l <= n)%nat -> contains p (tail_join l) = false ->
            rewrites p by_numeral (tail_join l) (tail_join (norm prev' l))).
  { intros l prev' Hl Hc. destruct l as [|t l']; [constructor|].
    destruct (norm prev' (t :: l')) as [|t2 l2] eqn:E.
    { apply norm_nil_iff in E. discriminate. }
    rewrite <- E. unfold tail_join at 1. simpl tail_join in Hc.
    change (tail_join (norm prev' (t :: l')))
      with (match norm prev' (t :: l') with
            | [] => []
            | _ => 32%N :: join [32%N] (norm prev' (t :: l'))
            end).
    rewrite E at 1.
    apply contains_cons in Hc as [Hc1 Hc2].
    apply rw_keep; [exact Hc1|]. apply IH; [exact Hl | exact Hc2]. }
  assert (Hcopy : rewrites p by_numeral (join [32%N] (tok :: rest))
                    (join [32%N] (tok :: norm tok rest))).
  { rewrite !join_cons. apply rewrites_keep_prefix.
    - rewrite <- join_cons. exact Hfree.
    - apply Htail; [lia|]. rewrite join_cons in Hfree.
      eapply contains_app_r, Hfree. }
  destruct (mem tok _NUMBER_TOKENS) eqn:E; [|rewrite norm_other by exact E; exact Hcopy].
  rewrite norm_number by exact E. cbv zeta.
  set (run := number_run (tok :: rest)) in *.
  set (after := drop (length run) (tok :: rest)) in *.
  destruct (accept prev run (_words_to_number run)
              (should_convert after (_words_to_number run))) eqn:Hacc; [|exact Hcopy].
  destruct (accept_value _ _ _ _ Hacc) as [v Hv]. rewrite Hv. simpl default.
  assert (Hsplit : tok :: rest = run ++ after) by apply number_run_prefix.
  assert (Hrun : run <> []).
  { unfold run. rewrite (number_run_cons _ _ E). discriminate. }
  rewrite Hsplit in Hfree |- *. rewrite join_app in Hfree |- * by exact Hrun.
  rewrite join_cons. apply rw_subst.
  - apply str_of_nonneg. apply (words_to_number_nonneg _ _ Hv).
  - apply Htail.
    + apply (f_equal length) in Hsplit. rewrite length_app in Hsplit. simpl in Hsplit.
      destruct run; [contradiction|]. simpl in Hsplit. lia.
    + eapply contains_app_r, Hfree.
Qed.

(** The number normaliser creates no occurrence of a pattern without
    digits in a text with single spaces. *)
Lemma numbers_create_none p s :
  p <> [] -> Forall (fun c => ~ is_digit c) p ->
  normalized s -> contains p s = false ->
  contains p (normalize_vietnamese_numbers s) = false.
Proof.
  intros Hp Hnd Hs Hfree. unfold normalize_vietnamese_numbers.
  destruct (split s) as [|t toks] eqn:E; [exact Hfree|].
  change (u" ") with [32%N]. rewrite normalize_tokens_norm.
  apply (rewrites_free p by_numeral Hp) with (s := join [32%N] (t :: toks)).
  - intros old new [Hne Hd]. apply numeral_no_clash; assumption.
  - apply (norm_rewrites p (length (t :: toks))); [lia|].
    rewrite <- E. unfold normalized in Hs. change (u" ") with [32%N] in Hs.
    rewrite Hs. exact Hfree.
Qed.

Lemma numbers_of_normalized s :
  normalized s ->
  normalize_vietnamese_numbers s = join [32%N] (normalize_tokens (split s)).
Proof.
  intros Hs. unfold normalize_vietnamese_numbers.
  destruct (split s) eqn:E; [|reflexivity].
  unfold normalized in Hs. rewrite E in Hs. rewrite <- Hs. reflexivity.
Qed.

Lemma numbers_of_joined toks :
  Forall is_token toks ->
  normalize_vietnamese_numbers (join [32%N] toks) = join [32%N] (normalize_tokens toks).
Proof.
  intros Htoks. rewrite numbers_of_normalized.
  - rewrite split_join by exact Htoks. reflexivity.
  - unfold normalized. change (u" ") with [32%N].
    rewrite split_join by exact Htoks. reflexivity.
Qed.

(** [normalize_vietnamese_numbers] is idempotent on every text. *)
Lemma normalize_numbers_idempotent s :
  normalize_vietnamese_numbers (normalize_vietnamese_numbers s)
    = normalize_vietnamese_numbers s.
Proof.
  destruct (split s) as [|t toks] eqn:E.
  - assert (H : normalize_vietnamese_numbers s = s)
      by (unfold normalize_vietnamese_numbers; rewrite E; reflexivity).
    rewrite !H. reflexivity.
  - assert (H : normalize_vietnamese_numbers s
                = join [32%N] (normalize_tokens (t :: toks)))
      by (unfold normalize_vietnamese_numbers; rewrite E; reflexivity).
    assert (Htoks : Forall is_token (t :: toks)) by (rewrite <- E; apply split_tokens).
    rewrite H, numbers_of_joined by (apply normalize_loop_tokens, Htoks).
    rewrite normalize_tokens_idempotent by exact Htoks. reflexivity.
Qed.

(** *** Chains of replacements *)

Lemma transcript_stages text :
  normalize_vietnamese_transcript text
    = apply_all cancellations (normalize_vietnamese_numbers (apply_all substitutions text)).
Proof. reflexivity. Qed.

Lemma apply_all_creates_none p subs :
  p <> [] ->
  Forall (fun on : str * str => on.1 <> [] /\ clash_free p on.2 = true) subs ->
  forall s, contains p s = false -> contains p (apply_all subs s) = false.
Proof.
  intros Hp. induction 1 as [|[old new] subs [Hold Hcf] _ IH]; intros s Hs; [exact Hs|].
  simpl. apply IH. apply replace_creates_none; assumption.
Qed.

Lemma apply_all_removes pre old new post s :
  old <> [] -> clash_free old new = true ->
  Forall (fun on : str * str => on.1 <> [] /\ clash_free old on.2 = true) post ->
  contains old (apply_all (pre ++ (old, new) :: post) s) = false.
Proof.
  intros Hold Hcf Hpost. unfold apply_all. rewrite fold_left_app. simpl.
  apply (apply_all_creates_none old post Hold Hpost).
  apply replace_removes; assumption.
Qed.

Lemma apply_all_absent subs s :
  Forall (fun on : str * str => on.1 <> [] /\ contains on.1 s = false) subs ->
  apply_all subs s = s.
Proof.
  induction 1 as [|[old new] subs [Hold Habs] _ IH]; [reflexivity|].
  simpl. rewrite replace_absent by assumption. exact IH.
Qed.

Lemma apply_all_normalized subs s :
  Forall (fun on : str * str =>
            on.1 <> [] /\ (exists c, last on.1 = Some c /\ isspace c = false)
            /\ on.2 <> [] /\ Forall (fun c => isspace c = false) on.2) subs ->
  normalized s -> normalized (apply_all subs s).
Proof.
  intros Hsubs. revert s.
  induction Hsubs as [|[old new] subs (Hold & Hlast & Hne & Hns) _ IH]; intros s Hs;
    [exact Hs|].
  simpl. apply IH. apply replace_normalized; assumption.
Qed.

Lemma apply_all_join subs toks :
  Forall (fun on : str * str => on.1 <> [] /\ 32%N ∉ on.1) subs ->
  apply_all subs (join [32%N] toks) = join [32%N] (apply_all subs <$> toks).
Proof.
  intros Hsubs. revert toks.
  induction Hsubs as [|[old new] subs [Hold Hsp] _ IH]; intros toks.
  - simpl. rewrite list_fmap_id. reflexivity.
  - simpl. rewrite replace_join by assumption. rewrite IH, <- list_fmap_compose.
    reflexivity.
Qed.

(** *** The patterns of the transcript normaliser *)

#[local] Arguments apply_all : simpl never.

Ltac by_computation :=
  first [ vm_compute; reflexivity
        | vm_compute; discriminate
        | apply bool_decide_unpack; vm_compute; exact I
        | vm_compute; solve [repeat constructor]
        | let H := fresh in
          intros H; apply (bool_decide_pack _) in H; vm_compute in H; exact H ].

Ltac checked_list :=
  repeat first [ apply Forall_nil_2 | apply Forall_cons_2 ];
  repeat match goal with
         | |- _ /\ _ => split
         | |- exists c, last _ = Some c /\ _ => eexists; split; [reflexivity|]
         end;
  try by_computation.

Lemma substituted_normalized s : normalized s -> normalized (apply_all substitutions s).
Proof.
  apply apply_all_normalized. unfold substitutions. checked_list.
Qed.

Lemma substituted_free s :
  Forall (fun on : str * str => contains on.1 (apply_all substitutions s) = false)
         substitutions.
Proof.
  unfold substitutions at 2. repeat apply Forall_cons_2; [| | | | |apply Forall_nil_2].
  - apply (apply_all_removes [] (u"tivi") (u"tv")
             [ (u"ti vi", u"tv"); (u"ti-vi", u"tv"); (u"ti. vi", u"tv");
               (u"ga ra", u"gara") ]); checked_list.
  - apply (apply_all_removes [ (u"tivi", u"tv") ] (u"ti vi") (u"tv")
             [ (u"ti-vi", u"tv"); (u"ti. vi", u"tv"); (u"ga ra", u"gara") ]);
      checked_list.
  - apply (apply_all_removes [ (u"tivi", u"tv"); (u"ti vi", u"tv") ] (u"ti-vi") (u"tv")
             [ (u"ti. vi", u"tv"); (u"ga ra", u"gara") ]); checked_list.
  - apply (apply_all_removes [ (u"tivi", u"tv"); (u"ti vi", u"tv"); (u"ti-vi", u"tv") ]
             (u"ti. vi") (u"tv") [ (u"ga ra", u"gara") ]); checked_list.
  - apply (apply_all_removes
             [ (u"tivi", u"tv"); (u"ti vi", u"tv"); (u"ti-vi", u"tv"); (u"ti. vi", u"tv") ]
             (u"ga ra") (u"gara") []); checked_list.
Qed.

Lemma cancelled_free s :
  Forall (fun on : str * str => contains on.1 (apply_all cancellations s) = false)
         cancellations.
Proof.
  unfold cancellations at 2. repeat apply Forall_cons_2; [| |apply Forall_nil_2].
  - apply (apply_all_removes [] (u"hủy") (u"huỷ") [ (u"Hủy", u"Huỷ") ]); checked_list.
  - apply (apply_all_removes [ (u"hủy", u"huỷ") ] (u"Hủy") (u"Huỷ") []); checked_list.
Qed.

(** The cancellation spellings on one token. *)
Lemma special_plain t : special t = true -> (7911%N ∉ t) /\ (7927%N ∉ t).
Proof.
  intros Hsp.
  assert (Hall : forallb (fun w => negb (bool_decide (7911%N ∈ w))
                                   && negb (bool_decide (7927%N ∈ w)))
                         (_NUMBER_TOKENS ++ _NUMBER_FOLLOWERS) = true)
    by (vm_compute; reflexivity).
  rewrite forallb_forall in Hall.
  assert (Hin : In t (_NUMBER_TOKENS ++ _NUMBER_FOLLOWERS)).
  { apply in_app_iff. unfold special in Hsp. apply orb_true_iff in Hsp.
    destruct Hsp as [H|H]; apply mem_true, list_elem_of_In in H; auto. }
  specialize (Hall _ Hin). apply andb_true_iff in Hall as [H1 H2].
  apply negb_true_iff, bool_decide_eq_false in H1, H2. split; assumption.
Qed.

Lemma cancel_special t : special t = true -> normalize_cancellation_terms t = t.
Proof.
  intros Hsp. destruct (special_plain t Hsp) as [Hu _].
  apply (apply_all_absent cancellations). unfold cancellations.
  repeat apply Forall_cons_2; [| |apply Forall_nil_2]; simpl; split;
    try by_computation;
    apply (contains_chars _ _ 7911%N); [by_computation | exact Hu | by_computation | exact Hu].
Qed.

Lemma replace_without old new t c :
  old <> [] -> c ∈ new -> c ∉ replace old new t -> replace old new t = t.
Proof.
  intros Hold Hc Hnot.
  eapply rewrites_unchanged; [apply replace_rewrites_self, Hold | exact Hc | exact Hnot].
Qed.

Lemma cancel_other t : special t = false -> special (normalize_cancellation_terms t) = false.
Proof.
  intros Hsp. destruct (special (normalize_cancellation_terms t)) eqn:E; [|reflexivity].
  destruct (special_plain _ E) as [_ Hy]. unfold normalize_cancellation_terms in Hy, E.
  assert (H2 : replace (u"Hủy") (u"Huỷ") (replace (u"hủy") (u"huỷ") t)
               = replace (u"hủy") (u"huỷ") t).
  { apply (replace_without _ _ _ 7927%N); [by_computation | by_computation | exact Hy]. }
  rewrite H2 in Hy, E.
  assert (H1 : replace (u"hủy") (u"huỷ") t = t).
  { apply (replace_without _ _ _ 7927%N); [by_computation | by_computation | exact Hy]. }
  rewrite H1 in E. congruence.
Qed.

Lemma replace_token old new t :
  old <> [] -> new <> [] -> Forall (fun c => isspace c = false) new ->
  is_token t -> is_token (replace old new t).
Proof.
  intros Hold Hne Hns [Ht Hts].
  pose proof (replace_rewrites_self old new t Hold) as Hrw. split.
  - eapply rewrites_nonempty; eassumption.
  - eapply rewrites_chars; eassumption.
Qed.

Lemma cancel_token t : is_token t -> is_token (normalize_cancellation_terms t).
Proof.
  intros Ht. unfold normalize_cancellation_terms.
  apply replace_token; [by_computation | by_computation | checked_list|].
  apply replace_token; [by_computation | by_computation | checked_list | exact Ht].
Qed.

Lemma cancel_join toks :
  normalize_cancellation_terms (join [32%N] toks)
    = join [32%N] (normalize_cancellation_terms <$> toks).
Proof.
  apply (apply_all_join cancellations). unfold cancellations.
  repeat apply Forall_cons_2; [| |apply Forall_nil_2]; simpl; split; by_computation.
Qed.

Lemma pattern_without_digits :
  Forall (fun on : str * str => on.1 <> [] /\ Forall (fun c => ~ is_digit c) on.1)
         substitutions.
Proof.
  unfold substitutions. repeat apply Forall_cons_2; [| | | | |apply Forall_nil_2];
    (split; [by_computation|]); vm_compute;
    repeat constructor; intros [H1 H2]; vm_compute in H1, H2; congruence.
Qed.

(** The normalised transcript of a text with single spaces holds none of
    the patterns the literal substitutions look for. *)
Lemma transcript_free s :
  normalized s ->
  Forall (fun on : str * str =>
            on.1 <> [] /\ contains on.1 (normalize_vietnamese_transcript s) = false)
         substitutions.
Proof.
  intros Hs. rewrite transcript_stages.
  pose proof (substituted_free s) as Hfree.
  pose proof (substituted_normalized s Hs) as Hnorm.
  pose proof pattern_without_digits as Hdig.
  rewrite Forall_forall in Hfree, Hdig. apply Forall_forall. intros [old new] Hin.
  destruct (Hdig _ Hin) as [Hold Hnd]. split; [exact Hold|]. cbn [fst snd] in *.
  apply apply_all_creates_none; [exact Hold | |].
  - clear -Hin. unfold substitutions in Hin. unfold cancellations.
    repeat match goal with
           | H : _ ∈ _ :: _ |- _ => apply elem_of_cons in H as [H|H]
           | H : _ ∈ [] |- _ => inversion H
           | H : (_, _) = (_, _) |- _ => injection H as -> ->
           end; checked_list.
  - apply numbers_create_none; [exact Hold | exact Hnd | exact Hnorm|].
    apply (Hfree _ Hin).
Qed.

(** C6 (as amended): on a text whose tokens are separated by single
    spaces, with no other whitespace, applying the transcript normaliser
    twice gives the same result as applying it once. *)
Theorem transcript_idempotent (s : str) :
  join (u" ") (split s) = s ->
  normalize_vietnamese_transcript (normalize_vietnamese_transcript s)
    = normalize_vietnamese_transcript s.
Proof.
  intros Hs. change (normalized s) in Hs.
  pose proof (transcript_free s Hs) as Hfree.
  set (y := apply_all substitutions s).
  assert (Hy : normalized y) by (apply substituted_normalized, Hs).
  assert (Htoks : Forall is_token (split y)) by apply split_tokens.
  assert (Hz : normalize_vietnamese_transcript s
               = join [32%N] (normalize_cancellation_terms <$> normalize_tokens (split y))).
  { rewrite transcript_stages. fold y.
    rewrite (numbers_of_normalized y Hy). apply cancel_join. }
  rewrite (transcript_stages (normalize_vietnamese_transcript s)).
  rewrite (apply_all_absent substitutions) by exact Hfree.
  rewrite Hz.
  assert (Hout : Forall is_token (normalize_cancellation_terms <$> normalize_tokens (split y))).
  { apply Forall_fmap. eapply Forall_impl; [apply normalize_loop_tokens, Htoks|].
    intros t Ht. apply cancel_token, Ht. }
  rewrite (numbers_of_joined _ Hout), normalize_tokens_norm.
  rewrite (normalize_tokens_norm (split y)).
  rewrite (norm_again normalize_cancellation_terms cancel_special cancel_other
             (length (split y)) (split y) [] [] (le_n _) Htoks
             (fun _ => conj (fun H => H) (fun H => H))).
  rewrite <- (normalize_tokens_norm (split y)), <- Hz.
  change (apply_all cancellations (normalize_vietnamese_transcript s)
          = normalize_vietnamese_transcript s).
  apply apply_all_absent.
  rewrite transcript_stages.
  pose proof (cancelled_free (normalize_vietnamese_numbers (apply_all substitutions s)))
    as Hc.
  rewrite Forall_forall in Hc. apply Forall_forall. intros [old new] Hin.
  split; [|apply (Hc _ Hin)].
  clear -Hin. unfold cancellations in Hin.
  repeat match goal with
         | H : _ ∈ _ :: _ |- _ => apply elem_of_cons in H as [H|H]
         | H : _ ∈ [] |- _ => inversion H
         | H : (_, _) = (_, _) |- _ => injection H as -> ->
         end; by_computation.
Qed.

Lemma transcript_idempotent_witness :
  normalize_vietnamese_transcript (normalize_vietnamese_transcript (u"hủy ti vi mười lăm phút"))
    = normalize_vietnamese_transcript (u"hủy ti vi mười lăm phút")
  /\ normalize_vietnamese_transcript (u"hủy ti vi mười lăm phút") = u"huỷ tv 15 phút".
Proof.
  split.
  - apply (transcript_idempotent (u"hủy ti vi mười lăm phút")). vm_compute. reflexivity.
  - vm_compute. reflexivity.
Defined.

(** C6 as stated fails: "ti  vi", with two spaces, is first normalised to
    "ti vi" (the number pass rejoins the tokens with single spaces after the
    literal substitutions have run), and "ti vi" is normalised to "tv". *)
Lemma transcript_idempotent_counterexample :
  normalize_vietnamese_transcript (u"ti  vi") = u"ti vi"
  /\ normalize_vietnamese_transcript (normalize_vietnamese_transcript (u"ti  vi")) = u"tv"
  /\ normalize_vietnamese_transcript (normalize_vietnamese_transcript (u"ti  vi"))
     <> normalize_vietnamese_transcript (u"ti  vi").
Proof. vm_compute. repeat split. discriminate. Qed.

End TranscriptClaims.

(** ** The number words *)

Module NumberWords.

Import Py Words PyFacts ViNormalize ViFacts Renormalize Rewriting TranscriptClaims Conversions.

Lemma dict_get_keys d word :
  is_Some (dict_get d word) <-> word ∈ List.map fst d.
Proof.
  induction d as [|[k v] d IH]; simpl.
  - split; [intros [? H]; discriminate H | intros H; inversion H].
  - destruct (decide (k = word)) as [->|Hne].
    + rewrite bool_decide_eq_true_2 by reflexivity. split; [left | eauto].
    + rewrite bool_decide_eq_false_2 by exact Hne. rewrite IH. split.
      * right. assumption.
      * intros H. apply elem_of_cons in H as [H|H]; [congruence | exact H].
Qed.

(** The words the loop of [_words_to_number] accepts are the number
    words. *)
Lemma number_token_cases w :
  mem w _NUMBER_TOKENS = true
  <-> w = u"mười" \/ w = u"mươi" \/ mem w [u"linh"; u"lẻ"] = true \/ w = u"trăm"
      \/ is_Some (dict_get _NUMBER_UNITS w).
Proof.
  rewrite dict_get_keys, !mem_true. unfold _NUMBER_TOKENS.
  rewrite elem_of_app, !elem_of_cons, elem_of_nil. tauto.
Qed.

Lemma words_loop_defined words :
  Forall (fun w => mem w _NUMBER_TOKENS = true) words ->
  forall total value_set,
    words <> [] \/ value_set = true -> is_Some (words_loop words total value_set).
Proof.
  induction 1 as [|word rest Hw _ IH]; intros total value_set Hne; cbn [words_loop].
  - destruct Hne as [Hne| ->]; [contradiction | eauto].
  - destruct (bool_decide (word = u"mười")) eqn:E1; [apply IH; auto|].
    destruct (bool_decide (word = u"mươi")) eqn:E2; [apply IH; auto|].
    destruct (mem word [u"linh"; u"lẻ"]) eqn:E3; [apply IH; auto|].
    destruct (bool_decide (word = u"trăm")) eqn:E4; [apply IH; auto|].
    destruct (dict_get _NUMBER_UNITS word) as [unit|] eqn:E5.
    + destruct ((total >=? 10) || value_set); apply IH; auto.
    + exfalso. apply number_token_cases in Hw.
      rewrite E5 in Hw. apply bool_decide_eq_false in E1, E2, E4.
      destruct Hw as [Hw|[Hw|[Hw|[Hw|[? Hw]]]]]; congruence.
Qed.

Lemma words_loop_undefined words w :
  w ∈ words -> mem w _NUMBER_TOKENS = false ->
  forall total value_set, words_loop words total value_set = None.
Proof.
  intros Hin Hw. induction words as [|word rest IH]; intros total value_set;
    [inversion Hin|].
  cbn [words_loop]. apply elem_of_cons in Hin as [<-|Hin].
  - assert (Hcases : ~ (w = u"mười" \/ w = u"mươi" \/ mem w [u"linh"; u"lẻ"] = true
                        \/ w = u"trăm" \/ is_Some (dict_get _NUMBER_UNITS w))).
    { rewrite <- number_token_cases. congruence. }
    rewrite !bool_decide_eq_false_2 by tauto.
    destruct (mem w [u"linh"; u"lẻ"]) eqn:E3; [tauto|].
    destruct (dict_get _NUMBER_UNITS w) eqn:E5; [|reflexivity].
    exfalso. apply Hcases. do 4 right. eauto.
  - specialize (IH Hin).
    destruct (bool_decide (word = u"mười")); [apply IH|].
    destruct (bool_decide (word = u"mươi")); [apply IH|].
    destruct (mem word [u"linh"; u"lẻ"]); [apply IH|].
    destruct (bool_decide (word = u"trăm")); [apply IH|].
    destruct (dict_get _NUMBER_UNITS word); [|reflexivity].
    destruct ((total >=? 10) || value_set); apply IH.
Qed.

(** X1: [_words_to_number] returns a number exactly for a non-empty list of
    number words; it returns [None] for the empty list and for every list
    that holds a word outside [_NUMBER_TOKENS]. *)
Theorem words_to_number_defined (words : list str) :
  is_Some (_words_to_number words)
  <-> words <> [] /\ Forall (fun w => mem w _NUMBER_TOKENS = true) words.
Proof.
  unfold _words_to_number. split.
  - intros Hsome. destruct words as [|word rest]; [destruct Hsome as [? H]; discriminate H|].
    split; [discriminate|]. apply Forall_forall. intros w Hin.
    destruct (mem w _NUMBER_TOKENS) eqn:E; [reflexivity|].
    rewrite (words_loop_undefined _ w Hin E) in Hsome.
    destruct Hsome as [? H]. discriminate H.
  - intros [Hne Hall]. destruct words as [|word rest]; [contradiction|].
    apply words_loop_defined; [exact Hall | left; discriminate].
Qed.

(** *** The shape of the normalised token list *)

Lemma should_convert_true after v :
  should_convert after (Some v) = true ->
  (exists t, head after = Some t /\ mem t _NUMBER_FOLLOWERS = true)
  \/ (after = [] /\ 10 <= v).
Proof.
  rewrite should_convert_head. unfold convert_before.
  destruct (head after) as [t|] eqn:Eh; simpl default.
  - destruct (mem t _NUMBER_FOLLOWERS) eqn:E1; [intros _; left; eauto|].
    destruct (bool_decide (t = u"rưỡi")) eqn:E2.
    + apply bool_decide_eq_true in E2. subst t. vm_compute in E1. discriminate E1.
    + rewrite bool_decide_eq_false_2 by discriminate. simpl. discriminate.
  - change (mem [] _NUMBER_FOLLOWERS) with false. cbv iota.
    change (bool_decide ([] = u"rưỡi")) with false. cbv iota.
    rewrite bool_decide_eq_true_2 by reflexivity. simpl.
    destruct (negb (v =? 0) && (v >=? 10)) eqn:E; [|discriminate].
    intros _. right. apply andb_true_iff in E as [_ E].
    split; [destruct after; [reflexivity | discriminate Eh] | lia].
Qed.

Lemma norm_converted n : forall toks prev,
  (length toks <= n)%nat -> converted toks (norm prev toks).
Proof.
  induction n as [|n IH]; intros toks prev Hlen.
  { destruct toks; [constructor | simpl in Hlen; lia]. }
  destruct toks as [|tok rest]; [constructor|]. simpl in Hlen.
  assert (Hcopy : converted (tok :: rest) (tok :: norm tok rest)).
  { constructor. apply IH. lia. }
  destruct (mem tok _NUMBER_TOKENS) eqn:E; [|rewrite norm_other by exact E; exact Hcopy].
  rewrite norm_number by exact E. cbv zeta.
  set (run := number_run (tok :: rest)) in *.
  set (after := drop (length run) (tok :: rest)) in *.
  destruct (accept prev run (_words_to_number run)
              (should_convert after (_words_to_number run))) eqn:Hacc; [|exact Hcopy].
  destruct (accept_value _ _ _ _ Hacc) as [v Hv]. rewrite Hv in Hacc |- *. simpl default.
  assert (Hsplit : tok :: rest = run ++ after) by apply number_run_prefix.
  assert (Hrun : run <> []).
  { unfold run. rewrite (number_run_cons _ _ E). discriminate. }
  rewrite Hsplit. apply conv_run.
  - exact Hrun.
  - apply number_run_all.
  - exact Hv.
  - apply (words_to_number_nonneg _ _ Hv).
  - apply should_convert_true. unfold accept in Hacc.
    apply andb_true_iff in Hacc as [Hacc _]. apply andb_true_iff in Hacc as [Hacc _].
    exact Hacc.
  - apply IH. apply (f_equal length) in Hsplit. rewrite length_app in Hsplit.
    simpl in Hsplit. destruct run; [contradiction|]. simpl in Hsplit. lia.
Qed.

Lemma converted_length toks out : converted toks out -> (length out <= length toks)%nat.
Proof.
  induction 1 as [|t rest out _ IH|run v rest out Hne _ _ _ _ _ IH]; simpl; [lia | lia|].
  rewrite length_app. destruct run; [contradiction|]. simpl. lia.
Qed.

Lemma numbers_tokens text :
  split (normalize_vietnamese_numbers text) = normalize_tokens (split text).
Proof.
  unfold normalize_vietnamese_numbers.
  destruct (split text) as [|t toks] eqn:E; [rewrite E; reflexivity|].
  change (u" ") with [32%N]. apply split_join, normalize_loop_tokens.
  rewrite <- E. apply split_tokens.
Qed.

(** X3: the words of the normalised text are the words of the text, in
    order, except that some runs of consecutive number words are each
    replaced by the decimal numeral of the value [_words_to_number] gives
    the run; a run is only replaced when a unit word follows it or when it
    ends the text with a value of at least ten.  The normalised text never
    has more words than the text. *)
Theorem numbers_converted (text : str) :
  converted (split text) (split (normalize_vietnamese_numbers text))
  /\ (length (split (normalize_vietnamese_numbers text)) <= length (split text))%nat.
Proof.
  assert (H : converted (split text) (split (normalize_vietnamese_numbers text))).
  { rewrite numbers_tokens, normalize_tokens_norm. apply (norm_converted (length (split text))).
    lia. }
  split; [exact H | apply converted_length, H].
Qed.

Lemma converted_same toks out :
  converted toks out ->
  Forall (fun t => mem t _NUMBER_FOLLOWERS = false) toks ->
  (forall t, last toks = Some t -> mem t _NUMBER_TOKENS = false) ->
  out = toks.
Proof.
  induction 1 as [|t rest out _ IH|run v rest out Hne Hrun _ _ Hwhy _ _];
    intros Hfol Hlast; [reflexivity| |exfalso].
  - f_equal. apply IH.
    + inversion Hfol; assumption.
    + intros t' Ht'. apply Hlast. rewrite last_cons, Ht'. reflexivity.
  - destruct Hwhy as [(t & Ht & Hf)|[-> _]].
    + rewrite Forall_forall in Hfol.
      rewrite (Hfol t) in Hf; [discriminate|].
      apply elem_of_app. right. destruct rest; [discriminate|].
      injection Ht as ->. left.
    + rewrite app_nil_r in Hlast.
      destruct (last run) as [t|] eqn:El; [|apply last_None in El; contradiction].
      specialize (Hlast t eq_refl). rewrite Forall_forall in Hrun.
      rewrite (Hrun t) in Hlast; [discriminate|]. apply last_Some_elem_of, El.
Qed.

(** X4: a text that holds none of the unit words of [_NUMBER_FOLLOWERS]
    and does not end with a number word keeps all its words: no number
    word is replaced by digits. *)
Theorem numbers_need_a_unit (text : str) :
  Forall (fun t => mem t _NUMBER_FOLLOWERS = false) (split text) ->
  (forall t, last (split text) = Some t -> mem t _NUMBER_TOKENS = false) ->
  split (normalize_vietnamese_numbers text) = split text.
Proof.
  intros Hfol Hlast. apply converted_same; [|exact Hfol | exact Hlast].
  rewrite numbers_tokens, normalize_tokens_norm.
  apply (norm_converted (length (split text))). lia.
Qed.

Lemma numbers_need_a_unit_witness :
  split (normalize_vietnamese_numbers (u"bật  đèn số hai mươi nhé")) =
    [u"bật"; u"đèn"; u"số"; u"hai"; u"mươi"; u"nhé"].
Proof.
  rewrite (numbers_need_a_unit (u"bật  đèn số hai mươi nhé")).
  - vm_compute. reflexivity.
  - vm_compute. repeat constructor.
  - intros t. vm_compute. intros [= <-]. reflexivity.
Defined.

(** X6: [normalize_vietnamese_numbers] is idempotent: normalising a
    normalised text changes nothing, whatever the spacing of the text. *)
Theorem numbers_idempotent (text : str) :
  normalize_vietnamese_numbers (normalize_vietnamese_numbers text)
    = normalize_vietnamese_numbers text.
Proof.
  destruct (split text) as [|t toks] eqn:E.
  - assert (H : normalize_vietnamese_numbers text = text)
      by (unfold normalize_vietnamese_numbers; rewrite E; reflexivity).
    rewrite !H. reflexivity.
  - assert (Htoks : Forall is_token (t :: toks)) by (rewrite <- E; apply split_tokens).
    assert (Hout : Forall is_token (normalize_tokens (t :: toks)))
      by apply normalize_loop_tokens, Htoks.
    assert (H : normalize_vietnamese_numbers text
                = join [32%N] (normalize_tokens (t :: toks)))
      by (unfold normalize_vietnamese_numbers; rewrite E; reflexivity).
    rewrite H. unfold normalize_vietnamese_numbers at 1.
    rewrite (split_join _ Hout).
    destruct (normalize_tokens (t :: toks)) as [|t' toks'] eqn:E'.
    + exfalso. revert E'. apply normalize_tokens_nonempty. discriminate.
    + rewrite <- E', (normalize_tokens_idempotent _ Htoks). reflexivity.
Qed.

(** *** Reading numbers below one hundred *)

Lemma unit_word word v :
  dict_get _NUMBER_UNITS word = Some v ->
  0 <= v <= 9
  /\ bool_decide (word = u"mười") = false
  /\ bool_decide (word = u"mươi") = false
  /\ mem word [u"linh"; u"lẻ"] = false
  /\ bool_decide (word = u"trăm") = false.
Proof.
  intros H.
  assert (Hall : forallb (fun kv : str * Z =>
                            (0 <=? kv.2) && (kv.2 <=? 9)
                            && negb (bool_decide (kv.1 = u"mười"))
                            && negb (bool_decide (kv.1 = u"mươi"))
                            && negb (mem kv.1 [u"linh"; u"lẻ"])
                            && negb (bool_decide (kv.1 = u"trăm")))
                         _NUMBER_UNITS = true) by (vm_compute; reflexivity).
  rewrite forallb_forall in Hall.
  assert (Hin : In (word, v) _NUMBER_UNITS).
  { clear Hall. revert H. induction _NUMBER_UNITS as [|[k v'] d IH]; simpl; [discriminate|].
    destruct (decide (k = word)) as [->|Hne].
    - rewrite bool_decide_eq_true_2 by reflexivity. intros [= ->]. left. reflexivity.
    - rewrite bool_decide_eq_false_2 by exact Hne. intros H. right. apply IH, H. }
  specialize (Hall _ Hin). cbn [fst snd] in Hall.
  repeat (apply andb_true_iff in Hall as [Hall ?]).
  repeat match goal with
         | H : negb _ = true |- _ => apply negb_true_iff in H
         end.
  repeat split; try assumption; lia.
Qed.

(** X2: [_words_to_number] reads the numbers below one hundred as they are
    said: a unit word gives its value, "mười" followed by a unit word gives
    ten plus the unit, and a tens word (of value at least one) followed by
    "mươi" gives that many tens, plus the unit if a unit word follows. *)
Theorem words_to_number_below_hundred (tens unit : str) (vt vu : Z) :
  dict_get _NUMBER_UNITS tens = Some vt ->
  dict_get _NUMBER_UNITS unit = Some vu ->
  1 <= vt ->
  _words_to_number [unit] = Some vu
  /\ _words_to_number [u"mười"; unit] = Some (10 + vu)
  /\ _words_to_number [tens; u"mươi"] = Some (10 * vt)
  /\ _words_to_number [tens; u"mươi"; unit] = Some (10 * vt + vu).
Proof.
  intros Ht Hu Hpos.
  destruct (unit_word _ _ Ht) as (Hvt & T1 & T2 & T3 & T4).
  destruct (unit_word _ _ Hu) as (Hvu & U1 & U2 & U3 & U4).
  assert (M1 : bool_decide (u"mười" = u"mười") = true) by reflexivity.
  assert (M2 : bool_decide (u"mươi" = u"mười") = false) by (vm_compute; reflexivity).
  assert (M3 : bool_decide (u"mươi" = u"mươi") = true) by reflexivity.
  unfold _words_to_number. cbn [words_loop].
  rewrite T1, T2, T3, T4, U1, U2, U3, U4, M1, M2, M3, Ht, Hu.
  cbn [Z.eqb Z.geb Z.compare orb].
  destruct (Z.eqb_spec vt 0) as [->|_]; [lia|].
  destruct (Z.geb_spec (vt * 10) 10) as [_|Hlt]; [|lia].
  repeat split; f_equal; lia.
Qed.

Lemma words_to_number_below_hundred_witness :
  _words_to_number [u"mốt"] = Some 1
  /\ _words_to_number [u"mười"; u"mốt"] = Some (10 + 1)
  /\ _words_to_number [u"hai"; u"mươi"] = Some (10 * 2)
  /\ _words_to_number [u"hai"; u"mươi"; u"mốt"] = Some (10 * 2 + 1).
Proof.
  apply (words_to_number_below_hundred (u"hai") (u"mốt") 2 1); [reflexivity | reflexivity | lia].
Defined.

End NumberWords.

(** ** The last words of a percentage *)

Module Percent.

Import Py Words PyFacts ViNormalize ViFacts Renormalize TranscriptClaims Conversions NumberWords.

Lemma converted_nil out : converted [] out -> out = [].
Proof.
  intros H. remember [] as toks eqn:E.
  destruct H as [|t rest out _|run v rest out Hne _ _ _ _ _]; [reflexivity | discriminate|].
  apply app_eq_nil in E as [-> _]. contradiction.
Qed.

(** A last word that is not a number word stays the last word. *)
Lemma converted_last toks out t :
  converted toks out -> last toks = Some t -> mem t _NUMBER_TOKENS = false ->
  last out = Some t.
Proof.
  induction 1 as [|t0 rest out Hc IH|run v rest out Hne Hrun _ _ _ Hc IH]; intros Hl Ht.
  - discriminate.
  - destruct rest as [|t1 rest'].
    + apply converted_nil in Hc as ->. exact Hl.
    + rewrite last_cons in Hl |- *. cbn [last] in Hl. rewrite IH; [reflexivity | | exact Ht].
      destruct (last (t1 :: rest')) eqn:E; [exact Hl|].
      apply last_None in E. discriminate.
  - destruct rest as [|t1 rest'].
    + exfalso. rewrite app_nil_r in Hl. apply last_Some_elem_of in Hl.
      rewrite Forall_forall in Hrun. rewrite (Hrun t Hl) in Ht. discriminate.
    + rewrite last_cons, IH; [reflexivity | | exact Ht].
      rewrite last_app in Hl.
      destruct (last (t1 :: rest')) eqn:E; [exact Hl|].
      apply last_None in E. discriminate.
Qed.

Lemma number_run_before L X t :
  last L = Some t -> mem t _NUMBER_TOKENS = false ->
  number_run (L ++ X) = number_run L
  /\ drop (length (number_run L)) (L ++ X) = drop (length (number_run L)) L ++ X
  /\ drop (length (number_run L)) L <> [].
Proof.
  intros Hl Ht.
  pose proof (number_run_prefix L) as Hsplit.
  pose proof (number_run_all L) as Hall.
  pose proof (number_run_stops L) as Hstop.
  remember (number_run L) as run eqn:Er.
  remember (drop (length run) L) as after eqn:Ea.
  assert (Hafter : after <> []).
  { intros E. rewrite E, app_nil_r in Hsplit. rewrite Hsplit in Hl.
    apply last_Some_elem_of in Hl.
    rewrite Forall_forall in Hall. rewrite (Hall t Hl) in Ht. discriminate. }
  destruct (number_run_app run (after ++ X)) as [H1 H2].
  - exact Hall.
  - intros t0 Ht0. apply Hstop. destruct after; [contradiction | exact Ht0].
  - assert (E : L ++ X = run ++ (after ++ X)).
    { rewrite Hsplit at 1. symmetry. apply app_assoc. }
    rewrite E. repeat split; assumption.
Qed.

Lemma norm_percent n : forall L prev,
  (length L <= n)%nat -> last L = Some (u"phần") ->
  norm prev (L ++ [u"trăm"]) = norm prev L ++ [u"trăm"].
Proof.
  assert (Hp : mem (u"phần") _NUMBER_TOKENS = false) by (vm_compute; reflexivity).
  induction n as [|n IH]; intros L prev Hlen Hl.
  { destruct L; [discriminate | simpl in Hlen; lia]. }
  destruct L as [|tok L']; [discriminate|]. simpl in Hlen.
  assert (Htail : L' <> [] -> forall p, norm p (L' ++ [u"trăm"]) = norm p L' ++ [u"trăm"]).
  { intros HL' p. apply IH; [lia|]. rewrite last_cons in Hl.
    destruct (last L') eqn:E; [exact Hl | apply last_None in E; contradiction]. }
  destruct (mem tok _NUMBER_TOKENS) eqn:E.
  - assert (HL' : L' <> []).
    { intros ->. injection Hl as ->. rewrite Hp in E. discriminate. }
    change ((tok :: L') ++ [u"trăm"]) with (tok :: (L' ++ [u"trăm"])).
    rewrite !norm_number by exact E. cbv zeta.
    change (tok :: (L' ++ [u"trăm"])) with ((tok :: L') ++ [u"trăm"]).
    destruct (number_run_before (tok :: L') [u"trăm"] _ Hl Hp) as (Hrun & Hdrop & Hne).
    rewrite Hrun, Hdrop, !should_convert_head.
    set (run := number_run (tok :: L')) in *.
    set (after := drop (length run) (tok :: L')) in *.
    assert (Hhead : head (after ++ [u"trăm"]) = head after)
      by (destruct after; [contradiction | reflexivity]).
    rewrite Hhead.
    destruct (accept prev run (_words_to_number run)
                (convert_before (head after) (_words_to_number run))).
    + simpl app. f_equal. apply IH.
      * pose proof (number_run_prefix (tok :: L')) as Hs. fold run in Hs. fold after in Hs.
        apply (f_equal length) in Hs. rewrite length_app in Hs. simpl in Hs.
        assert (run <> []) by (unfold run; rewrite (number_run_cons _ _ E); discriminate).
        destruct run; [contradiction|]. simpl in Hs. lia.
      * pose proof (number_run_prefix (tok :: L')) as Hs. fold run in Hs. fold after in Hs.
        rewrite Hs, last_app in Hl.
        destruct (last after) eqn:El; [exact Hl | apply last_None in El; contradiction].
    + simpl app. f_equal. apply Htail, HL'.
  - change ((tok :: L') ++ [u"trăm"]) with (tok :: (L' ++ [u"trăm"])).
    rewrite !norm_other by exact E. simpl app. f_equal.
    destruct L' as [|t1 L''].
    + injection Hl as ->. vm_compute. reflexivity.
    + apply Htail. discriminate.
Qed.

(** X5: a text that ends with the words "phần trăm" still ends with them
    after the number normaliser: the word "trăm" that follows "phần" is never
    replaced by "100". *)
Theorem percent_is_kept (text : str) (body : list str) :
  split text = body ++ [u"phần"; u"trăm"] ->
  exists front,
    split (normalize_vietnamese_numbers text) = front ++ [u"phần"; u"trăm"].
Proof.
  intros Hs. rewrite numbers_tokens, Hs, normalize_tokens_norm.
  replace (body ++ [u"phần"; u"trăm"]) with ((body ++ [u"phần"]) ++ [u"trăm"])
    by (rewrite <- app_assoc; reflexivity).
  rewrite (norm_percent (length (body ++ [u"phần"]))) by (lia || apply last_snoc).
  assert (Hl : last (norm [] (body ++ [u"phần"])) = Some (u"phần")).
  { eapply converted_last.
    - apply (norm_converted (length (body ++ [u"phần"]))). lia.
    - apply last_snoc.
    - vm_compute. reflexivity. }
  apply last_Some in Hl as [front ->]. exists front.
  rewrite <- app_assoc. reflexivity.
Qed.

Lemma percent_is_kept_witness :
  exists front,
    split (normalize_vietnamese_numbers (u"năm mươi phần trăm")) = front ++ [u"phần"; u"trăm"].
Proof.
  apply (percent_is_kept (u"năm mươi phần trăm") [u"năm"; u"mươi"]).
  vm_compute. reflexivity.
Defined.

End Percent.

(** ** Spellings, spacing and the finaliser *)

Module Spellings.

Import Py Words PyFacts ViNormalize ViFacts Renormalize Rewriting TranscriptClaims.
Import Backends TokenTable.

#[local] Arguments apply_all : simpl never.

(** *** Replacements of equal length *)

Lemma rewrites_length p old new s o :
  length new = length old ->
  rewrites p (fun o' nw => o' = old /\ nw = new) s o -> length o = length s.
Proof.
  intros Hlen. induction 1 as [|c s o _ _ IH|old' new' s o [-> ->] _ IH]; simpl.
  - reflexivity.
  - congruence.
  - rewrite !length_app. congruence.
Qed.

Lemma replace_length old new s :
  old <> [] -> length new = length old -> length (replace old new s) = length s.
Proof.
  intros Hold Hlen. eapply rewrites_length; [exact Hlen|].
  apply replace_rewrites_self, Hold.
Qed.

Lemma cancellation_as_chain text :
  normalize_cancellation_terms text = apply_all cancellations text.
Proof. reflexivity. Qed.

(** X7: [normalize_cancellation_terms] keeps the length of the text, leaves
    no occurrence of the spellings "hủy" and "Hủy", and is idempotent. *)
Theorem cancellation_terms_settled (text : str) :
  length (normalize_cancellation_terms text) = length text
  /\ contains (u"hủy") (normalize_cancellation_terms text) = false
  /\ contains (u"Hủy") (normalize_cancellation_terms text) = false
  /\ normalize_cancellation_terms (normalize_cancellation_terms text)
     = normalize_cancellation_terms text.
Proof.
  pose proof (cancelled_free text) as Hfree.
  rewrite <- cancellation_as_chain in Hfree. unfold cancellations in Hfree.
  apply Forall_cons_1 in Hfree as [H1 Hfree]. apply Forall_cons_1 in Hfree as [H2 _].
  cbn [fst] in H1, H2.
  split; [|split; [exact H1 | split; [exact H2|]]].
  - unfold normalize_cancellation_terms.
    rewrite !replace_length; [reflexivity | | | |]; by_computation.
  - rewrite (cancellation_as_chain (normalize_cancellation_terms text)).
    apply apply_all_absent. unfold cancellations.
    repeat apply Forall_cons_2; [| |apply Forall_nil_2]; cbn [fst]; (split; [by_computation|]);
      assumption.
Qed.

(** *** Patterns without whitespace live inside one word *)

Lemma startswith_app_l p t b : startswith p t = true -> startswith p (t ++ b) = true.
Proof.
  revert t. induction p as [|a p IH]; intros t; [reflexivity|].
  destruct t as [|c t]; simpl; [discriminate|].
  intros H. apply andb_true_iff in H as [-> H]. simpl. apply IH, H.
Qed.

Lemma contains_app_l p t b : contains p (t ++ b) = false -> contains p t = false.
Proof.
  intros H. destruct (contains p t) eqn:E; [|reflexivity]. exfalso.
  revert H. apply not_false_iff_true.
  induction t as [|c t IH]; simpl in *.
  - destruct p; [|discriminate]. destruct b; reflexivity.
  - apply orb_true_iff in E as [E|E]; apply orb_true_iff.
    + left. apply (startswith_app_l p (c :: t) b E).
    + right. apply IH, E.
Qed.

Lemma split_go_substring t cur s :
  t ∈ split_go cur s -> exists a b, reverse cur ++ s = a ++ t ++ b.
Proof.
  revert cur. induction s as [|c r IH]; intros cur; simpl.
  - destruct cur as [|c0 cur0]; [intros H; inversion H|].
    intros H. apply list_elem_of_singleton in H as ->.
    exists [], []. rewrite !app_nil_r. reflexivity.
  - destruct (isspace c).
    + destruct cur as [|c0 cur0].
      * intros H. destruct (IH [] H) as (a & b & E). simpl in E.
        exists (c :: a), b. simpl. rewrite E. reflexivity.
      * intros H. apply elem_of_cons in H as [->|H].
        -- exists [], (c :: r). reflexivity.
        -- destruct (IH [] H) as (a & b & E). simpl in E.
           exists (reverse (c0 :: cur0) ++ c :: a), b.
           rewrite E, <- !app_assoc. reflexivity.
    + intros H. destruct (IH (c :: cur) H) as (a & b & E).
      exists a, b. rewrite <- E, reverse_cons, <- app_assoc. reflexivity.
Qed.

Lemma split_free p s t : contains p s = false -> t ∈ split s -> contains p t = false.
Proof.
  intros Hs Ht. destruct (split_go_substring t [] s Ht) as (a & b & E).
  simpl in E. rewrite E in Hs. apply contains_app_r in Hs.
  apply contains_app_l in Hs. exact Hs.
Qed.

Lemma contains_before_space p t x :
  p <> [] -> 32%N ∉ p ->
  contains p t = false -> contains p x = false -> contains p (t ++ 32%N :: x) = false.
Proof.
  intros Hp Hsp. induction t as [|c t IH]; intros Ht Hx.
  - simpl app. apply contains_cons. split; [|exact Hx].
    destruct p as [|a p]; [contradiction|]. simpl.
    destruct (N.eqb_spec a 32) as [->|_]; [|reflexivity].
    exfalso. apply Hsp. left.
  - apply contains_cons in Ht as [Hst Ht]. simpl app. apply contains_cons. split.
    + change (c :: t ++ 32%N :: x) with ((c :: t) ++ 32%N :: x).
      rewrite (startswith_before_space p (c :: t) x Hsp Hp). exact Hst.
    + apply IH; assumption.
Qed.

Lemma join_free p toks :
  p <> [] -> 32%N ∉ p ->
  Forall (fun t => contains p t = false) toks -> contains p (join [32%N] toks) = false.
Proof.
  intros Hp Hsp. induction 1 as [|t toks Ht Hrest IH]; [apply contains_nil, Hp|].
  destruct toks as [|t' toks']; [exact Ht|].
  change (join [32%N] (t :: t' :: toks')) with (t ++ 32%N :: join [32%N] (t' :: toks')).
  apply contains_before_space; assumption.
Qed.

(** A pattern without digits and without whitespace that the text does not
    hold is not created by the number normaliser. *)
Lemma numbers_keep_free p s :
  p <> [] -> Forall (fun c => ~ is_digit c) p -> 32%N ∉ p ->
  contains p s = false -> contains p (normalize_vietnamese_numbers s) = false.
Proof.
  intros Hp Hnd Hsp Hfree.
  assert (Hjoin : contains p (join [32%N] (split s)) = false).
  { apply join_free; [exact Hp | exact Hsp|]. apply Forall_forall.
    intros t Ht. eapply split_free; eassumption. }
  unfold normalize_vietnamese_numbers.
  destruct (split s) as [|t toks] eqn:E; [exact Hfree|].
  change (u" ") with [32%N]. rewrite normalize_tokens_norm.
  apply (rewrites_free p by_numeral Hp) with (s := join [32%N] (t :: toks)).
  - intros old new [Hne Hd]. apply numeral_no_clash; assumption.
  - apply (norm_rewrites p (length (t :: toks))); [lia | exact Hjoin].
Qed.

(** X8: whatever the text, its normalised transcript holds none of the
    spellings "tivi", "ti-vi", "hủy" and "Hủy". *)
Theorem transcript_spellings (text : str) :
  contains (u"tivi") (normalize_vietnamese_transcript text) = false
  /\ contains (u"ti-vi") (normalize_vietnamese_transcript text) = false
  /\ contains (u"hủy") (normalize_vietnamese_transcript text) = false
  /\ contains (u"Hủy") (normalize_vietnamese_transcript text) = false.
Proof.
  rewrite transcript_stages.
  pose proof (substituted_free text) as Hsub.
  pose proof (cancelled_free (normalize_vietnamese_numbers (apply_all substitutions text)))
    as Hcan.
  unfold substitutions in Hsub at 2. unfold cancellations in Hcan at 2.
  apply Forall_cons_1 in Hsub as [Htivi Hsub]. apply Forall_cons_1 in Hsub as [_ Hsub].
  apply Forall_cons_1 in Hsub as [Hdash _].
  apply Forall_cons_1 in Hcan as [H1 Hcan]. apply Forall_cons_1 in Hcan as [H2 _].
  cbn [fst] in *.
  assert (Hkeep : forall p,
            p <> [] -> Forall (fun c => ~ is_digit c) p -> 32%N ∉ p ->
            Forall (fun on : str * str => on.1 <> [] /\ clash_free p on.2 = true)
                   cancellations ->
            contains p (apply_all substitutions text) = false ->
            contains p (apply_all cancellations
                          (normalize_vietnamese_numbers (apply_all substitutions text)))
              = false).
  { intros p Hp Hnd Hsp Hcl Hfree.
    apply apply_all_creates_none; [exact Hp | exact Hcl|].
    apply numbers_keep_free; assumption. }
  assert (Hnodigit : forall p : str,
            forallb (fun c => negb ((48 <=? c) && (c <=? 57))%N) p = true ->
            Forall (fun c => ~ is_digit c) p).
  { intros p H. apply Forall_forall. intros c Hc [Hlo Hhi].
    rewrite forallb_forall in H. specialize (H c (proj1 (list_elem_of_In _ _) Hc)).
    apply negb_true_iff, andb_false_iff in H as [H|H]; apply N.leb_gt in H; lia. }
  repeat split; [| |exact H1 | exact H2].
  - apply Hkeep; [by_computation | apply Hnodigit; by_computation | by_computation | | exact Htivi].
    unfold cancellations. checked_list.
  - apply Hkeep; [by_computation | apply Hnodigit; by_computation | by_computation | | exact Hdash].
    unfold cancellations. checked_list.
Qed.

(** *** Whitespace *)

Lemma split_go_nil cur s :
  split_go cur s = [] <-> cur = [] /\ Forall (fun c => isspace c = true) s.
Proof.
  revert cur. induction s as [|c r IH]; intros cur; simpl.
  - destruct cur; split.
    + intros _. split; [reflexivity | constructor].
    + reflexivity.
    + discriminate.
    + intros [H _]. discriminate H.
  - destruct (isspace c) eqn:Hc.
    + destruct cur as [|c0 cur0].
      * rewrite IH. split; intros [H1 H2]; split; auto.
        inversion H2; assumption.
      * split; [discriminate | intros [H _]; discriminate H].
    + rewrite IH. split; [intros [H _]; discriminate H|].
      intros [_ H]. inversion H; congruence.
Qed.

Lemma split_nil s : split s = [] <-> Forall (fun c => isspace c = true) s.
Proof. unfold split. rewrite split_go_nil. tauto. Qed.

Lemma blank_free p s :
  (exists c, c ∈ p /\ isspace c = false) ->
  Forall (fun c => isspace c = true) s -> contains p s = false.
Proof.
  intros (c & Hc & Hns) Hs. apply (contains_chars p s c Hc).
  intros Hin. rewrite Forall_forall in Hs. rewrite (Hs c Hin) in Hns. discriminate.
Qed.

Lemma rewrites_blank p old new s o :
  (exists c, c ∈ new /\ isspace c = false) ->
  rewrites p (fun o' nw => o' = old /\ nw = new) s o ->
  Forall (fun c => isspace c = true) o -> Forall (fun c => isspace c = true) s.
Proof.
  intros (c & Hc & Hns). induction 1 as [|c' s o _ _ IH|old' new' s o [-> ->] _ IH];
    intros Ho.
  - constructor.
  - inversion Ho; subst. constructor; auto.
  - exfalso. apply Forall_app in Ho as [Hnew _]. rewrite Forall_forall in Hnew.
    rewrite (Hnew c Hc) in Hns. discriminate.
Qed.

Lemma replace_keeps_words old new s :
  old <> [] -> (exists c, c ∈ new /\ isspace c = false) ->
  split s <> [] -> split (replace old new s) <> [].
Proof.
  intros Hold Hnew Hs Ho. apply Hs. apply split_nil in Ho. apply split_nil.
  eapply rewrites_blank; [exact Hnew | apply replace_rewrites_self, Hold | exact Ho].
Qed.

Lemma apply_all_keeps_words subs s :
  Forall (fun on : str * str => on.1 <> [] /\ exists c, c ∈ on.2 /\ isspace c = false) subs ->
  split s <> [] -> split (apply_all subs s) <> [].
Proof.
  intros Hsubs. revert s. induction Hsubs as [|[old new] subs [Hold Hnew] _ IH]; intros s Hs;
    [exact Hs|].
  change (split (apply_all subs (replace old new s)) <> []).
  apply IH, replace_keeps_words; assumption.
Qed.

Ltac visible_char c :=
  exists c; split; [by_computation | reflexivity].

Lemma substitutions_visible :
  Forall (fun on : str * str =>
            (on.1 <> [] /\ exists c, c ∈ on.1 /\ isspace c = false)
            /\ (on.1 <> [] /\ exists c, c ∈ on.2 /\ isspace c = false))
         (substitutions ++ cancellations).
Proof.
  unfold substitutions, cancellations. simpl app.
  repeat first [ apply Forall_nil_2 | apply Forall_cons_2 ]; cbn [fst snd];
    (split; (split; [by_computation|]));
    first [ visible_char 116%N | visible_char 103%N | visible_char 121%N | visible_char 117%N ].
Qed.

(** The transcript normaliser on a text with at least one word. *)
Lemma transcript_of_words text :
  split text <> [] ->
  exists toks,
    toks <> [] /\ Forall is_token toks
    /\ normalize_vietnamese_transcript text = join [32%N] toks.
Proof.
  intros Hs. rewrite transcript_stages.
  set (y := apply_all substitutions text).
  assert (Hy : split y <> []).
  { apply apply_all_keeps_words; [|exact Hs].
    pose proof substitutions_visible as Hv. apply Forall_app in Hv as [Hv _].
    eapply Forall_impl; [exact Hv|]. intros on [_ H]. exact H. }
  assert (Htoks : Forall is_token (split y)) by apply split_tokens.
  exists (normalize_cancellation_terms <$> normalize_tokens (split y)).
  split; [|split].
  - intros E. apply fmap_nil_inv in E. revert E. apply normalize_tokens_nonempty, Hy.
  - apply Forall_fmap. eapply Forall_impl; [apply normalize_loop_tokens, Htoks|].
    intros t Ht. apply cancel_token, Ht.
  - rewrite <- cancellation_as_chain, <- cancel_join. f_equal.
    unfold normalize_vietnamese_numbers. destruct (split y); [contradiction | reflexivity].
Qed.

Lemma transcript_of_blank text :
  split text = [] -> normalize_vietnamese_transcript text = text.
Proof.
  intros Hs. pose proof Hs as Hblank. apply split_nil in Hblank.
  pose proof substitutions_visible as Hv. apply Forall_app in Hv as [Hv1 Hv2].
  rewrite transcript_stages.
  assert (H1 : apply_all substitutions text = text).
  { apply apply_all_absent. eapply Forall_impl; [exact Hv1|].
    intros on [[Hne Hc] _]. split; [exact Hne|]. apply blank_free; assumption. }
  rewrite H1. unfold normalize_vietnamese_numbers. rewrite Hs.
  apply apply_all_absent. eapply Forall_impl; [exact Hv2|].
  intros on [[Hne Hc] _]. split; [exact Hne|]. apply blank_free; assumption.
Qed.

Lemma join_tokens_nonempty toks :
  toks <> [] -> Forall is_token toks -> join [32%N] toks <> [].
Proof.
  intros Hne Htoks. destruct Htoks as [|t toks [Ht _] _]; [contradiction|].
  destruct t; [contradiction|]. destruct toks; discriminate.
Qed.

(** X9: the transcript normaliser returns a text without any word as it
    is; of a text with at least one word it returns a non-empty text whose
    words are separated by single spaces, with no other whitespace. *)
Theorem transcript_spacing (text : str) :
  (split text = [] -> normalize_vietnamese_transcript text = text)
  /\ (split text <> [] ->
      normalize_vietnamese_transcript text <> []
      /\ join (u" ") (split (normalize_vietnamese_transcript text))
         = normalize_vietnamese_transcript text).
Proof.
  split; [apply transcript_of_blank|].
  intros Hs. destruct (transcript_of_words text Hs) as (toks & Hne & Htoks & ->).
  split; [apply join_tokens_nonempty; assumption|].
  change (u" ") with [32%N]. rewrite split_join by exact Htoks. reflexivity.
Qed.

Lemma transcript_spacing_witness :
  normalize_vietnamese_transcript (u" 	 ") = u" 	 "
  /\ normalize_vietnamese_transcript (u"  bật   ti-vi ") <> []
  /\ join (u" ") (split (normalize_vietnamese_transcript (u"  bật   ti-vi ")))
     = normalize_vietnamese_transcript (u"  bật   ti-vi ").
Proof.
  split.
  - apply (proj1 (transcript_spacing (u" 	 "))). vm_compute. reflexivity.
  - apply (proj2 (transcript_spacing (u"  bật   ti-vi "))). vm_compute. discriminate.
Defined.

(** *** The finaliser *)

Lemma lstrip_padding before s :
  Forall (fun c => isspace c = true) before -> lstrip (before ++ s) = lstrip s.
Proof.
  induction 1 as [|c before Hc _ IH]; [reflexivity|].
  simpl. unfold lstrip in *. simpl. rewrite Hc. exact IH.
Qed.

Lemma rstrip_padding s after :
  Forall (fun c => isspace c = true) after -> rstrip (s ++ after) = rstrip s.
Proof.
  intros Ha. unfold rstrip, rstrip_by. rewrite reverse_app. f_equal.
  apply lstrip_padding, Forall_reverse, Ha.
Qed.

Lemma lstrip_app s after :
  lstrip (s ++ after) = match lstrip s with [] => lstrip after | _ => lstrip s ++ after end.
Proof.
  unfold lstrip. induction s as [|c s IH]; simpl; [destruct (lstrip_by isspace after); reflexivity|].
  destruct (isspace c); [exact IH | reflexivity].
Qed.

Lemma lstrip_blank s : Forall (fun c => isspace c = true) s -> lstrip s = [].
Proof.
  intros H. rewrite <- (app_nil_r s). rewrite lstrip_padding by exact H. reflexivity.
Qed.

Lemma strip_padding before s after :
  Forall (fun c => isspace c = true) before ->
  Forall (fun c => isspace c = true) after ->
  strip (before ++ s ++ after) = strip s.
Proof.
  intros Hb Ha. unfold strip. rewrite lstrip_padding by exact Hb.
  rewrite lstrip_app. destruct (lstrip s) as [|c r] eqn:E.
  - rewrite lstrip_blank by exact Ha. reflexivity.
  - apply rstrip_padding, Ha.
Qed.

Section Finaliser.

Context {Enc Dec : Type}.
Variable ext : externals Enc Dec.
Variable model : Model.

(** X10: whitespace around the text never changes what
    [finalize_transcript] returns, and a text of whitespace only gives the
    empty string, whatever the model and [decode_meta] are. *)
Theorem finalize_ignores_padding (before text after : str) :
  Forall (fun c => isspace c = true) before ->
  Forall (fun c => isspace c = true) after ->
  finalize_transcript ext model (before ++ text ++ after)
    = finalize_transcript ext model text
  /\ finalize_transcript ext model (before ++ after) = [].
Proof.
  intros Hb Ha. unfold finalize_transcript. split.
  - rewrite strip_padding by assumption. reflexivity.
  - rewrite <- (app_nil_l after), strip_padding by assumption. reflexivity.
Qed.


End Finaliser.

Lemma finalize_ignores_padding_witness :
  finalize_transcript (Worlds.plain_world None) Worlds.vi_model
      (u"  " ++ u"bật tivi" ++ u" ")
    = finalize_transcript (Worlds.plain_world None) Worlds.vi_model (u"bật tivi")
  /\ finalize_transcript (Worlds.plain_world None) Worlds.vi_model (u"  " ++ u" ") = [].
Proof.
  apply (finalize_ignores_padding (Worlds.plain_world None) Worlds.vi_model);
    vm_compute; repeat constructor.
Defined.


End Spellings.

(** ** Texts from tokens, token files and decoded objects *)

Module TextAssembly.

Import Py Words PyFacts ViNormalize ViFacts Rewriting TranscriptClaims.
Import VietASR Backends TokenTable TableSpec TableFile Spellings.

(** *** [_tokens_to_text] *)

Lemma pieces_of_app a b tokens :
  pieces_of (a ++ b) tokens = pieces_of a tokens ++ pieces_of b tokens.
Proof.
  induction a as [|idx a IH]; [reflexivity|]. simpl.
  destruct ((0 <=? idx) && (idx <? Z.of_nat (length tokens))); [|exact IH].
  destruct (tokens !! Z.to_nat idx) as [token|]; [|exact IH].
  destruct (bool_decide (token = u"<blk>")); [exact IH|].
  simpl. f_equal. exact IH.
Qed.

(** X12: an id that is negative, or not below the size of the token table,
    or whose token is "<blk>", adds nothing to the text: the text is the
    same as without that id. *)
Theorem tokens_to_text_skips (before : list Z) (idx : Z) (after : list Z)
    (tokens : list str) :
  idx < 0 \/ Z.of_nat (length tokens) <= idx
  \/ tokens !! Z.to_nat idx = Some (u"<blk>") ->
  _tokens_to_text (before ++ idx :: after) tokens
    = _tokens_to_text (before ++ after) tokens.
Proof.
  intros Hskip. unfold _tokens_to_text.
  change (idx :: after) with ([idx] ++ after).
  rewrite !pieces_of_app.
  assert (H : pieces_of [idx] tokens = []).
  { simpl. destruct (Z.leb_spec 0 idx) as [Hlo|Hlo]; [|reflexivity].
    destruct (Z.ltb_spec idx (Z.of_nat (length tokens))) as [Hhi|Hhi]; [|reflexivity].
    simpl. destruct Hskip as [Hs|[Hs|Hs]]; [lia | lia|].
    rewrite Hs. rewrite bool_decide_eq_true_2 by reflexivity. reflexivity. }
  rewrite H. reflexivity.
Qed.

Lemma tokens_to_text_skips_witness :
  _tokens_to_text ([1] ++ 0 :: [7; -2; 2]) [u"<blk>"; u"▁bật"; u"▁đèn"]
    = _tokens_to_text ([1] ++ [7; -2; 2]) [u"<blk>"; u"▁bật"; u"▁đèn"]
  /\ _tokens_to_text ([1] ++ [7; -2; 2]) [u"<blk>"; u"▁bật"; u"▁đèn"] = u"bật đèn".
Proof.
  split; [|vm_compute; reflexivity].
  apply (tokens_to_text_skips [1] 0 [7; -2; 2] [u"<blk>"; u"▁bật"; u"▁đèn"]).
  right. right. reflexivity.
Defined.

Lemma contains_single c s : contains [c] s = false -> c ∉ s.
Proof.
  induction s as [|d s IH]; [intros _ H; inversion H|].
  intros H. apply contains_cons in H as [Hst H]. specialize (IH H).
  simpl in Hst. rewrite andb_true_r in Hst. apply N.eqb_neq in Hst.
  intros Hin. apply elem_of_cons in Hin as [->|Hin]; [contradiction | auto].
Qed.

Lemma strip_within s : exists before after, s = before ++ strip s ++ after.
Proof.
  unfold strip, lstrip, rstrip.
  destruct (lstrip_by_spec isspace s) as (rm1 & H1 & _).
  destruct (rstrip_by_spec isspace (lstrip_by isspace s)) as (rm2 & H2 & _).
  exists rm1, rm2. rewrite <- H2. exact H1.
Qed.

Lemma strip_keeps_out c s : c ∉ s -> c ∉ strip s.
Proof.
  intros Hc Hin. apply Hc. destruct (strip_within s) as (a & b & E). rewrite E.
  apply elem_of_app. right. apply elem_of_app. left. exact Hin.
Qed.

(** X13: the text [_tokens_to_text] returns never holds the word-boundary
    mark "▁" and has no whitespace at either end. *)
Theorem tokens_to_text_clean (token_ids : list Z) (tokens : list str) :
  (9601%N ∉ _tokens_to_text token_ids tokens)
  /\ strip (_tokens_to_text token_ids tokens) = _tokens_to_text token_ids tokens.
Proof.
  unfold _tokens_to_text. split; [|apply strip_idempotent].
  apply strip_keeps_out, contains_single.
  change [9601%N] with (u"▁"). apply replace_removes; by_computation.
Qed.

(** Replacing one character by another is a map over the text. *)
Lemma replace_char a b s :
  replace [a] [b] s = List.map (fun c => if (c =? a)%N then b else c) s.
Proof.
  unfold replace. induction s as [|c s IH]; [reflexivity|].
  cbn [replace_go startswith length Nat.sub List.map].
  rewrite andb_true_r, (N.eqb_sym a c).
  destruct (c =? a)%N; simpl; f_equal; exact IH.
Qed.

Lemma map_unmarked w :
  9601%N ∉ w -> List.map (fun c => if (c =? 9601)%N then 32%N else c) w = w.
Proof.
  induction w as [|c w IH]; [reflexivity|]. intros H. simpl.
  destruct (N.eqb_spec c 9601) as [->|_]; [exfalso; apply H; left|].
  f_equal. apply IH. intros Hin. apply H. right. exact Hin.
Qed.

Lemma pieces_of_words tokens ids ws :
  Forall2 (fun idx w => 0 <= idx /\ tokens !! Z.to_nat idx = Some (word_piece w)) ids ws ->
  pieces_of ids tokens = word_piece <$> ws.
Proof.
  induction 1 as [|idx w ids ws [Hlo Hlook] _ IH]; [reflexivity|]. simpl.
  assert (Hhi : idx < Z.of_nat (length tokens)).
  { apply lookup_lt_Some in Hlook. lia. }
  destruct (Z.leb_spec 0 idx); [|lia]. destruct (Z.ltb_spec idx (Z.of_nat (length tokens))); [|lia].
  simpl. rewrite Hlook. rewrite bool_decide_eq_false_2 by (unfold word_piece; by_computation).
  f_equal. exact IH.
Qed.

Lemma marked_words ws :
  Forall (fun w => 9601%N ∉ w) ws ->
  List.map (fun c => if (c =? 9601)%N then 32%N else c) (concat (word_piece <$> ws))
    = tail_join ws.
Proof.
  induction 1 as [|w ws Hw Hws IH]; [reflexivity|].
  assert (E : concat (word_piece <$> (w :: ws))
              = 9601%N :: (w ++ concat (word_piece <$> ws))) by reflexivity.
  rewrite E. cbn [List.map]. rewrite N.eqb_refl, List.map_app, (map_unmarked w Hw), IH.
  change (tail_join (w :: ws)) with (32%N :: join [32%N] (w :: ws)).
  rewrite join_cons. reflexivity.
Qed.

(** X14: when every id is the index of the piece "▁w" of a word [w] (a word
    has no whitespace and no "▁" in it), the text is these words separated
    by single spaces. *)
Theorem tokens_to_text_words (token_ids : list Z) (tokens : list str) (words : list str) :
  Forall2 (fun idx w => 0 <= idx /\ tokens !! Z.to_nat idx = Some (word_piece w))
          token_ids words ->
  Forall (fun w => is_token w /\ 9601%N ∉ w) words ->
  _tokens_to_text token_ids tokens = join (u" ") words.
Proof.
  intros Hids Hws. unfold _tokens_to_text.
  rewrite (pieces_of_words _ _ _ Hids).
  change (u"▁") with [9601%N]. change (u" ") with [32%N].
  rewrite replace_char, marked_words by (eapply Forall_impl; [exact Hws | intros w [_ H]; exact H]).
  assert (Htoks : Forall is_token words)
    by (eapply Forall_impl; [exact Hws | intros w [H _]; exact H]).
  destruct words as [|w ws]; [reflexivity|].
  assert (E : tail_join (w :: ws) = [32%N] ++ join [32%N] (w :: ws) ++ []).
  { rewrite app_nil_r. reflexivity. }
  rewrite E, strip_padding by (repeat constructor). apply strip_join, Htoks.
Qed.

Lemma tokens_to_text_words_witness :
  _tokens_to_text [1; 2] [u"<blk>"; u"▁bật"; u"▁đèn"] = join (u" ") [u"bật"; u"đèn"].
Proof.
  apply (tokens_to_text_words [1; 2] [u"<blk>"; u"▁bật"; u"▁đèn"] [u"bật"; u"đèn"]).
  - repeat (constructor; [split; [lia | vm_compute; reflexivity]|]). constructor.
  - repeat apply Forall_cons_2; [| |apply Forall_nil_2];
      (split; [split; by_computation | by_computation]).
Defined.

(** *** Reading back a token file *)

Lemma line_fields token index_text :
  is_token token -> is_token index_text ->
  split (token ++ u" " ++ index_text ++ [10%N]) = [token; index_text].
Proof.
  intros Ht Hi.
  assert (E : token ++ u" " ++ index_text ++ [10%N]
              = [] ++ join [32%N] [token; index_text] ++ [10%N]).
  { simpl. rewrite <- !app_assoc. reflexivity. }
  rewrite E, <- split_strip, strip_padding, split_strip by (repeat constructor).
  apply split_join. apply Forall_cons_2; [exact Ht|]. apply Forall_cons_2; [exact Hi|].
  constructor.
Qed.

Section RoundTrip.

Variable py_int : str -> option Z.
Variable capacity : positive.

Lemma table_line_assignment token index :
  is_token token -> head token <> Some 35%N ->
  py_int (str_of_int (Z.of_nat index)) = Some (Z.of_nat index) ->
  assignment py_int (token ++ u" " ++ str_of_int (Z.of_nat index) ++ [10%N])
    = Some (index, token).
Proof.
  intros Ht Hhash Hint. unfold assignment.
  rewrite (line_fields _ _ Ht (str_of_int_token _)).
  rewrite startswith_hash.
  assert (Hc : match token with c :: _ => (35 =? c)%N | [] => false end = false).
  { destruct token as [|c r]; [reflexivity|]. apply N.eqb_neq. intros <-. apply Hhash.
    reflexivity. }
  rewrite Hc. cbn [length Nat.ltb Nat.leb last from_option]. unfold Datatypes.id.
  rewrite Hint.
  destruct (Z.ltb_spec (Z.of_nat index) 0); [lia|]. rewrite Nat2Z.id. reflexivity.
Qed.

Lemma assign_next tokens token :
  assign tokens (length tokens, token) = tokens ++ [token].
Proof.
  unfold assign. cbn [fst snd].
  replace (S (length tokens) - length tokens)%nat with 1%nat by lia.
  rewrite insert_app_r_alt by lia. rewrite Nat.sub_diag. reflexivity.
Qed.

(** One more entry can always be made. *)
Lemma next_fits (tokens : list str) (token : str) :
  too_large capacity (length tokens) [(length tokens, token)] = None.
Proof.
  cbn [too_large fst].
  replace (Z.of_nat (S (length tokens)) - Z.of_nat (length tokens)) with 1 by lia.
  destruct (Z.gtb_spec 1 (Z.pos capacity)); [lia | reflexivity].
Qed.

Lemma table_lines_read tokens : forall first acc,
  length acc = first ->
  Forall (fun t => is_token t /\ head t <> Some 35%N) tokens ->
  (forall i, (first <= i < first + length tokens)%nat ->
             py_int (str_of_int (Z.of_nat i)) = Some (Z.of_nat i)) ->
  read_lines py_int capacity acc (table_lines first tokens) = Ok (acc ++ tokens).
Proof.
  induction tokens as [|token rest IH]; intros first acc Hlen Hall Hint.
  - simpl. rewrite app_nil_r. reflexivity.
  - inversion Hall as [|? ? [Ht Hhash] Hrest]; subst.
    cbn [table_lines read_lines].
    rewrite read_line_assignment, table_line_assignment;
      [|exact Ht | exact Hhash | apply Hint; simpl; lia].
    rewrite next_fits, assign_next, (IH (S (length acc))).
    + rewrite <- app_assoc. reflexivity.
    + rewrite length_app. simpl. lia.
    + exact Hrest.
    + intros i Hi. apply Hint. simpl. lia.
Qed.

End RoundTrip.

(** X15: a token file written one token per line as "token index", the
    indices counting up from 0, is read back as the list of its tokens,
    provided that every token is a non-empty string without whitespace that
    does not start with "#", and that [int] reads each index back. *)
Theorem token_file_round_trip (py_int : str -> option Z) (capacity : positive)
    (tokens : list str) :
  Forall (fun t => is_token t /\ head t <> Some 35%N) tokens ->
  (forall i, (i < length tokens)%nat ->
             py_int (str_of_int (Z.of_nat i)) = Some (Z.of_nat i)) ->
  _read_tokens py_int capacity (table_lines 0 tokens) = Ok tokens.
Proof.
  intros Hall Hint. unfold _read_tokens.
  rewrite (table_lines_read py_int capacity tokens 0 []);
    [reflexivity | reflexivity | exact Hall|].
  intros i Hi. apply Hint. lia.
Qed.

Lemma token_file_round_trip_witness :
  _read_tokens (fun s => if bool_decide (s = u"0") then Some 0
                         else if bool_decide (s = u"1") then Some 1 else None)
    1 (table_lines 0 [u"<blk>"; u"▁bật"])
  = Ok [u"<blk>"; u"▁bật"].
Proof.
  apply (token_file_round_trip _ 1 [u"<blk>"; u"▁bật"]).
  - repeat apply Forall_cons_2; [| |apply Forall_nil_2];
      (split; [split; by_computation | by_computation]).
  - intros [|[|i]] Hi; [reflexivity | reflexivity | simpl in Hi; lia].
Defined.

(** *** [_decode_to_text] *)

Lemma join_last_piece sep ps c :
  Forall (fun p : str => p <> []) ps -> last (join sep ps) = Some c ->
  exists p, last ps = Some p /\ last p = Some c.
Proof.
  induction 1 as [|p ps Hne Hrest IH]; [discriminate|].
  destruct ps as [|p' ps'].
  - simpl. intros H. exists p. split; [reflexivity | exact H].
  - change (join sep (p :: p' :: ps')) with (p ++ sep ++ join sep (p' :: ps')).
    inversion Hrest as [|? ? Hne' _]; subst.
    assert (Hj : join sep (p' :: ps') <> []).
    { destruct p'; [contradiction|]. destruct ps'; discriminate. }
    rewrite !app_assoc, last_app.
    destruct (last (join sep (p' :: ps'))) eqn:E.
    + intros [= ->]. destruct (IH eq_refl) as (p0 & Hp0 & Hc).
      exists p0. split; [|exact Hc].
      rewrite last_cons. simpl in Hp0 |- *. rewrite Hp0. reflexivity.
    + apply last_None in E. contradiction.
Qed.

Lemma strip_join_pieces ps :
  Forall (fun p => p <> [] /\ strip p = p) ps ->
  strip (join [32%N] ps) = join [32%N] ps.
Proof.
  intros Hps. unfold strip.
  assert (Hl : lstrip (join [32%N] ps) = join [32%N] ps).
  { apply lstrip_fixed. intros c Hc.
    destruct Hps as [|p ps [Hne Hp] _]; [discriminate|].
    apply join_head in Hc; [|exact Hne].
    rewrite <- Hp in Hc. apply (proj1 (strip_ends p) c Hc). }
  rewrite Hl. apply rstrip_fixed. intros c Hc.
  destruct (join_last_piece [32%N] ps c) as (p & Hp & Hcp);
    [eapply Forall_impl; [exact Hps | intros ? [H _]; exact H] | exact Hc|].
  apply last_Some_elem_of in Hp. rewrite Forall_forall in Hps.
  destruct (Hps p Hp) as [_ Hs]. rewrite <- Hs in Hcp.
  apply (proj2 (strip_ends p) c Hcp).
Qed.

Lemma piece_of_stripped it : strip (piece_of it) = piece_of it.
Proof. destruct it; apply strip_idempotent. Qed.

Lemma segments_stripped (items : list item) :
  Forall (fun p => p <> [] /\ strip p = p)
         (filter (fun piece => piece <> []) (piece_of <$> items)).
Proof.
  apply Forall_forall. intros p Hp. apply list_elem_of_filter in Hp as [Hne Hin].
  split; [exact Hne|]. apply list_elem_of_fmap in Hin as (it & -> & _).
  apply piece_of_stripped.
Qed.

(** X18: the text [_decode_to_text] returns has no whitespace at either
    end; for a sequence it is the stripped pieces of the items, without the
    empty ones, joined by single spaces; and a sequence of one string gives
    the text the string alone gives. *)
Theorem decode_to_text_segments :
  (forall d, strip (_decode_to_text d) = _decode_to_text d)
  /\ (forall items,
        _decode_to_text (DIter items)
          = join (u" ") (filter (fun piece => piece <> []) (piece_of <$> items)))
  /\ (forall s, _decode_to_text (DIter [IStr s]) = _decode_to_text (DStr s)).
Proof.
  assert (Hseq : forall items,
            _decode_to_text (DIter items)
              = join (u" ") (filter (fun piece => piece <> []) (piece_of <$> items))).
  { intros items. unfold _decode_to_text. change (u" ") with [32%N].
    apply strip_join_pieces, segments_stripped. }
  split; [|split; [exact Hseq|]].
  - intros [|s|values|items|s]; simpl; try apply strip_idempotent; reflexivity.
  - intros s. rewrite Hseq. simpl. rewrite filter_cons, filter_nil.
    destruct (decide (strip s <> [])) as [Hne|He]; [reflexivity|].
    destruct (strip s); [reflexivity | exfalso; apply He; discriminate].
Qed.

End TextAssembly.

(** ** Model identifiers *)

Module Identifiers.

Import Py Words PyFacts Rewriting TranscriptClaims Backends Hub.

(** *** [str.split(sep)] and [str.rstrip(chars)] *)

Lemma split_on_go_app sep x : forall cur y,
  split_on_go sep cur (x ++ sep :: y) = split_on_go sep cur x ++ split_on_go sep [] y.
Proof.
  induction x as [|c x IH]; intros cur y; simpl.
  - rewrite N.eqb_refl. reflexivity.
  - destruct (c =? sep)%N; [rewrite IH; reflexivity | apply IH].
Qed.

Lemma split_on_go_plain sep y : forall cur,
  sep ∉ y -> split_on_go sep cur y = [reverse cur ++ y].
Proof.
  induction y as [|c y IH]; intros cur Hy; simpl.
  - rewrite app_nil_r. reflexivity.
  - destruct (N.eqb_spec c sep) as [->|_]; [exfalso; apply Hy; left|].
    rewrite IH by (intros H; apply Hy; right; exact H).
    rewrite reverse_cons, <- app_assoc. reflexivity.
Qed.

Lemma split_on_plain sep y : sep ∉ y -> split_on sep y = [y].
Proof. intros H. unfold split_on. rewrite split_on_go_plain by exact H. reflexivity. Qed.

Lemma split_on_go_parts sep s : forall cur,
  sep ∉ cur -> Forall (fun p => sep ∉ p) (split_on_go sep cur s).
Proof.
  induction s as [|c s IH]; intros cur Hcur; simpl.
  - constructor; [|constructor]. rewrite elem_of_reverse. exact Hcur.
  - destruct (N.eqb_spec c sep) as [->|Hne].
    + constructor; [rewrite elem_of_reverse; exact Hcur|].
      apply IH. intros H. inversion H.
    + apply IH. intros H. apply elem_of_cons in H as [H|H]; [congruence | auto].
Qed.

Lemma rstrip_by_padding chars s rm :
  Forall (fun c => chars c = true) rm -> rstrip_by chars (s ++ rm) = rstrip_by chars s.
Proof.
  intros Hrm. unfold rstrip_by. rewrite reverse_app. f_equal.
  apply Forall_reverse in Hrm. induction Hrm as [|c rm' Hc _ IH]; [reflexivity|].
  simpl. rewrite Hc. exact IH.
Qed.

(** X22: for a model whose URL holds "huggingface.co", the Whisper model
    identifier is made of the last two "/"-separated components of the URL,
    whatever number of "/" the URL ends with. *)
Theorem whisper_model_id_of_url (model : Model) (prefix owner name slashes : str) :
  url model = Some (prefix ++ u"/" ++ owner ++ u"/" ++ name ++ slashes) ->
  contains (u"huggingface.co") (prefix ++ u"/" ++ owner ++ u"/" ++ name ++ slashes) = true ->
  (47%N ∉ owner) -> name <> [] -> (47%N ∉ name) ->
  Forall (fun c => c = 47%N) slashes ->
  whisper_model_id model = owner ++ u"/" ++ name.
Proof.
  intros Hurl Hhub Howner Hname Hslash Hslashes.
  unfold whisper_model_id. rewrite Hurl. cbn [from_option]. unfold Datatypes.id.
  rewrite Hhub, andb_true_r.
  rewrite bool_decide_eq_false_2
    by (intros E; apply (f_equal length) in E; rewrite length_app in E; simpl in E; lia).
  cbn [negb].
  assert (Hstrip : rstrip_char 47 (prefix ++ u"/" ++ owner ++ u"/" ++ name ++ slashes)
                   = prefix ++ 47%N :: (owner ++ 47%N :: name)).
  { change (u"/") with [47%N].
    replace (prefix ++ [47%N] ++ owner ++ [47%N] ++ name ++ slashes)
      with ((prefix ++ 47%N :: (owner ++ 47%N :: name)) ++ slashes)
      by (rewrite <- !app_assoc; simpl; rewrite <- !app_assoc; reflexivity).
    unfold rstrip_char. rewrite rstrip_by_padding.
    - apply rstrip_by_fixed. intros c Hc.
      change (prefix ++ 47%N :: (owner ++ 47%N :: name))
        with (prefix ++ (47%N :: owner) ++ (47%N :: name)) in Hc.
      rewrite !app_assoc, last_app in Hc.
      change (last (47%N :: name)) with (last ([47%N] ++ name)) in Hc.
      rewrite last_app in Hc.
      destruct (last name) as [d|] eqn:E; [|apply last_None in E; contradiction].
      injection Hc as <-. apply N.eqb_neq. intros ->.
      apply Hslash, last_Some_elem_of, E.
    - eapply Forall_impl; [exact Hslashes|]. intros c ->. reflexivity. }
  rewrite Hstrip. unfold split_on.
  rewrite split_on_go_app, split_on_go_app.
  rewrite (split_on_go_plain 47 owner), (split_on_go_plain 47 name) by assumption.
  change (reverse [] ++ owner) with owner. change (reverse [] ++ name) with name.
  set (front := split_on_go 47 [] prefix).
  assert (E : front ++ [owner] ++ [name] = (front ++ [owner]) ++ [name])
    by (rewrite <- app_assoc; reflexivity).
  rewrite E, length_app. cbn [length].
  replace (length (front ++ [owner]) + 1 - 1)%nat with (length (front ++ [owner])) by lia.
  rewrite take_app_length, !last_snoc.
  destruct (Nat.leb_spec 2 (length (front ++ [owner]) + 1)) as [_|Hlt];
    [reflexivity | rewrite length_app in Hlt; simpl in Hlt; lia].
Qed.

Lemma whisper_model_id_of_url_witness :
  whisper_model_id (hub_model (u"https://huggingface.co/vinai/PhoWhisper-base//"))
    = u"vinai/PhoWhisper-base".
Proof.
  apply (whisper_model_id_of_url (hub_model (u"https://huggingface.co/vinai/PhoWhisper-base//"))
           (u"https://huggingface.co") (u"vinai") (u"PhoWhisper-base") (u"//"));
    try by_computation.
Defined.

Section RepoId.

Context {Enc Dec : Type}.
Variable ext : externals Enc Dec.

(** X19: a repository id that [_extract_repo_id] returns is "owner/name"
    with both parts non-empty and free of "/", and the model's URL holds
    "huggingface.co"; when the path of such a URL starts with "/owner/name",
    followed by nothing or by "/", the id returned is "owner/name". *)
Theorem extract_repo_id_shape (model : Model) :
  (forall repo_id,
      _extract_repo_id ext model = Ok (Some repo_id) ->
      exists url_ owner name,
        url model = Some url_
        /\ contains (u"huggingface.co") url_ = true
        /\ repo_id = owner ++ u"/" ++ name
        /\ owner <> [] /\ name <> [] /\ (47%N ∉ owner) /\ (47%N ∉ name))
  /\ (forall url_ owner name rest,
        url model = Some url_ ->
        contains (u"huggingface.co") url_ = true ->
        url_path ext url_ = Ok (u"/" ++ owner ++ u"/" ++ name ++ rest) ->
        owner <> [] -> (47%N ∉ owner) -> name <> [] -> (47%N ∉ name) ->
        rest = [] \/ head rest = Some 47%N ->
        _extract_repo_id ext model = Ok (Some (owner ++ u"/" ++ name))).
Proof.
  unfold _extract_repo_id. split.
  - intros repo_id. destruct (url model) as [url_|]; [|discriminate].
    destruct (negb (bool_decide (url_ = [])) && contains (u"huggingface.co") url_) eqn:Hc;
      [|discriminate].
    apply andb_true_iff in Hc as [_ Hhub].
    destruct (url_path ext url_) as [path|e]; [|discriminate].
    destruct (filter (fun part => part <> []) (split_on 47 path))
      as [|p0 [|p1 more]] eqn:Hparts; try discriminate.
    intros [= <-].
    assert (Hin : forall p, p ∈ [p0; p1] -> p <> [] /\ 47%N ∉ p).
    { intros p Hp.
      assert (Hp' : p ∈ filter (fun part => part <> []) (split_on 47 path)).
      { rewrite Hparts. apply elem_of_cons in Hp as [->|Hp]; [left|].
        apply list_elem_of_singleton in Hp as ->. right. left. }
      apply list_elem_of_filter in Hp' as [Hne Hp']. split; [exact Hne|].
      pose proof (split_on_go_parts 47 path []) as Hall.
      rewrite Forall_forall in Hall. apply Hall; [|exact Hp'].
      intros H. inversion H. }
    destruct (Hin p0) as [H0 H0']; [left|].
    destruct (Hin p1) as [H1 H1']; [right; left|].
    exists url_, p0, p1. repeat split; assumption.
  - intros url_ owner name rest Hurl Hhub Hpath Howner Hos Hname Hns Hrest.
    rewrite Hurl, Hhub, andb_true_r.
    rewrite bool_decide_eq_false_2
      by (intros ->; vm_compute in Hhub; discriminate Hhub).
    cbn [negb]. rewrite Hpath. change (u"/") with [47%N]. unfold split_on.
    change ([47%N] ++ owner ++ [47%N] ++ name ++ rest)
      with ([] ++ 47%N :: (owner ++ 47%N :: (name ++ rest))).
    rewrite split_on_go_app, split_on_go_app, (split_on_go_plain 47 owner) by assumption.
    simpl reverse. cbn [split_on_go app].
    rewrite filter_cons_False by (intros H; apply H; reflexivity).
    rewrite filter_cons_True by exact Howner.
    destruct Hrest as [->|Hrest].
    + rewrite app_nil_r, split_on_go_plain by assumption. simpl reverse. simpl app.
      rewrite filter_cons_True by exact Hname. reflexivity.
    + destruct rest as [|c rest']; [discriminate|]. injection Hrest as ->.
      rewrite split_on_go_app, split_on_go_plain by assumption. simpl reverse. simpl app.
      rewrite filter_cons_True by exact Hname. reflexivity.
Qed.

End RepoId.

Lemma extract_repo_id_shape_witness :
  _extract_repo_id (hub_world (u"/khanhld/chunkformer-large-vie/tree/main"))
    (hub_model (u"https://huggingface.co/khanhld/chunkformer-large-vie/tree/main"))
  = Ok (Some (u"khanhld/chunkformer-large-vie")).
Proof.
  apply (proj2 (extract_repo_id_shape (hub_world (u"/khanhld/chunkformer-large-vie/tree/main"))
                  (hub_model (u"https://huggingface.co/khanhld/chunkformer-large-vie/tree/main")))
           (u"https://huggingface.co/khanhld/chunkformer-large-vie/tree/main")
           (u"khanhld") (u"chunkformer-large-vie") (u"/tree/main"));
    try by_computation.
Defined.

End Identifiers.

(** ** What the greedy search returns *)

Module SearchFacts.

Import VietASR SearchSpec SearchInvariant.

Section Search.

Context {Enc Dec : Type}.
Variable blank_id : Z.
Variable context_size : nat.
Variable decoder : list (list Z) -> list Dec.
Variable joiner_argmax : list Enc -> list Dec -> list Z.

Local Abbreviation seeded := (SearchInvariant.seeded blank_id context_size).

Lemma seeded_append h token_id :
  token_id <> blank_id ->
  (blank_id ∉ drop context_size h) -> blank_id ∉ drop context_size (h ++ [token_id]).
Proof.
  intros Hne Hh. rewrite drop_app. intros Hin.
  apply elem_of_app in Hin as [Hin|Hin]; [auto|].
  destruct (context_size - length h)%nat as [|k]; simpl in Hin.
  - apply list_elem_of_singleton in Hin. congruence.
  - rewrite drop_nil in Hin. inversion Hin.
Qed.

Lemma append_emitted_seeded top_ids : forall hyps emitted idx hyps' emitted',
  seeded hyps ->
  append_emitted blank_id hyps emitted idx top_ids = Some (hyps', emitted') ->
  seeded hyps' /\ length hyps' = length hyps.
Proof.
  induction top_ids as [|token_id rest IH]; intros hyps emitted idx hyps' emitted' Hs; simpl.
  - intros [= <- <-]. split; [exact Hs | reflexivity].
  - destruct (decide (token_id <> blank_id)) as [Hne|Heq].
    + rewrite bool_decide_eq_true_2 by exact Hne.
      destruct (hyps !! idx) as [h|] eqn:Hh; [|discriminate].
      intros Hrun. apply IH in Hrun as [Hs' Hlen].
      * split; [exact Hs'|]. rewrite Hlen, length_insert. reflexivity.
      * apply Forall_insert; [exact Hs|]. apply seeded_append; [exact Hne|].
        unfold SearchInvariant.seeded in Hs. rewrite Forall_forall in Hs. apply Hs.
        eapply list_elem_of_lookup_2, Hh.
    + rewrite bool_decide_eq_false_2 by exact Heq. apply IH, Hs.
Qed.

Lemma search_step_seeded pk st current_batch st' :
  seeded (hyps st) ->
  search_step blank_id context_size decoder joiner_argmax pk st current_batch = Ok st' ->
  seeded (hyps st') /\ length (hyps st') = length (hyps st).
Proof.
  intros Hs. unfold search_step.
  destruct (append_emitted blank_id (hyps st) false 0 _) as [[hyps' emitted']|] eqn:E;
    [|discriminate].
  destruct emitted'; [destruct (rectangular _); [|discriminate]|];
    intros [= <-]; simpl; eapply append_emitted_seeded; eassumption.
Qed.

Lemma search_loop_seeded pk batch_size_list : forall st st',
  seeded (hyps st) ->
  search_loop blank_id context_size decoder joiner_argmax pk st batch_size_list = Ok st' ->
  seeded (hyps st') /\ length (hyps st') = length (hyps st).
Proof.
  induction batch_size_list as [|current_batch rest IH]; intros st st' Hs; simpl.
  - intros [= <-]. split; [exact Hs | reflexivity].
  - destruct (search_step _ _ _ _ pk st current_batch) as [st1|e] eqn:E; [|discriminate].
    destruct (search_step_seeded _ _ _ _ Hs E) as [Hs1 Hlen1].
    intros Hloop. destruct (IH _ _ Hs1 Hloop) as [Hs' Hlen']. split; [exact Hs' | congruence].
Qed.

Lemma unsort_elements sorted_ans unsorted count : forall i results,
  unsort sorted_ans unsorted i count = Some results ->
  length results = count /\ Forall (fun h => h ∈ sorted_ans) results.
Proof.
  induction count as [|count IH]; intros i results; simpl.
  - intros [= <-]. split; [reflexivity | constructor].
  - destruct (unsorted !! i) as [k|]; [|discriminate].
    destruct (sorted_ans !! k) as [h|] eqn:Hh; [|discriminate].
    destruct (unsort sorted_ans unsorted (S i) count) as [rest|] eqn:E; [|discriminate].
    intros [= <-]. destruct (IH _ _ E) as [Hlen Hall]. split; [simpl; congruence|].
    constructor; [eapply list_elem_of_lookup_2, Hh | exact Hall].
Qed.

Lemma initial_seeded batch :
  seeded (hyps (initial_state blank_id context_size decoder batch)).
Proof.
  simpl. apply Forall_forall. intros h Hh. apply elem_of_replicate in Hh as [-> _].
  rewrite drop_ge by (rewrite length_replicate; lia). intros H. inversion H.
Qed.

(** X16: whenever the greedy search returns, no hypothesis it returns holds
    the blank id, and it returns one hypothesis per batch element (none at
    all when the packed sequence has no step). *)
Theorem greedy_search_blank_free (encoder_out : EncoderOut) (results : list (list Z)) :
  _greedy_search blank_id context_size decoder joiner_argmax encoder_out = Ok results ->
  Forall (fun hypothesis => blank_id ∉ hypothesis) results
  /\ length results
     = match batch_sizes (packed encoder_out) with
       | [] => 0%nat
       | _ => enc_size0 encoder_out
       end.
Proof.
  unfold _greedy_search.
  destruct (negb (enc_dim encoder_out =? 3)%nat); [discriminate|].
  destruct (batch_sizes (packed encoder_out)) as [|first rest] eqn:Hbs.
  { intros [= <-]. split; [constructor | reflexivity]. }
  destruct (negb (enc_size0 encoder_out =? first)%nat); [discriminate|].
  destruct (search_loop _ _ _ _ _ _ _) as [st|e] eqn:Hloop; [|discriminate].
  destruct (unsort _ _ _ _) as [res|] eqn:Hun; [|discriminate].
  intros [= <-].
  destruct (search_loop_seeded _ _ _ _ (initial_seeded _) Hloop) as [Hs _].
  destruct (unsort_elements _ _ _ _ _ Hun) as [Hlen Hall].
  split; [|exact Hlen].
  eapply Forall_impl; [exact Hall|]. intros h Hh.
  change (List.map (drop context_size) (hyps st)) with (drop context_size <$> hyps st) in Hh.
  apply list_elem_of_fmap in Hh as (h0 & -> & Hh0).
  unfold SearchInvariant.seeded in Hs. rewrite Forall_forall in Hs. apply Hs, Hh0.
Qed.

End Search.

Lemma greedy_search_blank_free_witness :
  _greedy_search 0 2 context_decoder once_joiner three_frames = Ok [[7]]
  /\ Forall (fun hypothesis => 0 ∉ hypothesis) [[7]]
  /\ length [[7]] = 1%nat.
Proof.
  split; [reflexivity|].
  apply (greedy_search_blank_free 0 2 context_decoder once_joiner three_frames [[7]]).
  reflexivity.
Defined.

End SearchFacts.

(** ** Streams, caches and errors of the entry points *)

Module RunFacts.

Import Py Words PyFacts VietASR Backends Worlds Traces BackendClaims RunSpec.

(** *** The audio stream *)

Lemma collect_concat (stream : list (list Init.Byte.byte)) acc :
  collect stream acc = acc ++ concat stream.
Proof.
  revert acc. induction stream as [|chunk rest IH]; intros acc; simpl.
  - rewrite app_nil_r. reflexivity.
  - destruct chunk as [|b chunk]; rewrite IH; [reflexivity|].
    rewrite <- app_assoc. reflexivity.
Qed.

(** X27: the Whisper, VietASR and ChunkFormer entry points depend on the
    audio stream only through the concatenation of its chunks: two streams
    that carry the same bytes, cut into chunks in different ways, give the
    same run. *)
Theorem chunking_is_irrelevant {Enc Dec} (ext : externals Enc Dec) (model : Model)
    (settings : Settings) (stream1 stream2 : list (list Init.Byte.byte)) :
  concat stream1 = concat stream2 ->
  transcribe_whisper ext model settings stream1 = transcribe_whisper ext model settings stream2
  /\ transcribe_vietasr ext model settings stream1
     = transcribe_vietasr ext model settings stream2
  /\ transcribe_chunkformer ext model settings stream1
     = transcribe_chunkformer ext model settings stream2.
Proof.
  intros Hsame.
  assert (E : collect stream1 [] = collect stream2 []).
  { rewrite !collect_concat. simpl. exact Hsame. }
  unfold transcribe_whisper, transcribe_vietasr, transcribe_chunkformer.
  rewrite E. repeat split.
Qed.

Lemma chunking_is_irrelevant_witness :
  transcribe_whisper (plain_world (Some (u"bật đèn"))) vi_model some_settings
    [[Init.Byte.x01]; []; [Init.Byte.x00]]
  = transcribe_whisper (plain_world (Some (u"bật đèn"))) vi_model some_settings
      [[Init.Byte.x01; Init.Byte.x00]].
Proof.
  apply (chunking_is_irrelevant (plain_world (Some (u"bật đèn"))) vi_model some_settings
           [[Init.Byte.x01]; []; [Init.Byte.x00]] [[Init.Byte.x01; Init.Byte.x00]]).
  reflexivity.
Defined.

Section Runs.

Context {Enc Dec : Type}.
Variable ext : externals Enc Dec.

Lemma vosk_feed_skips_empty (stream : list (list Init.Byte.byte)) :
  forall fragments w,
    vosk_feed ext stream fragments w
      = vosk_feed ext (filter (fun chunk => chunk <> []) stream) fragments w.
Proof.
  induction stream as [|chunk rest IH]; intros fragments w; [reflexivity|].
  destruct chunk as [|b chunk].
  - rewrite filter_cons_False by (intros H; apply H; reflexivity). simpl. apply IH.
  - rewrite filter_cons_True by discriminate. simpl. unfold bind.
    destruct (call _ _ w) as [[[]|e] w1]; [|apply IH|reflexivity].
    destruct (call _ _ w1) as [[result|e] w2]; [|reflexivity].
    destruct (strip (default [] result)); apply IH.
Qed.

(** X25: the Vosk entry point never hands the recogniser an empty chunk: a
    run on a stream is the run on the stream without its empty chunks. *)
Theorem vosk_skips_empty_chunks (model : Model) (settings : Settings)
    (stream : list (list Init.Byte.byte)) (w : world) :
  transcribe_vosk ext model settings stream w
    = transcribe_vosk ext model settings (filter (fun chunk => chunk <> []) stream) w.
Proof.
  unfold transcribe_vosk, bind.
  destruct (vosk_model_for ext model settings w) as [[m|e] w1]; [|reflexivity].
  destruct (call_total _ _ w1) as [[[]|e] w2]; [|reflexivity].
  rewrite vosk_feed_skips_empty. reflexivity.
Qed.

(** *** What a run leaves alone *)

Lemma same_refl {A} (part : world -> A) w : same part w w.
Proof. reflexivity. Qed.

Lemma same_trans {A} (part : world -> A) w1 w2 w3 :
  same part w1 w2 -> same part w2 w3 -> same part w1 w3.
Proof. unfold same. congruence. Qed.

End Runs.

Ltac same_run :=
  repeat respects_step ltac:(apply same_refl) ltac:(apply same_trans);
  try (intros ?; reflexivity).

Section Beside.

Context {Enc Dec : Type}.
Variable ext : externals Enc Dec.

Lemma vosk_feed_same {A} (part : world -> A) stream fragments :
  (forall w t, part (with_trace w t) = part w) ->
  respects (same part) (vosk_feed ext stream fragments).
Proof.
  intros Hpart. revert fragments.
  induction stream as [|chunk rest IH]; intros fragments; simpl.
  - same_run.
  - destruct chunk; [apply IH|].
    apply respects_bind; [apply same_trans | apply respects_call; intros ?; apply Hpart|].
    intros []; [|apply IH].
    apply respects_bind; [apply same_trans | apply respects_call; intros ?; apply Hpart|].
    intros result. destruct (strip (default [] result)); apply IH.
Qed.

Lemma all_exist_same {A} (part : world -> A) model_dir names :
  (forall w t, part (with_trace w t) = part w) ->
  respects (same part) (all_exist ext model_dir names).
Proof.
  intros Hpart. induction names as [|name rest IH]; simpl.
  - same_run.
  - apply respects_bind; [apply same_trans | apply respects_call_total; intros ?; apply Hpart|].
    intros []; [exact IH | same_run].
Qed.

Lemma transcribe_vosk_beside model settings stream :
  respects (same beside_vosk) (transcribe_vosk ext model settings stream).
Proof.
  unfold transcribe_vosk, vosk_model_for.
  repeat first [ apply vosk_feed_same; reflexivity
               | respects_step ltac:(apply same_refl) ltac:(apply same_trans) ];
    try (intros ?; reflexivity).
Qed.

Lemma transcribe_whisper_beside model settings stream :
  respects (same beside_whisper) (transcribe_whisper ext model settings stream).
Proof. unfold transcribe_whisper, whisper_transcriber_for. same_run. Qed.

Lemma transcribe_vietasr_beside model settings stream :
  respects (same beside_vietasr) (transcribe_vietasr ext model settings stream).
Proof.
  unfold transcribe_vietasr, vietasr_require_dependencies, vietasr_load_resources. same_run.
Qed.

Lemma transcribe_chunkformer_beside model settings stream :
  respects (same beside_chunkformer) (transcribe_chunkformer ext model settings stream).
Proof.
  unfold transcribe_chunkformer, chunkformer_require_dependencies,
    chunkformer_load_resources, _ensure_model_files, _write_temp_wav, unlink.
  repeat first [ apply all_exist_same; reflexivity
               | respects_step ltac:(apply same_refl) ltac:(apply same_trans) ];
    try (intros ?; reflexivity).
Qed.

(** X29: an entry point changes no cache but that of its own backend, and
    only the ChunkFormer entry point touches the scratch files. *)
Theorem backends_keep_to_their_cache (model : Model) (settings : Settings)
    (stream : list (list Init.Byte.byte)) (w : world) :
  beside_vosk (transcribe_vosk ext model settings stream w).2 = beside_vosk w
  /\ beside_whisper (transcribe_whisper ext model settings stream w).2 = beside_whisper w
  /\ beside_vietasr (transcribe_vietasr ext model settings stream w).2 = beside_vietasr w
  /\ beside_chunkformer (transcribe_chunkformer ext model settings stream w).2
     = beside_chunkformer w.
Proof.
  repeat split.
  - apply transcribe_vosk_beside.
  - apply transcribe_whisper_beside.
  - apply transcribe_vietasr_beside.
  - apply transcribe_chunkformer_beside.
Qed.

(** *** The token tables in the cache *)

Lemma keeps_tokens_loaded_refl w : keeps_tokens_loaded w w.
Proof. intros H. exact H. Qed.

Lemma keeps_tokens_loaded_trans w1 w2 w3 :
  keeps_tokens_loaded w1 w2 -> keeps_tokens_loaded w2 w3 -> keeps_tokens_loaded w1 w3.
Proof. intros H1 H2 H. apply H2, H1, H. Qed.

Lemma transcribe_vietasr_tokens_loaded model settings stream :
  respects keeps_tokens_loaded (transcribe_vietasr ext model settings stream).
Proof.
  unfold transcribe_vietasr, vietasr_require_dependencies, vietasr_load_resources.
  repeat respects_step ltac:(apply keeps_tokens_loaded_refl)
                       ltac:(apply keeps_tokens_loaded_trans);
    try (intros w0 H0; exact H0).
  intros w0 H0 key r. simpl. rewrite lookup_insert_Some.
  intros [[_ <-]|[_ Hr]]; [discriminate | apply (H0 _ _ Hr)].
Qed.

(** X17: the VietASR cache never holds resources with an empty token
    table: if that is so before a sequence of requests, it is so after
    it. *)
Theorem vietasr_cache_has_tokens
    (requests : list (Model * Settings * list (list Init.Byte.byte))) (w : world)
    (key : str) (r : VietResources) :
  (forall key0 r0, vietasr_RESOURCES w !! key0 = Some r0 -> v_tokens r0 <> []) ->
  vietasr_RESOURCES (serve (transcribe_vietasr ext) requests w) !! key = Some r ->
  v_tokens r <> [].
Proof.
  intros Hw. revert key r.
  apply (serve_respects keeps_tokens_loaded (transcribe_vietasr ext)
           keeps_tokens_loaded_refl keeps_tokens_loaded_trans
           transcribe_vietasr_tokens_loaded requests w Hw).
Qed.

End Beside.

Lemma vietasr_cache_has_tokens_witness :
  vietasr_RESOURCES
    (serve (transcribe_vietasr (plain_world None))
       [(vi_model, some_settings, [[Init.Byte.x01; Init.Byte.x00]])] warm)
    !! (u"/data/vi-model") = Some loaded_resources
  /\ v_tokens loaded_resources <> [].
Proof.
  assert (H : vietasr_RESOURCES
                (serve (transcribe_vietasr (plain_world None))
                   [(vi_model, some_settings, [[Init.Byte.x01; Init.Byte.x00]])] warm)
                !! (u"/data/vi-model") = Some loaded_resources)
    by (vm_compute; reflexivity).
  split; [exact H|].
  apply (vietasr_cache_has_tokens (plain_world None)
           [(vi_model, some_settings, [[Init.Byte.x01; Init.Byte.x00]])] warm
           (u"/data/vi-model") loaded_resources); [|exact H].
  intros key0 r0. unfold warm. simpl. rewrite lookup_insert_Some.
  intros [[_ <-]|[_ H0]]; [discriminate | rewrite lookup_empty in H0; discriminate H0].
Defined.

Section Loads.

Context {Enc Dec : Type}.
Variable ext : externals Enc Dec.

(** *** The fourth cache *)

Lemma whisper_hit model w t :
  transformers_installed ext = true ->
  _WHISPER_MODELS w !! whisper_model_id model = Some t ->
  whisper_transcriber_for ext model w = (Ok t, w).
Proof.
  intros Hi H. unfold whisper_transcriber_for. rewrite Hi. simpl.
  unfold bind, read, ret. simpl. rewrite H. simpl. rewrite H. reflexivity.
Qed.

Lemma whisper_transcriber_for_kept key t model :
  respects (kept _WHISPER_MODELS key t (LoadWhisper key)) (whisper_transcriber_for ext model).
Proof.
  destruct (decide (whisper_model_id model = key)) as [<-|Hne].
  - intros w Hw. destruct (transformers_installed ext) eqn:Hi.
    + rewrite (whisper_hit model w t Hi Hw). apply kept_refl, Hw.
    + unfold whisper_transcriber_for. rewrite Hi. apply kept_refl, Hw.
  - unfold whisper_transcriber_for. kept_run.
Qed.

Lemma transcribe_whisper_kept key t model settings stream :
  respects (kept _WHISPER_MODELS key t (LoadWhisper key))
    (transcribe_whisper ext model settings stream).
Proof.
  unfold transcribe_whisper.
  repeat first [ apply whisper_transcriber_for_kept
               | respects_step ltac:(apply kept_refl) ltac:(apply kept_trans) ];
    try kept_side.
Qed.

(** X23: when the Whisper model identifier is a key of [_WHISPER_MODELS],
    the cached pipeline is used and nothing at all is called to obtain it;
    over any sequence of requests the entry stays and the pipeline of that
    identifier is never loaded again. *)
Theorem whisper_cache_hit (model : Model) (w : world) (t : N) :
  transformers_installed ext = true ->
  _WHISPER_MODELS w !! whisper_model_id model = Some t ->
  whisper_transcriber_for ext model w = (Ok t, w)
  /\ forall requests,
      _WHISPER_MODELS (serve (transcribe_whisper ext) requests w) !! whisper_model_id model
        = Some t
      /\ grew_by (fun ev => ev <> LoadWhisper (whisper_model_id model))
           w (serve (transcribe_whisper ext) requests w).
Proof.
  intros Hi Hw. split; [apply whisper_hit; assumption|].
  intros requests.
  apply (serve_respects (kept _WHISPER_MODELS _ t (LoadWhisper _)));
    [ intros; apply kept_refl
    | intros ? ? ?; apply kept_trans
    | intros; apply transcribe_whisper_kept
    | exact Hw ].
Qed.

(** *** What loading does to the cache *)

Lemma ensure_model_files_same model model_dir :
  respects (same chunkformer_RESOURCES) (_ensure_model_files ext model model_dir).
Proof.
  unfold _ensure_model_files.
  repeat first [ apply all_exist_same; reflexivity
               | respects_step ltac:(apply same_refl) ltac:(apply same_trans) ];
    try (intros ?; reflexivity).
Qed.

(** X30: a resource-loading call that returns leaves the returned resources
    in the cache of its backend under the key of the model, and changes no
    other entry; a resource-loading call that raises leaves the cache as it
    was. *)
Theorem load_updates_cache (model : Model) (settings : Settings) (w : world) :
  match vosk_model_for ext model settings w with
  | (Ok m, w') =>
      _VOSK_MODELS w'
        = <[absolute ext (path_join (models_dir settings) (id model)) := m]> (_VOSK_MODELS w)
  | (Raise _, w') => _VOSK_MODELS w' = _VOSK_MODELS w
  end
  /\ match whisper_transcriber_for ext model w with
     | (Ok t, w') => _WHISPER_MODELS w' = <[whisper_model_id model := t]> (_WHISPER_MODELS w)
     | (Raise _, w') => _WHISPER_MODELS w' = _WHISPER_MODELS w
     end
  /\ match vietasr_load_resources ext model settings w with
     | (Ok r, w') =>
         vietasr_RESOURCES w' = <[model_data_dir settings (id model) := r]> (vietasr_RESOURCES w)
     | (Raise _, w') => vietasr_RESOURCES w' = vietasr_RESOURCES w
     end
  /\ match chunkformer_load_resources ext model settings w with
     | (Ok r, w') =>
         chunkformer_RESOURCES w'
           = <[model_data_dir settings (id model) := r]> (chunkformer_RESOURCES w)
     | (Raise _, w') => chunkformer_RESOURCES w' = chunkformer_RESOURCES w
     end.
Proof.
  split; [|split; [|split]].
  - unfold vosk_model_for. destruct (vosk_installed ext); simpl; [|reflexivity].
    unfold bind, call_total, call, read, update, ret, raise. simpl.
    destruct (is_dir ext _ _); simpl; [|reflexivity].
    destruct (_VOSK_MODELS w !! _) eqn:E; simpl.
    + symmetry. apply insert_id, E.
    + destruct (vosk_load ext _ _); reflexivity.
  - unfold whisper_transcriber_for. destruct (transformers_installed ext); simpl; [|reflexivity].
    unfold bind, try_except, call, read, update, ret, raise. simpl.
    destruct (_WHISPER_MODELS w !! _) eqn:E; simpl.
    + rewrite E. simpl. symmetry. apply insert_id, E.
    + destruct (whisper_load ext _ _) as [t|e]; simpl.
      * rewrite lookup_insert_eq. reflexivity.
      * destruct (is_Exception e); reflexivity.
  - unfold vietasr_load_resources, bind, call_total, call, read, update, ret, raise, lift.
    simpl.
    destruct (make_dir ext _ _); simpl; [|reflexivity].
    destruct (vietasr_RESOURCES w !! _) eqn:E; simpl; [symmetry; apply insert_id, E|].
    destruct (path_exists ext _ _), (path_exists ext _ _); simpl; try reflexivity.
    destruct (torchscript_load ext _ _); simpl; [|reflexivity].
    destruct (token_file_lines ext _ _); simpl; [|reflexivity].
    destruct (_read_tokens _ _ _) as [[|? ?]|]; reflexivity.
  - unfold chunkformer_load_resources. unfold bind at 1. unfold call at 1.
    destruct (make_dir ext _ _); simpl; [|reflexivity].
    unfold bind at 1. unfold read at 1. simpl.
    destruct (chunkformer_RESOURCES w !! _) eqn:E; simpl; [symmetry; apply insert_id, E|].
    unfold bind at 1.
    match goal with
    | |- context [_ensure_model_files ext model ?d ?w0] =>
        pose proof (ensure_model_files_same model d w0) as Hsame;
        destruct (_ensure_model_files ext model d w0) as [[[]|e] w2]
    end; [|exact Hsame].
    unfold same in Hsame. simpl in Hsame.
    unfold bind, try_except, call, read, update, ret, raise. simpl.
    destruct (chunkformer_load ext _ _) as [m|e]; simpl.
    + rewrite Hsame. reflexivity.
    + destruct (is_Exception e); exact Hsame.
Qed.

(** *** What [transcribe_whisper] raises *)

(** X24: [transcribe_whisper] turns an [Exception] raised by either of the
    two library calls it guards into a [TranscribingError], and lets any
    other exception through as it is: when loading the pipeline raises,
    the error is that of a failed load and nothing is cached; when the
    pipeline raises on the audio, the error is that of a failed
    transcription; and the lookup of the pipeline in [_WHISPER_MODELS]
    after the load never raises [KeyError]. *)
Theorem whisper_exceptions (model : Model) (settings : Settings)
    (stream : list (list Init.Byte.byte)) (w : world) :
  transformers_installed ext = true ->
  (forall e,
      _WHISPER_MODELS w !! whisper_model_id model = None ->
      whisper_load ext (trace w) (whisper_model_id model) = Raise e ->
      transcribe_whisper ext model settings stream w
        = (Raise (if is_Exception e then TranscribingError (LoadFailed (code_of e)) else e),
           with_trace w (trace w ++ [LoadWhisper (whisper_model_id model)])))
  /\ (forall t w1 e,
        whisper_transcriber_for ext model w = (Ok t, w1) ->
        collect stream [] <> [] ->
        Nat.odd (length (collect stream [])) = false ->
        whisper_pipeline ext (trace w1) t (collect stream []) = Raise e ->
        transcribe_whisper ext model settings stream w
          = (Raise (if is_Exception e
                    then TranscribingError (DecodeFailed (code_of e)) else e),
             with_trace w1 (trace w1 ++ [WhisperPipeline (collect stream [])])))
  /\ (whisper_transcriber_for ext model w).1 <> Raise KeyError.
Proof.
  intros Hi. split; [|split].
  - intros e Hmiss Hload. unfold transcribe_whisper. unfold bind at 1.
    unfold whisper_transcriber_for. rewrite Hi. simpl.
    unfold bind, try_except, call, read, update, ret, raise. simpl.
    rewrite Hmiss. simpl. rewrite Hload. simpl.
    destruct (is_Exception e); reflexivity.
  - intros t w1 e Hload Haudio Heven Hraise. unfold transcribe_whisper.
    unfold bind at 1. rewrite Hload.
    destruct (collect stream []) as [|b bs] eqn:E; [contradiction|].
    rewrite Heven. unfold bind, try_except, call, ret, raise. simpl. rewrite Hraise.
    simpl. destruct (is_Exception e); reflexivity.
  - unfold whisper_transcriber_for. rewrite Hi. simpl.
    unfold bind, try_except, call, read, update, ret, raise. simpl.
    destruct (_WHISPER_MODELS w !! _) eqn:E; simpl.
    + rewrite E. discriminate.
    + destruct (whisper_load ext _ _) as [t|e0]; simpl.
      * rewrite lookup_insert_eq. discriminate.
      * destruct (is_Exception e0) eqn:Hex; simpl; [discriminate|].
        intros [= ->]. discriminate Hex.
Qed.

(** X28: an audio with an odd number of bytes, which is not a sequence of
    16-bit samples, makes the Whisper and VietASR entry points raise
    [ValueError] once their resources are there, before any inference
    call. *)
Theorem odd_audio_is_rejected (model : Model) (settings : Settings)
    (stream : list (list Init.Byte.byte)) (w : world) :
  Nat.odd (length (concat stream)) = true ->
  (forall t w1,
      whisper_transcriber_for ext model w = (Ok t, w1) ->
      transcribe_whisper ext model settings stream w = (Raise ValueError, w1))
  /\ (forall r w1,
        vietasr_resources_for ext model settings w = (Ok r, w1) ->
        transcribe_vietasr ext model settings stream w = (Raise ValueError, w1)).
Proof.
  intros Hodd.
  assert (Hne : exists b bs, collect stream [] = b :: bs /\ Nat.odd (length (b :: bs)) = true).
  { rewrite collect_concat. simpl. destruct (concat stream) as [|b bs]; [discriminate|].
    eauto. }
  destruct Hne as (b & bs & Hc & Ho). split.
  - intros t w1 Hres. unfold transcribe_whisper. unfold bind at 1. rewrite Hres, Hc, Ho.
    reflexivity.
  - intros r w1 Hres. unfold transcribe_vietasr.
    unfold Traces.vietasr_resources_for, bind in Hres. unfold bind at 1.
    destruct (vietasr_require_dependencies ext w) as [[[]|e0] w0]; [|discriminate].
    unfold bind at 1. rewrite Hres, Hc, Ho. reflexivity.
Qed.

(** *** The files of the ChunkFormer model *)

(** X20: when the three expected files are found in the model directory,
    each at the moment it is looked for, [_ensure_model_files] returns
    after having checked them and downloads nothing; when the model has no
    repository id, it returns or raises [TranscribingError], and calls
    nothing but the checks. *)
Theorem ensure_model_files_downloads_only_when_needed (model : Model) (model_dir : str)
    (w : world) :
  let config := path_join model_dir (u"config.yaml") in
  let weights := path_join model_dir (u"pytorch_model.pt") in
  let vocab := path_join model_dir (u"vocab.txt") in
  (path_exists ext (trace w) config = true ->
   path_exists ext (trace w ++ [Exists config]) weights = true ->
   path_exists ext (trace w ++ [Exists config; Exists weights]) vocab = true ->
   _ensure_model_files ext model model_dir w
     = (Ok tt, with_trace w (trace w ++ [Exists config; Exists weights; Exists vocab])))
  /\ (_extract_repo_id ext model = Ok None ->
      ((_ensure_model_files ext model model_dir w).1 = Ok tt
       \/ (_ensure_model_files ext model model_dir w).1 = Raise (TranscribingError NoRepoId))
      /\ grew_by (fun ev => exists p, ev = Exists p)
           w (_ensure_model_files ext model model_dir w).2).
Proof.
  cbv zeta. split.
  - intros Hconfig Hweights Hvocab. unfold _ensure_model_files. simpl.
    unfold bind, call_total, call, ret. simpl.
    rewrite Hconfig. simpl. rewrite Hweights. simpl.
    rewrite <- app_assoc. simpl. rewrite Hvocab. simpl.
    unfold with_trace. simpl. rewrite <- !app_assoc. reflexivity.
  - intros Hrepo. unfold _ensure_model_files. rewrite Hrepo. simpl.
    unfold bind, call_total, call, ret, raise, lift. simpl.
    destruct (path_exists ext _ _); simpl;
      [destruct (path_exists ext _ _); simpl; [destruct (path_exists ext _ _); simpl|]|];
      (split; [auto|]); eexists; (split; [rewrite <- ?app_assoc; reflexivity|]);
      repeat constructor; eauto.
Qed.

(** *** A WAV file that cannot be written *)

(** X21: when writing the WAV file fails, [transcribe_chunkformer] raises
    what the writer raised, without calling [endless_decode], and the file
    that [mkstemp] created is left on the disk: the removal of the scratch
    file only covers the decoding. *)
Theorem failed_write_leaves_scratch_file (model : Model) (settings : Settings)
    (stream : list (list Init.Byte.byte)) (w : world) (resources : ChunkResources)
    (w1 : world) (e : exception) :
  chunkformer_resources_for ext model settings w = (Ok resources, w1) ->
  collect stream [] <> [] ->
  write_wav ext (trace w1 ++ [Mkstemp (mkstemp ext (trace w1))]) (mkstemp ext (trace w1))
    (collect stream []) = Raise e ->
  exists w',
    transcribe_chunkformer ext model settings stream w = (Raise e, w')
    /\ mkstemp ext (trace w1) ∈ scratch_files w'
    /\ trace w' = trace w1 ++ [Mkstemp (mkstemp ext (trace w1));
                               WriteWav (mkstemp ext (trace w1))].
Proof.
  intros Hres Haudio Hwrite.
  unfold transcribe_chunkformer. unfold Traces.chunkformer_resources_for, bind in Hres.
  unfold bind at 1.
  destruct (chunkformer_require_dependencies ext w) as [[[]|e0] w0]; [|discriminate].
  unfold bind at 1. rewrite Hres.
  destruct (collect stream []) as [|b bs] eqn:E; [contradiction|].
  unfold bind at 1.
  unfold _write_temp_wav, bind, read, call_total, call, update, ret. simpl.
  rewrite Hwrite. simpl. eexists. split; [reflexivity|]. simpl. split.
  - apply elem_of_union. left. apply elem_of_singleton. reflexivity.
  - rewrite <- app_assoc. reflexivity.
Qed.

End Loads.

Lemma whisper_cache_hit_witness :
  whisper_transcriber_for (plain_world None) vi_model whisper_warm = (Ok 2%N, whisper_warm)
  /\ _WHISPER_MODELS
       (serve (transcribe_whisper (plain_world None))
          [(vi_model, some_settings, [[Init.Byte.x01; Init.Byte.x00]])] whisper_warm)
       !! whisper_model_id vi_model = Some 2%N.
Proof.
  destruct (whisper_cache_hit (plain_world None) vi_model whisper_warm 2%N) as [Hhit Hseq].
  - reflexivity.
  - vm_compute. reflexivity.
  - split; [exact Hhit|].
    apply (Hseq [(vi_model, some_settings, [[Init.Byte.x01; Init.Byte.x00]])]).
Defined.

Lemma whisper_exceptions_witness :
  transcribe_whisper bare_world vi_model some_settings [[Init.Byte.x01; Init.Byte.x00]] fresh
    = (Raise (TranscribingError (LoadFailed 2)),
       with_trace fresh [LoadWhisper (u"vi-model")]).
Proof.
  apply (proj1 (whisper_exceptions bare_world vi_model some_settings
                  [[Init.Byte.x01; Init.Byte.x00]] fresh eq_refl)
           (LibraryError 2)).
  - reflexivity.
  - reflexivity.
Defined.

Lemma odd_audio_is_rejected_witness :
  transcribe_whisper (plain_world None) vi_model some_settings
      [[Init.Byte.x01; Init.Byte.x00]; [Init.Byte.x07]] whisper_warm
    = (Raise ValueError, whisper_warm).
Proof.
  apply (proj1 (odd_audio_is_rejected (plain_world None) vi_model some_settings
                  [[Init.Byte.x01; Init.Byte.x00]; [Init.Byte.x07]] whisper_warm eq_refl)
           2%N whisper_warm).
  vm_compute. reflexivity.
Defined.

Lemma ensure_model_files_witness :
  _ensure_model_files three_files_world vi_model (u"/data/vi-model") fresh
    = (Ok tt,
       with_trace fresh
         [Exists (u"/data/vi-model/config.yaml");
          Exists (u"/data/vi-model/pytorch_model.pt");
          Exists (u"/data/vi-model/vocab.txt")])
  /\ (_ensure_model_files bare_world vi_model (u"/data/vi-model") fresh).1
     = Raise (TranscribingError NoRepoId).
Proof.
  destruct (ensure_model_files_downloads_only_when_needed three_files_world vi_model
              (u"/data/vi-model") fresh) as [Hthere _].
  destruct (ensure_model_files_downloads_only_when_needed bare_world vi_model
              (u"/data/vi-model") fresh) as [_ Hmissing].
  split.
  - rewrite Hthere by (vm_compute; reflexivity). reflexivity.
  - destruct (Hmissing eq_refl) as [[H|H] _]; [vm_compute in H; discriminate H | exact H].
Defined.

Lemma failed_write_leaves_scratch_file_witness :
  exists w',
    transcribe_chunkformer full_disk vi_model some_settings
      [[Init.Byte.x01; Init.Byte.x00]] fresh = (Raise (LibraryError 28), w')
    /\ u"/tmp/tmp0.wav" ∈ scratch_files w'.
Proof.
  destruct (failed_write_leaves_scratch_file full_disk vi_model some_settings
              [[Init.Byte.x01; Init.Byte.x00]] fresh
              {| c_model := 4%N; c_device := 0%N |}
              (chunkformer_resources_for full_disk vi_model some_settings fresh).2
              (LibraryError 28))
    as (w' & Hrun & Hfile & _).
  - reflexivity.
  - discriminate.
  - reflexivity.
  - exists w'. split; [exact Hrun | exact Hfile].
Defined.

End RunFacts.

(** ** What the recogniser hears *)

Module Hearing.

Import Py Words PyFacts Backends Worlds Traces BackendClaims RunSpec RunFacts Heard.

Section Vosk.

Context {Enc Dec : Type}.
Variable ext : externals Enc Dec.

Lemma accepted_chunks_other t ev :
  (forall chunk, ev <> AcceptWaveform chunk) ->
  accepted_chunks (t ++ [ev]) = accepted_chunks t.
Proof.
  intros Hev. unfold accepted_chunks. rewrite omap_app. simpl.
  destruct ev; try apply app_nil_r. exfalso. eapply Hev. reflexivity.
Qed.

Lemma accepted_chunks_accept t chunk :
  accepted_chunks (t ++ [AcceptWaveform chunk]) = accepted_chunks t ++ [chunk].
Proof. unfold accepted_chunks. rewrite omap_app. reflexivity. Qed.

Lemma vosk_feed_accepts (stream : list (list Init.Byte.byte)) :
  forall fragments w r w',
    vosk_feed ext stream fragments w = (Ok r, w') ->
    accepted_chunks (trace w')
      = accepted_chunks (trace w) ++ filter (fun chunk => chunk <> []) stream.
Proof.
  induction stream as [|chunk rest IH]; intros fragments w r w'.
  - simpl. intros [= _ <-]. rewrite app_nil_r. reflexivity.
  - destruct chunk as [|b chunk].
    + rewrite filter_cons_False by (intros H; apply H; reflexivity). simpl. apply IH.
    + rewrite filter_cons_True by discriminate. simpl. unfold bind, call. simpl.
      destruct (accept_waveform ext (trace w) (b :: chunk)) as [[]|e]; [| |discriminate].
      * destruct (recognizer_result ext _) as [result|e]; [|discriminate].
        intros Hrun.
        assert (Hrest : accepted_chunks (trace w')
                        = accepted_chunks
                            ((trace w ++ [AcceptWaveform (b :: chunk)]) ++ [RecognizerResult])
                          ++ filter (fun chunk => chunk <> []) rest).
        { destruct (strip (default [] result)); apply IH in Hrun; exact Hrun. }
        rewrite Hrest, accepted_chunks_other by discriminate.
        rewrite accepted_chunks_accept, <- app_assoc. reflexivity.
      * intros Hrun. apply IH in Hrun. simpl in Hrun.
        rewrite Hrun, accepted_chunks_accept, <- app_assoc. reflexivity.
Qed.

Lemma vosk_model_for_hears_nothing model settings :
  respects (same (fun w => accepted_chunks (trace w))) (vosk_model_for ext model settings).
Proof.
  unfold vosk_model_for.
  repeat respects_step ltac:(apply same_refl) ltac:(apply same_trans);
    try (intros ?; first [ reflexivity
                         | unfold same; simpl; apply accepted_chunks_other; discriminate ]).
Qed.

(** X26: a run of the Vosk entry point that returns has handed the
    recogniser every non-empty chunk of the stream exactly once, in the
    order of the stream, and nothing else. *)
Theorem vosk_hears_every_chunk (model : Model) (settings : Settings)
    (stream : list (list Init.Byte.byte)) (w : world) (text : str) (w' : world) :
  transcribe_vosk ext model settings stream w = (Ok text, w') ->
  accepted_chunks (trace w')
    = accepted_chunks (trace w) ++ filter (fun chunk => chunk <> []) stream.
Proof.
  unfold transcribe_vosk. unfold bind at 1.
  pose proof (vosk_model_for_hears_nothing model settings w) as Hmodel.
  destruct (vosk_model_for ext model settings w) as [[m|e] w1]; [|discriminate].
  unfold same in Hmodel. simpl in Hmodel.
  unfold bind at 1. unfold call_total, call at 1. simpl.
  unfold bind at 1.
  destruct (vosk_feed ext stream [] _) as [[fragments|e] w2] eqn:Hfeed; [|discriminate].
  apply vosk_feed_accepts in Hfeed. simpl in Hfeed.
  unfold bind, call, ret. simpl.
  destruct (recognizer_final_result ext (trace w2)); [|discriminate].
  intros [= _ <-]. simpl.
  rewrite accepted_chunks_other, Hfeed, accepted_chunks_other, Hmodel by discriminate.
  reflexivity.
Qed.

End Vosk.

Lemma vosk_hears_every_chunk_witness :
  accepted_chunks
    (trace (transcribe_vosk (plain_world (Some (u"bật đèn"))) vi_model some_settings
              [[Init.Byte.x01; Init.Byte.x00]; []; [Init.Byte.x02; Init.Byte.x00]] fresh).2)
  = accepted_chunks (trace fresh)
      ++ filter (fun chunk => chunk <> [])
           [[Init.Byte.x01; Init.Byte.x00]; []; [Init.Byte.x02; Init.Byte.x00]].
Proof.
  apply (vosk_hears_every_chunk (plain_world (Some (u"bật đèn"))) vi_model some_settings
           [[Init.Byte.x01; Init.Byte.x00]; []; [Init.Byte.x02; Init.Byte.x00]] fresh
           (u"bật đèn")).
  vm_compute. reflexivity.
Defined.

End Hearing.
